(** * export-github-as-portfolio: a shallow embedding of the PDF path

    The development follows [src/export-github-as-portfolio.py]:
    - [PyStr]   : the [str] methods the script calls (strip, replace, split);
    - [Re]      : the regular expressions of the script, each one written as a
                  matcher "at the current position", driven by the scanning
                  loops of [re.sub], [re.split] and [re.match];
    - [Latex]   : [latex_to_unicode] and its fallback pipeline;
    - [Markup]  : [process_inline] and [process_readme_line], as emitters of
                  FPDF calls;
    - [Fpdf]    : the cursor and page model of the FPDF object;
    - [Portfolio]: [fetch_readme], [hex_to_rgb] and [generate_pdf];
    - [Sample]  : an A4 library instance and small inputs to run the model on;
    - [Notions] : the predicates the statements are written with.

    SymPy, the font metrics of FPDF, [datetime] and the network are not part
    of the script: they enter the model as functions ([sympy], the fields
    [wrap] and [string_width] of [Fpdf.Lib], [month_abbr], [Network]).

    Characters are code points below 256 (the core fonts the script selects
    are Latin-1 fonts); lengths are rationals in millimetres. *)

From Stdlib Require Import ZArith QArith List Bool Lia String Ascii NArith.
From Stdlib Require Import DecimalString Sorted Permutation.
Import ListNotations.
Close Scope Q_scope.
Open Scope string_scope.

(* ================================================================== *)
(** ** Python [str] methods *)

Module PyStr.

Definition newline : ascii := ascii_of_nat 10.

(** [str.isspace] on one character, restricted to code points < 256:
    TAB..CR, FS..US and space, NEL (0x85) and NBSP (0xA0). *)
Definition is_space (c : ascii) : bool :=
  let n := N_of_ascii c in
  (((9 <=? n) && (n <=? 13)) || ((28 <=? n) && (n <=? 32))
   || (n =? 133) || (n =? 160))%N.

Definition is_digit (c : ascii) : bool :=
  let n := N_of_ascii c in ((48 <=? n) && (n <=? 57))%N.

(** The class [[a-zA-Z0-9]]. *)
Definition is_alnum (c : ascii) : bool :=
  let n := N_of_ascii c in
  (((97 <=? n) && (n <=? 122)) || ((65 <=? n) && (n <=? 90))
   || ((48 <=? n) && (n <=? 57)))%N.

(** Longest prefix whose characters satisfy [p], and the rest. *)
Fixpoint span (p : ascii -> bool) (s : string) : string * string :=
  match s with
  | EmptyString => (EmptyString, EmptyString)
  | String c s' =>
      if p c then let (a, b) := span p s' in (String c a, b)
      else (EmptyString, s)
  end.

Fixpoint drop_while (p : ascii -> bool) (s : string) : string :=
  match s with
  | EmptyString => EmptyString
  | String c s' => if p c then drop_while p s' else s
  end.

Fixpoint drop (n : nat) (s : string) : string :=
  match n, s with
  | S n', String _ s' => drop n' s'
  | _, _ => s
  end.

Fixpoint rev_onto (s acc : string) : string :=
  match s with
  | EmptyString => acc
  | String c s' => rev_onto s' (String c acc)
  end.

Definition rev (s : string) : string := rev_onto s EmptyString.

Definition lstrip (s : string) : string := drop_while is_space s.
Definition rstrip (s : string) : string := rev (drop_while is_space (rev s)).
Definition strip (s : string) : string := rstrip (lstrip s).

Definition startswith (s p : string) : bool := prefix p s.

(** [s.replace(k, v)] for a non-empty [k]: leftmost occurrences, not
    overlapping.  [skip] counts the characters of an occurrence that are
    still to be passed over. *)
Fixpoint replace_from (k v : string) (skip : nat) (s : string) : string :=
  match s with
  | EmptyString => EmptyString
  | String c s' =>
      match skip with
      | S n => replace_from k v n s'
      | O =>
          if prefix k s
          then v ++ replace_from k v (pred (length k)) s'
          else String c (replace_from k v 0 s')
      end
  end.

Definition replace (k v s : string) : string := replace_from k v 0 s.

(** [s.split(sep)] for a one-character separator. *)
Fixpoint split_from (sep : ascii) (cur : string) (s : string) : list string :=
  match s with
  | EmptyString => [rev cur]
  | String c s' =>
      if Ascii.eqb c sep then rev cur :: split_from sep EmptyString s'
      else split_from sep (String c cur) s'
  end.

Definition split (sep : ascii) (s : string) : list string :=
  split_from sep EmptyString s.

(** [str(n)] for an integer. *)
Definition str_of_Z (n : Z) : string := NilZero.string_of_int (Z.to_int n).

(** [c * n] for a one-character string and an integer: empty when [n <= 0]. *)
Definition repeat_char (c : ascii) (n : Z) : string :=
  string_of_list_ascii (List.repeat c (Z.to_nat n)).

End PyStr.

(* ================================================================== *)
(** ** The regular expressions of the script *)

Module Re.
Import PyStr.

(** A matcher tries the pattern at the start of the text and gives what the
    caller needs of the match (the replacement or the captured group) and
    the number of characters the match spans.  None of the patterns of the
    script matches the empty string. *)
Definition matcher := string -> option (string * nat).

(** [re.sub(pattern, repl, s)]. *)
Fixpoint sub_from (m : matcher) (skip : nat) (s : string) : string :=
  match s with
  | EmptyString => EmptyString
  | String c s' =>
      match skip with
      | S n => sub_from m n s'
      | O =>
          match m s with
          | Some (r, len) => r ++ sub_from m (pred len) s'
          | None => String c (sub_from m 0 s')
          end
      end
  end.

Definition sub (m : matcher) (s : string) : string := sub_from m 0 s.

(** [re.split(pattern, s)] for a pattern with one capturing group: the
    pieces between the matches, interleaved with the groups. *)
Fixpoint split_from (m : matcher) (skip : nat) (cur : string) (s : string)
  : list string :=
  match s with
  | EmptyString => [rev cur]
  | String c s' =>
      match skip with
      | S n => split_from m n cur s'
      | O =>
          match m s with
          | Some (g, len) => rev cur :: g :: split_from m (pred len) EmptyString s'
          | None => split_from m 0 (String c cur) s'
          end
      end
  end.

Definition split (m : matcher) (s : string) : list string :=
  split_from m 0 EmptyString s.

Definition not_char (d : ascii) (c : ascii) : bool := negb (Ascii.eqb c d).

Definition not_brace (c : ascii) : bool :=
  negb (Ascii.eqb c "{") && negb (Ascii.eqb c "}").

(** [\$([^$]+)\$] *)
Definition math_span : matcher := fun s =>
  match s with
  | String "$" s1 =>
      let (g, rest) := span (not_char "$") s1 in
      match g, rest with
      | String _ _, String _ _ => Some (g, 2 + length g)
      | _, _ => None
      end
  | _ => None
  end.

(** [`(?!`)([^`]+)`] *)
Definition code_span : matcher := fun s =>
  match s with
  | String "`" s1 =>
      if startswith s1 "`" then None
      else
        let (g, rest) := span (not_char "`") s1 in
        match g, rest with
        | String _ _, String _ _ => Some (g, 2 + length g)
        | _, _ => None
        end
  | _ => None
  end.

(** The lazy [(.*?)\*\*]: the shortest run of characters other than the
    newline that is followed by two stars. *)
Fixpoint lazy_until_stars (s : string) : option string :=
  match s with
  | EmptyString => None
  | String c s' =>
      if startswith s "**" then Some EmptyString
      else if Ascii.eqb c newline then None
      else option_map (String c) (lazy_until_stars s')
  end.

(** [\*\*(.*?)\*\*] *)
Definition bold_span : matcher := fun s =>
  if startswith s "**" then
    match lazy_until_stars (drop 2 s) with
    | Some g => Some (g, 4 + length g)
    | None => None
    end
  else None.

(** [{([^{}]+)}] at the start of the text: the group and what follows. *)
Definition braced (s : string) : option (string * string) :=
  match s with
  | String "{" s1 =>
      let (g, rest) := span not_brace s1 in
      match g, rest with
      | String _ _, String "}" rest' => Some (g, rest')
      | _, _ => None
      end
  | _ => None
  end.

(** [\^{([^{}]+)}] and [_{([^{}]+)}], with the replacement of the script:
    the mark followed by the group. *)
Definition script_braced (mark : ascii) : matcher := fun s =>
  match s with
  | String c s1 =>
      if Ascii.eqb c mark then
        match braced s1 with
        | Some (g, _) => Some (String mark g, 3 + length g)
        | None => None
        end
      else None
  | _ => None
  end.

(** [\^([a-zA-Z0-9])] and [_([a-zA-Z0-9])], same replacement. *)
Definition script_char (mark : ascii) : matcher := fun s =>
  match s with
  | String c (String a _) =>
      if Ascii.eqb c mark && is_alnum a
      then Some (String mark (String a EmptyString), 2)
      else None
  | _ => None
  end.

(** [\\frac{([^{}]+)}{([^{}]+)}], replaced by [group1/group2]. *)
Definition frac : matcher := fun s =>
  if startswith s "\frac" then
    match braced (drop 5 s) with
    | Some (a, r1) =>
        match braced r1 with
        | Some (b, _) => Some (a ++ "/" ++ b, 5 + (2 + length a) + (2 + length b))
        | None => None
        end
    | None => None
    end
  else None.

(** The tail shared by the three line patterns: [\s+] and then a group
    holding the rest of the line (any characters up to a newline).  [None]
    when no whitespace is there. *)
Definition spaces_then_rest (s : string) : option string :=
  match s with
  | String c _ =>
      if is_space c
      then Some (fst (span (not_char newline) (drop_while is_space s)))
      else None
  | EmptyString => None
  end.

(** The [ul_match] pattern: one of [-], [*], [+], then the tail; group 2. *)
Definition match_ul (s : string) : option string :=
  match s with
  | String c s1 =>
      if Ascii.eqb c "-" || Ascii.eqb c "*" || Ascii.eqb c "+"
      then spaces_then_rest s1
      else None
  | EmptyString => None
  end.

(** The [ol_match] pattern: [(\d+)], a dot, then the tail; groups 1 and 2. *)
Definition match_ol (s : string) : option (string * string) :=
  let (ds, rest) := span is_digit s in
  match ds, rest with
  | String _ _, String "." s1 =>
      match spaces_then_rest s1 with
      | Some g2 => Some (ds, g2)
      | None => None
      end
  | _, _ => None
  end.

(** The greedy [#{1,6}]: at most six leading hashes. *)
Fixpoint hashes (fuel : nat) (s : string) : string * string :=
  match fuel, s with
  | S n, String "#" s' => let (a, b) := hashes n s' in (String "#" a, b)
  | _, _ => (EmptyString, s)
  end.

(** The [header_match] pattern: [^(#{1,6})], then the tail; groups 1 and 2.
    Giving back hashes
    cannot help: the character after a shorter run is a hash, not a space. *)
Definition match_header (s : string) : option (string * string) :=
  let (hs, rest) := hashes 6 s in
  match hs with
  | String _ _ =>
      match spaces_then_rest rest with
      | Some g2 => Some (hs, g2)
      | None => None
      end
  | EmptyString => None
  end.

End Re.

(* ================================================================== *)
(** ** [latex_to_unicode] *)

Module Latex.
Import PyStr.

(** The [symbols] dictionary, in insertion order (the order in which the
    [for k, v in symbols.items()] loop visits it). *)
Definition symbols : list (string * string) :=
  [ ("\alpha", "a"); ("\beta", "b"); ("\gamma", "g"); ("\delta", "d");
    ("\epsilon", "e"); ("\zeta", "z"); ("\eta", "n"); ("\theta", "th");
    ("\iota", "i"); ("\kappa", "k"); ("\lambda", "l"); ("\mu", "m");
    ("\nu", "v"); ("\xi", "x"); ("\pi", "p"); ("\rho", "r");
    ("\sigma", "s"); ("\tau", "t"); ("\upsilon", "u"); ("\phi", "ph");
    ("\chi", "ch"); ("\psi", "ps"); ("\omega", "o");
    ("\Gamma", "G"); ("\Delta", "D"); ("\Theta", "Th"); ("\Lambda", "L");
    ("\Xi", "X"); ("\Pi", "P"); ("\Sigma", "S"); ("\Upsilon", "U");
    ("\Phi", "Ph"); ("\Psi", "Ps"); ("\Omega", "O");
    ("\infty", "inf"); ("\pm", "+/-"); ("\mp", "-/+"); ("\times", "x");
    ("\div", "/"); ("\leq", "<="); ("\geq", ">="); ("\neq", "!=");
    ("\approx", "~"); ("\equiv", "=="); ("\int", "int"); ("\sum", "sum");
    ("\prod", "prod"); ("\sqrt", "sqrt"); ("\partial", "d") ].

(** [for k, v in symbols.items(): tex = tex.replace(k, v)] *)
Definition replace_symbols (tex : string) : string :=
  fold_left (fun t kv => replace (fst kv) (snd kv) t) symbols tex.

Definition superscripts (tex : string) : string :=
  Re.sub (Re.script_char "^") (Re.sub (Re.script_braced "^") tex).

Definition subscripts (tex : string) : string :=
  Re.sub (Re.script_char "_") (Re.sub (Re.script_braced "_") tex).

Definition fractions (tex : string) : string := Re.sub Re.frac tex.

(** The body of the [except Exception] branch. *)
Definition fallback (tex : string) : string :=
  let tex := replace_symbols tex in
  let tex := superscripts tex in
  let tex := subscripts tex in
  let tex := fractions tex in
  tex.

(** [parse_latex] followed by [pretty] is SymPy's; [sympy tex] is [Some p]
    when the two calls return [p] and [None] when either raises an
    [Exception]. *)
Definition latex_to_unicode (sympy : string -> option string) (tex : string)
  : string :=
  match sympy tex with
  | Some p => p
  | None => fallback tex
  end.

End Latex.

(* ================================================================== *)
(** ** The FPDF object: cursor, pages and what is drawn

    FPDF is a library; the script drives it through the calls below.  The
    model keeps what the script can observe of it: the page counter, the
    cursor, the current font and colours, the link table, and a log of what was
    drawn on which page.  Line breaking and string widths depend on font
    metrics and are taken from the library as functions. *)

Module Fpdf.
Import PyStr.

Inductive Family := NoFamily | helvetica | courier.
Inductive Style := Regular | Bold | Italic | Underline.
Record Font := mkFont { family : Family; style : Style; size_pt : Z }.

Inductive Link := NoLink | Url (u : string) | Internal (id : nat).
Inductive Align := AlignL | AlignC | AlignR.

Definition Color := (Z * Z * Z)%type.

(** The calls of the script that return nothing. *)
Inductive Call :=
| set_font (fam : Family) (st : Style) (sz : Z)
| cell (w h : Q) (txt : string) (al : Align) (lk : Link)
| multi_cell (w h : Q) (txt : string)
| ln (h : Q)
| set_x (v : Q)
| set_y (v : Q)
| text (tx ty : Q) (txt : string)
| set_fill_color (c : Color)
| set_text_color (c : Color)
| rect (rx ry rw rh : Q)
| add_page
| set_link (id : nat) (target : Z).

(** One entry of the log: something drawn on a page. *)
Inductive Drawn :=
| DCell (pg : Z) (dx dy w h : Q) (f : Font) (c : Color) (txt : string)
        (al : Align) (lk : Link)
| DText (pg : Z) (dx dy : Q) (f : Font) (c : Color) (txt : string)
| DRect (pg : Z) (dx dy w h : Q) (c : Color).

(** Page geometry and font metrics of the library instance. *)
Record Lib := mkLib {
  page_w : Q; page_h : Q;
  l_margin : Q; t_margin : Q; r_margin : Q; b_margin : Q;
  (** the lines [multi_cell] breaks a text into, for a font and a width *)
  wrap : Font -> Q -> string -> list string;
  (** [get_string_width] *)
  string_width : Font -> string -> Q
}.

Definition page_break_trigger (L : Lib) : Q := (page_h L - b_margin L)%Q.
Definition right_edge (L : Lib) : Q := (page_w L - r_margin L)%Q.

Record PDF := mkPDF {
  page : Z;
  x : Q;
  y : Q;
  font : Font;
  text_color : Color;
  fill_color : Color;
  links : list Z;          (* target page of link 1, 2, ...; 0 when unbound *)
  out : list Drawn
}.

Definition black : Color := (0, 0, 0)%Z.

(** [FPDF()] *)
Definition new (L : Lib) : PDF :=
  {| page := 0; x := l_margin L; y := t_margin L;
     font := mkFont NoFamily Regular 12;
     text_color := black; fill_color := black; links := []; out := [] |}.

Definition page_no (s : PDF) : Z := page s.
Definition get_y (s : PDF) : Q := y s.
Definition get_string_width (L : Lib) (s : PDF) (txt : string) : Q :=
  string_width L (font s) txt.

Definition draw (d : Drawn) (s : PDF) : PDF :=
  {| page := page s; x := x s; y := y s; font := font s;
     text_color := text_color s; fill_color := fill_color s;
     links := links s; out := (out s ++ [d])%list |}.

Definition move (nx ny : Q) (s : PDF) : PDF :=
  {| page := page s; x := nx; y := ny; font := font s;
     text_color := text_color s; fill_color := fill_color s;
     links := links s; out := out s |}.

(** The [footer] method of the [PDF] subclass: [set_y(-15)], italic 8 pt,
    one centred cell [Page n].  The library restores the font afterwards and
    suppresses page breaks while the footer is drawn. *)
Definition footer (L : Lib) (s : PDF) : PDF :=
  draw (DCell (page s) (l_margin L) (page_h L - 15)%Q
              (right_edge L - l_margin L)%Q 10%Q
              (mkFont helvetica Italic 8) (text_color s)
              ("Page " ++ str_of_Z (page_no s)) AlignC NoLink) s.

(** [add_page]: close the current page with its footer, open the next one
    with the cursor at the top left margin. *)
Definition do_add_page (L : Lib) (s : PDF) : PDF :=
  let s := if (0 <? page s)%Z then footer L s else s in
  {| page := page s + 1; x := l_margin L; y := t_margin L; font := font s;
     text_color := text_color s; fill_color := fill_color s;
     links := links s; out := out s |}.

(** The automatic page break before a cell of height [h]: a new page when
    the cell would pass the trigger; the abscissa is kept. *)
Definition break_if_needed (L : Lib) (h : Q) (s : PDF) : PDF :=
  if Qle_bool (y s + h)%Q (page_break_trigger L) then s
  else let x0 := x s in
       let s := do_add_page L s in move x0 (y s) s.

(** A width of 0 extends the cell to the right margin. *)
Definition cell_width (L : Lib) (s : PDF) (w : Q) : Q :=
  if Qeq_bool w 0 then (right_edge L - x s)%Q else w.

Definition do_cell (L : Lib) (w h : Q) (txt : string) (al : Align) (lk : Link)
           (s : PDF) : PDF :=
  let s := break_if_needed L h s in
  let w := cell_width L s w in
  let s := draw (DCell (page s) (x s) (y s) w h (font s) (text_color s)
                       txt al lk) s in
  move (x s + w)%Q (y s) s.

(** One line of a [multi_cell]: a cell, then the cursor goes below it. *)
Definition do_line (L : Lib) (w h : Q) (s : PDF) (txt : string) : PDF :=
  let s := break_if_needed L h s in
  let s := draw (DCell (page s) (x s) (y s) w h (font s) (text_color s)
                       txt AlignL NoLink) s in
  move (x s) (y s + h)%Q s.

(** [multi_cell]: at least one line is output, also for an empty text; the
    abscissa returns to the left margin. *)
Definition do_multi_cell (L : Lib) (w h : Q) (txt : string) (s : PDF) : PDF :=
  let w := cell_width L s w in
  let lines := match wrap L (font s) w txt with
               | [] => [EmptyString]
               | ls => ls
               end in
  let s := fold_left (do_line L w h) lines s in
  move (l_margin L) (y s) s.

Definition with_font (f : Font) (s : PDF) : PDF :=
  {| page := page s; x := x s; y := y s; font := f;
     text_color := text_color s; fill_color := fill_color s;
     links := links s; out := out s |}.

Definition with_colors (tc fc : Color) (s : PDF) : PDF :=
  {| page := page s; x := x s; y := y s; font := font s;
     text_color := tc; fill_color := fc;
     links := links s; out := out s |}.

Definition with_links (ls : list Z) (s : PDF) : PDF :=
  {| page := page s; x := x s; y := y s; font := font s;
     text_color := text_color s; fill_color := fill_color s;
     links := ls; out := out s |}.

(** [l[i] = v] on the link table (links are numbered from 1). *)
Fixpoint bind (id : nat) (v : Z) (ls : list Z) : list Z :=
  match id, ls with
  | 1%nat, _ :: ls' => v :: ls'
  | S n, t :: ls' => t :: bind n v ls'
  | _, _ => ls
  end.

(** [add_link()]: a fresh handle, not bound to a page yet. *)
Definition add_link (s : PDF) : PDF * nat :=
  (with_links (links s ++ [0%Z])%list s, S (List.length (links s))).

Definition exec1 (L : Lib) (s : PDF) (c : Call) : PDF :=
  match c with
  | set_font fam st sz => with_font (mkFont fam st sz) s
  | cell w h txt al lk => do_cell L w h txt al lk s
  | multi_cell w h txt => do_multi_cell L w h txt s
  | ln h => move (l_margin L) (y s + h)%Q s
  | set_x v => move (if Qle_bool 0 v then v else (page_w L + v)%Q) (y s) s
  | set_y v => move (l_margin L) (if Qle_bool 0 v then v else (page_h L + v)%Q) s
  | text tx ty txt => draw (DText (page s) tx ty (font s) (text_color s) txt) s
  | set_fill_color c => with_colors (text_color s) c s
  | set_text_color c => with_colors c (fill_color s) s
  | rect rx ry rw rh => draw (DRect (page s) rx ry rw rh (fill_color s)) s
  | add_page => do_add_page L s
  | set_link id target => with_links (bind id target (links s)) s
  end.

(** A sequence of calls, in order. *)
Definition exec (L : Lib) (s : PDF) (cs : list Call) : PDF :=
  fold_left (exec1 L) cs s.

(** [output]: the document is closed, the last page gets its footer. *)
Definition output (L : Lib) (s : PDF) : PDF := footer L s.

End Fpdf.

(* ================================================================== *)
(** ** [process_inline] and [process_readme_line]

    Both functions only issue calls on the [pdf] they are given and never
    read it back, so each is the list of calls it issues (and, for
    [process_readme_line], the pair of flags it returns). *)

Module Markup.
Import PyStr Fpdf.

Fixpoint enumerate_from {A} (i : nat) (l : list A) : list (nat * A) :=
  match l with
  | [] => []
  | a :: l' => (i, a) :: enumerate_from (S i) l'
  end.

Definition enumerate {A} (l : list A) : list (nat * A) := enumerate_from 0 l.

Definition nonempty (s : string) : bool :=
  match s with EmptyString => false | _ => true end.

Section Inline.
Variable sympy : string -> option string.

(** The innermost loop, over [bold_parts]. *)
Definition bold_level (cpart : string) : list Call :=
  flat_map
    (fun '(b, bpart) =>
       (if Nat.odd b then set_font helvetica Bold 10
        else set_font helvetica Regular 10)
       :: (if nonempty bpart then [multi_cell 0 5 bpart] else []))
    (enumerate (Re.split Re.bold_span cpart)).

(** The loop over [code_parts]. *)
Definition code_level (mpart : string) : list Call :=
  flat_map
    (fun '(c, cpart) =>
       if Nat.odd c
       then [set_font courier Regular 9; multi_cell 0 5 cpart]
       else bold_level cpart)
    (enumerate (Re.split Re.code_span mpart)).

Definition process_inline (text : string) : list Call :=
  flat_map
    (fun '(m, mpart) =>
       if Nat.odd m
       then [set_font helvetica Italic 10;
             multi_cell 0 5 (Latex.latex_to_unicode sympy mpart)]
       else code_level mpart)
    (enumerate (Re.split Re.math_span text)).

(** [10 + indent * 2] *)
Definition indent_x (indent : nat) : Q :=
  inject_Z (10 + Z.of_nat indent * 2).

Definition process_readme_line (line : string)
           (in_code_block in_inline_code : bool)
  : list Call * (bool * bool) :=
  if startswith (strip line) "```" then ([], (negb in_code_block, false))
  else if in_code_block then
    ([set_font courier Regular 9; multi_cell 0 4 line],
     (in_code_block, in_inline_code))
  else
    let stripped_line := lstrip line in
    let indent := (length line - length stripped_line)%nat in
    match Re.match_ul stripped_line with
    | Some g2 =>
        ([set_font helvetica Regular 10; set_x (indent_x indent);
          cell 10 5 "*" AlignL NoLink]
           ++ process_inline g2 ++ [ln 5],
         (in_code_block, in_inline_code))%list
    | None =>
    match Re.match_ol stripped_line with
    | Some (g1, g2) =>
        ([set_font helvetica Regular 10; set_x (indent_x indent);
          cell 10 5 (g1 ++ ".") AlignL NoLink]
           ++ process_inline g2 ++ [ln 5],
         (in_code_block, in_inline_code))%list
    | None =>
    match Re.match_header stripped_line with
    | Some (g1, g2) =>
        let level := Z.of_nat (length g1) in
        let size := Z.max (16 - level * 2) 10 in
        ([set_font helvetica Bold size; set_x (indent_x indent);
          multi_cell 0 (inject_Z size / 2 + 4)%Q g2],
         (in_code_block, in_inline_code))
    | None =>
        ([set_x (indent_x indent)] ++ process_inline stripped_line ++ [ln 5],
         (in_code_block, in_inline_code))%list
    end end end.

(** The [for line in lines] loop of [generate_pdf], flags threaded. *)
Fixpoint process_lines (lines : list string)
         (in_code_block in_inline_code : bool) : list Call :=
  match lines with
  | [] => []
  | line :: rest =>
      let '(cs, (icb, iic)) :=
        process_readme_line line in_code_block in_inline_code in
      (cs ++ process_lines rest icb iic)%list
  end.
End Inline.

(** The styled runs of a line: one per [multi_cell] issued, named after the
    font selected when it is issued. *)
Inductive StyledRun :=
| PlainText (s : string)
| BoldText (s : string)
| CodeText (s : string)
| MathText (s : string).

Definition run_of (f : Font) (s : string) : StyledRun :=
  match family f, style f with
  | courier, _ => CodeText s
  | _, Italic => MathText s
  | _, Bold => BoldText s
  | _, _ => PlainText s
  end.

Fixpoint runs_from (f : Font) (cs : list Call) : list StyledRun :=
  match cs with
  | [] => []
  | set_font fam st sz :: cs' => runs_from (mkFont fam st sz) cs'
  | multi_cell _ _ txt :: cs' => run_of f txt :: runs_from f cs'
  | _ :: cs' => runs_from f cs'
  end.

Definition runs (cs : list Call) : list StyledRun :=
  runs_from (mkFont NoFamily Regular 12) cs.

End Markup.

(* ================================================================== *)
(** ** [fetch_readme], [hex_to_rgb] and [generate_pdf] *)

Module Portfolio.
Import PyStr Fpdf Markup.

(** *** Exceptions *)

Inductive Exn :=
| RequestException      (* raised by [requests.get]: no response at all *)
| ValueError
| ZeroDivisionError
| IndexError.

Inductive result (A : Type) :=
| Ok (a : A)
| Raise (e : Exn).
Arguments Ok {A} a.
Arguments Raise {A} e.

Definition bind {A B} (r : result A) (k : A -> result B) : result B :=
  match r with
  | Ok a => k a
  | Raise e => Raise e
  end.

Notation "x <- r ;; k" := (bind r (fun x => k))
  (at level 61, r at next level, right associativity).
Notation "' p <- r ;; k" := (bind r (fun x => let 'p := x in k))
  (at level 61, p pattern, r at next level, right associativity).

Definition or_raise {A} (e : Exn) (o : option A) : result A :=
  match o with
  | Some a => Ok a
  | None => Raise e
  end.

(** *** Input data (spec section 6) *)

Record Repo := mkRepo {
  name : string;
  description : option string;    (* [None] is JSON null *)
  html_url : string;
  stargazers_count : Z
}.

Record Day := mkDay { date : string; contributionCount : Z; color : string }.
Record Week := mkWeek { contributionDays : list Day }.
Record Contrib := mkContrib { totalContributions : Z; weeks : list Week }.

(** *** The network *)

(** What [requests.get] does: it returns a response, or raises when no
    response could be had (connection refused, DNS failure, timeout). *)
Inductive Http :=
| Response (status_code : Z) (body : string)
| NoResponse.

Definition Network := string -> list (string * string) -> Http.

Definition readme_url (username repo_name : string) : string :=
  "https://api.github.com/repos/" ++ username ++ "/" ++ repo_name ++ "/readme".

Definition fetch_readme (net : Network) (username repo_name : string)
           (token : option string) : result (option string) :=
  let headers := [("Accept", "application/vnd.github.v3.raw")] in
  let headers :=
    match token with
    | Some t => if nonempty t
                then app headers [("Authorization", "token " ++ t)]
                else headers
    | None => headers
    end in
  let url := readme_url username repo_name in
  match net url headers with
  | NoResponse => Raise RequestException
  | Response status_code body =>
      if (status_code =? 200)%Z then Ok (Some body) else Ok None
  end.

(** *** [hex_to_rgb] *)

Definition hex_digit (c : ascii) : option Z :=
  let n := Z.of_N (N_of_ascii c) in
  if ((48 <=? n) && (n <=? 57))%Z then Some (n - 48)%Z
  else if ((97 <=? n) && (n <=? 102))%Z then Some (n - 87)%Z
  else if ((65 <=? n) && (n <=? 70))%Z then Some (n - 55)%Z
  else None.

(** [int(s, 16)] for a slice of at most two characters: blanks around the
    number and a sign are accepted, anything else is a [ValueError]. *)
Definition int16 (s : string) : result Z :=
  match strip s with
  | String a EmptyString => or_raise ValueError (hex_digit a)
  | String a (String b EmptyString) =>
      match hex_digit b with
      | None => Raise ValueError
      | Some lo =>
          if Ascii.eqb a "+" then Ok lo
          else if Ascii.eqb a "-" then Ok (- lo)%Z
          else match hex_digit a with
               | Some hi => Ok (16 * hi + lo)%Z
               | None => Raise ValueError
               end
      end
  | _ => Raise ValueError
  end.

Definition hex_to_rgb (hex_color : string) : result Color :=
  let hex_color := drop_while (Ascii.eqb "#") hex_color in
  r <- int16 (substring 0 2 hex_color) ;;
  g <- int16 (substring 2 2 hex_color) ;;
  b <- int16 (substring 4 2 hex_color) ;;
  Ok (r, g, b).

(** *** Section order (lines 188-192) *)

Definition mem (s : string) (l : list string) : bool :=
  existsb (String.eqb s) l.

(** [l.index(s)]; every caller below passes an [s] that is in [l] (the
    position past the end stands for the [ValueError] of a missing one). *)
Fixpoint index (s : string) (l : list string) : Z :=
  match l with
  | [] => 0
  | t :: l' => if String.eqb s t then 0 else (1 + index s l')%Z
  end.

(** [list.sort(key=...)] is stable: elements with equal keys keep their
    order, also with [reverse=True].  [before a b] tells whether key [a] may
    stand before key [b]. *)
Fixpoint insert {A} (before : Z -> Z -> bool) (key : A -> Z) (a : A)
         (l : list A) : list A :=
  match l with
  | [] => [a]
  | b :: l' =>
      if before (key a) (key b) then a :: l
      else b :: insert before key a l'
  end.

Definition sort {A} (before : Z -> Z -> bool) (key : A -> Z) (l : list A)
  : list A :=
  fold_right (insert before key) [] l.

Definition sort_by {A} (key : A -> Z) (reverse : bool) (l : list A) : list A :=
  sort (if reverse then Z.geb else Z.leb) key l.

Definition sorted_repos (repos : list Repo) (prioritize exclude : list string)
  : list Repo :=
  let prio_repos := filter (fun r => mem (name r) prioritize) repos in
  let prio_repos := sort_by (fun r => index (name r) prioritize) false prio_repos in
  let other_repos :=
    filter (fun r => negb (mem (name r) prioritize)
                     && negb (mem (name r) exclude)) repos in
  let other_repos := sort_by stargazers_count true other_repos in
  (prio_repos ++ other_repos)%list.

(** *** [generate_pdf] *)

(** [int(q)]: truncation toward zero. *)
Definition int_of_Q (q : Q) : Z := Z.quot (Qnum q) (Zpos (Qden q)).

(** What [generate_pdf] leaves behind: the document it writes, and the
    values of its local variables a reader of the document can check it
    against. *)
Record Doc := mkDoc {
  toc_entries : list string;
  rel_pages : list Z;
  content_pdf : PDF;              (* the measuring pass, thrown away *)
  assumed_trace : list Z;         (* values of [assumed_toc_pages], per iteration *)
  abs_pages : list Z;             (* the numbers printed in the table *)
  toc_links : list nat;           (* [links] *)
  final_pdf : PDF
}.

Section Generate.
Variable L : Lib.
Variable sympy : string -> option string.
(** [datetime.date.fromisoformat(d).strftime("%b")], [None] for the
    [ValueError] of a malformed date. *)
Variable month_abbr : string -> option string.
Variable net : Network.
Variable username : string.

Definition square_size : Q := 3.
Definition spacing : Q := 0.5.
Definition start_x : Q := 20.

Definition of_nat (n : nat) : Q := inject_Z (Z.of_nat n).

Definition opt_str_eqb (a : option string) (b : string) : bool :=
  match a with
  | Some a' => String.eqb a' b
  | None => false
  end.

(** The month labels (lines 217-229, 339-351). *)
Fixpoint month_labels (calendar_y : Q) (current_month : option string)
         (ws : list (nat * Week)) : result (list Call) :=
  match ws with
  | [] => Ok []
  | (w, week) :: rest =>
      let month_x := (start_x + of_nat w * (square_size + spacing))%Q in
      match contributionDays week with
      | [] => month_labels calendar_y current_month rest
      | first_day :: _ =>
          month <- or_raise ValueError (month_abbr (date first_day)) ;;
          if opt_str_eqb current_month month
          then month_labels calendar_y current_month rest
          else
            cs <- month_labels calendar_y (Some month) rest ;;
            Ok (set_font helvetica Regular 8
                :: text month_x (calendar_y - 2)%Q month :: cs)
      end
  end.

Definition days : list string := [""; "Mon"; ""; "Wed"; ""; "Fri"; ""].

(** The day labels (lines 231-235, 353-357). *)
Definition day_labels (calendar_y : Q) : list Call :=
  set_font helvetica Regular 8
  :: map (fun '(d, label) =>
            text 5 (calendar_y + of_nat d * (square_size + spacing)
                    + square_size / 2)%Q label)
         (enumerate days).

(** One week of squares: the inner loop of lines 237-243, 359-365. *)
Fixpoint week_squares (calendar_y : Q) (w : nat) (ds : list (nat * Day))
  : result (list Call) :=
  match ds with
  | [] => Ok []
  | (d, day) :: rest =>
      let sx := (start_x + of_nat w * (square_size + spacing))%Q in
      let sy := (calendar_y + of_nat d * (square_size + spacing))%Q in
      c <- hex_to_rgb (color day) ;;
      cs <- week_squares calendar_y w rest ;;
      Ok (set_fill_color c :: rect sx sy square_size square_size :: cs)
  end.

(** The outer loop: one column of squares per week that is passed in. *)
Fixpoint week_columns (calendar_y : Q) (ws : list (nat * Week))
  : result (list (list Call)) :=
  match ws with
  | [] => Ok []
  | (w, week) :: rest =>
      col <- week_squares calendar_y w (enumerate (contributionDays week)) ;;
      cols <- week_columns calendar_y rest ;;
      Ok (col :: cols)
  end.

Definition calendar_heading : list Call :=
  [set_font helvetica Bold 12;
   cell 0 10 "Contribution Calendar" AlignC NoLink;
   ln 15].

(** Lines 216-245 and 339-367, for the week list the pass has computed. *)
Definition calendar_grid (pdf : PDF) (weeks : list Week) : result PDF :=
  let calendar_y := get_y pdf in
  labels <- month_labels calendar_y None (enumerate weeks) ;;
  let pdf := exec L pdf labels in
  let pdf := exec L pdf (day_labels calendar_y) in
  cols <- week_columns calendar_y (enumerate weeks) ;;
  let pdf := exec L pdf (List.concat cols) in
  Ok (exec L pdf
        [set_y (calendar_y + 7 * (square_size + spacing) + 10)%Q; ln 10]).

(** [repo["description"] or "No description"] *)
Definition desc_of (repo : Repo) : string :=
  match description repo with
  | Some d => if nonempty d then d else "No description"
  | None => "No description"
  end.

(** Lines 249-260 and 373-384. *)
Definition repo_head (repo : Repo) : list Call :=
  [set_font helvetica Bold 14;
   cell 0 10 (name repo) AlignL NoLink;
   ln 10;
   set_font helvetica Regular 12;
   multi_cell 0 10 (desc_of repo);
   set_font helvetica Underline 12;
   set_text_color (0, 0, 255)%Z;
   cell 0 10 (name repo) AlignL (Url (html_url repo));
   ln 10;
   set_text_color (0, 0, 0)%Z;
   set_font helvetica Regular 12].

(** The body of [if readme:] (lines 262-270, 386-394); an empty string is
    false. *)
Definition readme_calls (readme : option string) : list Call :=
  match readme with
  | Some r =>
      if nonempty r then
        ([set_font helvetica Bold 12;
          cell 0 10 "README:" AlignL NoLink;
          ln 10]
           ++ process_lines sympy (split newline r) false false)%list
      else []
  | None => []
  end.

(** One repository section, after its first statement. *)
Definition repo_section (pdf : PDF) (repo : Repo) : result PDF :=
  let pdf := exec L pdf (repo_head repo) in
  readme <- fetch_readme net username (name repo) None ;;
  let pdf := exec L pdf (readme_calls readme) in
  Ok (exec L pdf [ln 10]).

(** **** The measuring pass (lines 201-271) *)

Fixpoint content_repos (pdf : PDF) (rel_pages : list Z) (rs : list Repo)
  : result (PDF * list Z) :=
  match rs with
  | [] => Ok (pdf, rel_pages)
  | repo :: rs' =>
      let rel_pages := (rel_pages ++ [page_no pdf])%list in
      pdf <- repo_section pdf repo ;;
      content_repos pdf rel_pages rs'
  end.

Definition content_calendar (pdf : PDF) (rel_pages : list Z)
           (contrib : option Contrib) : result (PDF * list Z) :=
  match contrib with
  | Some c =>
      let rel_pages := (rel_pages ++ [page_no pdf])%list in
      let pdf := exec L pdf calendar_heading in
      let weeks := skipn 1 (weeks c) in
      pdf <- calendar_grid pdf weeks ;;
      Ok (pdf, rel_pages)
  | None => Ok (pdf, rel_pages)
  end.

Definition content_pass (contrib : option Contrib) (sorted : list Repo)
  : result (PDF * list Z) :=
  let content_pdf := exec L (new L) [add_page] in
  '(pdf, rel_pages) <- content_calendar content_pdf [] contrib ;;
  content_repos pdf rel_pages sorted.

(** **** The table of contents (lines 279-292 and 306-322) *)

Definition toc_heading : list Call :=
  [add_page;
   set_font helvetica Bold 12;
   cell 0 10 "Table of Contents" AlignC NoLink;
   ln 10;
   set_font helvetica Regular 12].

(** One row; [lk] is the link of the entry cell (none in the trial
    documents of the loop). *)
Definition toc_row (abs_pages : list Z) (pdf : PDF) (i : nat)
           (entry : string) (lk : Link) : result PDF :=
  let w := (get_string_width L pdf entry + 6)%Q in
  let pdf := exec L pdf [cell w 5 entry AlignL lk] in
  let dot_w := (170 - w)%Q in
  let dot := get_string_width L pdf "." in
  if Qeq_bool dot 0 then Raise ZeroDivisionError
  else
    let dots := repeat_char "." (int_of_Q (dot_w / dot) - 1) in
    let pdf := exec L pdf [cell dot_w 5 dots AlignL NoLink] in
    p <- or_raise IndexError (nth_error abs_pages i) ;;
    Ok (exec L pdf [cell 10 5 (str_of_Z p) AlignR NoLink; ln 5]).

Fixpoint toc_rows (abs_pages : list Z) (pdf : PDF)
         (es : list (nat * string)) : result PDF :=
  match es with
  | [] => Ok pdf
  | (i, entry) :: rest =>
      pdf <- toc_row abs_pages pdf i entry NoLink ;;
      toc_rows abs_pages pdf rest
  end.

(** The trial document of one loop iteration (lines 279-292). *)
Definition toc_trial (entries : list string) (abs_pages : list Z)
  : result PDF :=
  toc_rows abs_pages (exec L (new L) toc_heading) (enumerate entries).

(** [abs_pages] of line 277. *)
Definition abs_pages_for (rel_pages : list Z) (assumed_toc_pages : Z)
  : list Z :=
  let content_start := (1 + assumed_toc_pages)%Z in
  map (fun rel => (rel + content_start - 1)%Z) rel_pages.

(** The [while True] loop (lines 274-297).  [fuel] bounds the number of
    iterations the model follows; [None] means the bound was reached.
    The result carries the values [assumed_toc_pages] went through, the
    last one being the one the loop leaves with. *)
Fixpoint toc_loop (fuel : nat) (entries : list string) (rel_pages : list Z)
         (assumed_toc_pages : Z) (seen : list Z)
  : option (result (list Z * list Z)) :=
  match fuel with
  | O => None
  | S fuel' =>
      let abs_pages := abs_pages_for rel_pages assumed_toc_pages in
      let seen := (seen ++ [assumed_toc_pages])%list in
      match toc_trial entries abs_pages with
      | Raise e => Some (Raise e)
      | Ok toc_pdf =>
          let actual_toc_pages := page_no toc_pdf in
          if (actual_toc_pages =? assumed_toc_pages)%Z
          then Some (Ok (seen, abs_pages))
          else toc_loop fuel' entries rel_pages actual_toc_pages seen
      end
  end.

(** **** The final pass (lines 299-397) *)

Definition title_page : list Call :=
  [add_page;
   set_font helvetica Bold 16;
   cell 0 10 (username ++ "'s GitHub Portfolio") AlignC NoLink].

Fixpoint final_toc_rows (abs_pages : list Z) (pdf : PDF) (links : list nat)
         (es : list (nat * string)) : result (PDF * list nat) :=
  match es with
  | [] => Ok (pdf, links)
  | (i, entry) :: rest =>
      let '(pdf, link) := add_link pdf in
      let links := (links ++ [link])%list in
      pdf <- toc_row abs_pages pdf i entry (Internal link) ;;
      final_toc_rows abs_pages pdf links rest
  end.

Definition final_calendar (pdf : PDF) (links : list nat) (idx : nat)
           (contrib : option Contrib) : result (PDF * nat) :=
  match contrib with
  | Some c =>
      let section_page := page_no pdf in
      link <- or_raise IndexError (nth_error links idx) ;;
      let pdf := exec L pdf [set_link link section_page] in
      let idx := (idx + 1)%nat in
      let pdf := exec L pdf calendar_heading in
      let weeks := skipn 1 (weeks c) in
      pdf <- calendar_grid pdf weeks ;;
      Ok (pdf, idx)
  | None => Ok (pdf, idx)
  end.

Fixpoint final_repos (pdf : PDF) (links : list nat) (idx : nat)
         (rs : list Repo) : result PDF :=
  match rs with
  | [] => Ok pdf
  | repo :: rs' =>
      let section_page := page_no pdf in
      link <- or_raise IndexError (nth_error links idx) ;;
      let pdf := exec L pdf [set_link link section_page] in
      let idx := (idx + 1)%nat in
      pdf <- repo_section pdf repo ;;
      final_repos pdf links idx rs'
  end.

Definition final_pass (entries : list string) (abs_pages : list Z)
           (contrib : option Contrib) (sorted : list Repo)
  : result (PDF * list nat) :=
  let final_pdf := exec L (new L) title_page in
  let final_pdf := exec L final_pdf toc_heading in
  '(final_pdf, links) <-
    final_toc_rows abs_pages final_pdf [] (enumerate entries) ;;
  let final_pdf := exec L final_pdf [add_page] in
  '(final_pdf, idx) <- final_calendar final_pdf links 0 contrib ;;
  final_pdf <- final_repos final_pdf links idx sorted ;;
  Ok (output L final_pdf, links).

Definition entries_of (contrib : option Contrib) (sorted : list Repo)
  : list string :=
  ((match contrib with Some _ => ["Contribution Calendar"] | None => [] end)
     ++ map name sorted)%list.

Definition generate_pdf (fuel : nat) (repos : list Repo)
           (contrib : option Contrib) (prioritize exclude : list string)
  : option (result Doc) :=
  let sorted := sorted_repos repos prioritize exclude in
  let entries := entries_of contrib sorted in
  match content_pass contrib sorted with
  | Raise e => Some (Raise e)
  | Ok (content, rel) =>
      match toc_loop fuel entries rel 1 [] with
      | None => None
      | Some (Raise e) => Some (Raise e)
      | Some (Ok (seen, abs)) =>
          match final_pass entries abs contrib sorted with
          | Raise e => Some (Raise e)
          | Ok (final, links) =>
              Some (Ok (mkDoc entries rel content seen abs links final))
          end
      end
  end.

End Generate.

End Portfolio.

(* ================================================================== *)
(** ** [fetch_repos] *)

Module Api.
Import PyStr Markup Portfolio.

(** What can end [fetch_repos] early: [requests.get] got no response,
    [raise_for_status] met a 4xx or 5xx status, [resp.json()] could not decode
    the body. *)
Inductive ApiExn := ConnectionError | HTTPError | JSONDecodeError.

Inductive outcome (A : Type) :=
| Returned (a : A)
| Raised (e : ApiExn).
Arguments Returned {A} a.
Arguments Raised {A} e.

(** What the loop reads of a response: the status, the decoded body ([None]
    when [resp.json()] raises) and [resp.links.get("next", {}).get("url")]. *)
Record ApiResponse := mkApiResponse {
  resp_status : Z;
  resp_json : option (list Repo);
  resp_next : option string
}.

Inductive ApiAnswer :=
| Answer (r : ApiResponse)
| NoAnswer.

Definition ApiNetwork := string -> list (string * string) -> ApiAnswer.

Definition repos_url (username : string) : string :=
  "https://api.github.com/users/" ++ username ++ "/repos?type=public&per_page=100".

(** [headers], empty unless a token is given. *)
Definition auth_headers (token : option string) : list (string * string) :=
  match token with
  | Some t => if nonempty t then [("Authorization", "token " ++ t)] else []
  | None => []
  end.

(** The statuses [raise_for_status] raises on. *)
Definition is_error_status (st : Z) : bool := ((400 <=? st) && (st <? 600))%Z.

(** The [while url:] loop (lines 24-28); [None] and the empty string are
    false.  [fuel] bounds the number of requests the model follows. *)
Fixpoint fetch_loop (net : ApiNetwork) (headers : list (string * string))
         (fuel : nat) (url : option string) (repos : list Repo)
  : option (outcome (list Repo)) :=
  match url with
  | None => Some (Returned repos)
  | Some u =>
      if nonempty u then
        match fuel with
        | O => None
        | S fuel' =>
            match net u headers with
            | NoAnswer => Some (Raised ConnectionError)
            | Answer resp =>
                if is_error_status (resp_status resp)
                then Some (Raised HTTPError)
                else
                  match resp_json resp with
                  | None => Some (Raised JSONDecodeError)
                  | Some page =>
                      fetch_loop net headers fuel' (resp_next resp)
                                 (repos ++ page)%list
                  end
            end
        end
      else Some (Returned repos)
  end.

Definition fetch_repos (net : ApiNetwork) (fuel : nat) (username : string)
           (token : option string) : option (outcome (list Repo)) :=
  fetch_loop net (auth_headers token) fuel (Some (repos_url username)) [].

End Api.

(* ================================================================== *)
(** ** [generate_html] and [generate_md]

    Both write a text file piece by piece.  The model keeps the pieces written
    and, when a readme fetch raises inside the [with open(...)] block, the
    exception that ended the run: the file then holds what was written so
    far. *)

Module Pages.
Import PyStr Markup Portfolio.

Definition nl : string := String newline EmptyString.
Definition dq : string := String (ascii_of_nat 34) EmptyString.

Definition File := (list string * option Exn)%type.

(** One day of the HTML grid (lines 410-412). *)
Definition html_day (day : Day) : string :=
  let title := date day ++ ": " ++ str_of_Z (contributionCount day)
               ++ " contributions" in
  "<div style=" ++ dq ++ "background-color: " ++ color day ++ "; " ++ dq
  ++ " title=" ++ dq ++ title ++ dq ++ "></div>" ++ nl.

(** Lines 403-413. *)
Definition html_calendar (contrib : option Contrib) : list string :=
  match contrib with
  | Some c =>
      let weeks := weeks c in
      let num_weeks := Z.of_nat (List.length weeks) in
      app ["<h2>Contribution Calendar</h2>" ++ nl;
           "<div style=" ++ dq
           ++ "display: grid; grid-template-columns: repeat("
           ++ str_of_Z num_weeks ++ ", 10px); grid-auto-rows: 10px; gap: 2px;"
           ++ dq ++ ">" ++ nl]
          (app (flat_map (fun week => map html_day (contributionDays week)) weeks)
               ["</div>" ++ nl])
  | None => []
  end.

Definition html_repo_head (repo : Repo) : list string :=
  ["<h2>" ++ name repo ++ "</h2>" ++ nl;
   "<p>" ++ desc_of repo ++ "</p>" ++ nl;
   "<a href=" ++ dq ++ html_url repo ++ dq ++ ">Link</a>" ++ nl].

Definition html_readme (readme : option string) : list string :=
  match readme with
  | Some r =>
      if nonempty r
      then ["<h3>README</h3>" ++ nl; "<pre>" ++ r ++ "</pre>" ++ nl]
      else []
  | None => []
  end.

(** The [for repo in sorted_repos] loop of [generate_html]. *)
Fixpoint html_repos (net : Network) (username : string) (rs : list Repo)
  : File :=
  match rs with
  | [] => ([], None)
  | repo :: rs' =>
      match fetch_readme net username (name repo) None with
      | Raise e => (html_repo_head repo, Some e)
      | Ok readme =>
          let '(ws, e) := html_repos net username rs' in
          (app (html_repo_head repo) (app (html_readme readme) ws), e)
      end
  end.

Definition generate_html (net : Network) (username : string)
           (repos : list Repo) (contrib : option Contrib)
           (prioritize exclude : list string) : File :=
  let head :=
    app ["<html><head><title>" ++ username
         ++ "'s GitHub Portfolio</title></head><body>" ++ nl;
         "<h1>" ++ username ++ "'s GitHub Portfolio</h1>" ++ nl]
        (html_calendar contrib) in
  let sorted := sorted_repos repos prioritize exclude in
  let '(ws, e) := html_repos net username sorted in
  match e with
  | Some _ => (app head ws, e)
  | None => (app head (app ws ["</body></html>"]), None)
  end.






End Pages.

(* ================================================================== *)
(** ** The command line (lines 455-482) *)

Module Main.
Import PyStr.

Inductive Format := fmt_pdf | fmt_html | fmt_md.

Definition extension (f : Format) : string :=
  match f with
  | fmt_pdf => ".pdf"
  | fmt_html => ".html"
  | fmt_md => ".md"
  end.

(** [s.endswith(suffix)] *)
Definition endswith (s suffix : string) : bool := prefix (rev suffix) (rev s).

(** [if not args.output.endswith(ext): args.output += ext] *)
Definition output_path (f : Format) (output : string) : string :=
  if endswith output (extension f) then output else output ++ extension f.

End Main.

(* ================================================================== *)
(** ** A concrete library instance and sample inputs

    Portrait A4 in millimetres with the default margins of FPDF, and a font
    whose glyphs are all 2 mm wide: lines break after a fixed number of
    characters. *)

Module Sample.
Import PyStr Fpdf Portfolio.

Fixpoint chunks (fuel n : nat) (s : string) : list string :=
  match fuel with
  | O => []
  | S fuel' =>
      match s with
      | EmptyString => []
      | _ => substring 0 n s :: chunks fuel' n (drop n s)
      end
  end.

Definition a4 : Lib :=
  {| page_w := 210; page_h := 297;
     l_margin := 10; t_margin := 10; r_margin := 10; b_margin := 20;
     wrap := fun _ w s =>
               chunks (S (String.length s))
                      (Nat.max 1 (Z.to_nat (int_of_Q (w / 2)%Q))) s;
     string_width := fun _ s => (2 * inject_Z (Z.of_nat (String.length s)))%Q |}.

(** A parser that rejects everything: every snippet takes the fallback. *)
Definition no_sympy : string -> option string := fun _ => None.

Definition jan : string -> option string := fun _ => Some "Jan".

Definition repo (n : string) (stars : Z) : Repo :=
  mkRepo n None ("https://github.com/u/" ++ n) stars.

(** No repository has a readme. *)
Definition net_404 : Network := fun _ _ => Response 404 "Not Found".

(** The connection is down. *)
Definition net_down : Network := fun _ _ => NoResponse.

(** Every readme request is answered 200 with an empty body. *)
Definition net_empty : Network := fun _ _ => Response 200 "".

Fixpoint readme_of_lines (n : nat) : string :=
  match n with
  | O => EmptyString
  | S k => "line" ++ String newline (readme_of_lines k)
  end.

(** Only repository [B] of user [u] has a readme, 60 lines long. *)
Definition net_B : Network := fun url _ =>
  if String.eqb url (readme_url "u" "B")
  then Response 200 (readme_of_lines 60)
  else Response 404 "Not Found".

Definition day (d : string) : Day := mkDay d 1 "#ebedf0".
Definition week_of (d : string) : Week := mkWeek [day d; day d].

Fixpoint n_weeks (n : nat) : list Week :=
  match n with
  | O => []
  | S k => week_of "2024-01-01" :: n_weeks k
  end.

(** The repositories of user [u] come in two pages. *)
Definition api_two_pages : Api.ApiNetwork := fun url _ =>
  if String.eqb url (Api.repos_url "u")
  then Api.Answer (Api.mkApiResponse 200 (Some [repo "A" 5; repo "B" 3])
                                     (Some "https://api.github.com/page2"))
  else if String.eqb url "https://api.github.com/page2"
       then Api.Answer (Api.mkApiResponse 200 (Some [repo "C" 1]) None)
       else Api.Answer (Api.mkApiResponse 404 None None).

End Sample.

(* ================================================================== *)
(** ** Notions used in the statements *)

Module Notions.
Import PyStr Fpdf Markup Portfolio.

(** The headers [fetch_readme] sends when no token is given. *)
Definition raw_headers : list (string * string) :=
  [("Accept", "application/vnd.github.v3.raw")].

(** The exceptions a computation may raise all satisfy [P]. *)
Definition raises_only {A} (P : Exn -> Prop) (r : result A) : Prop :=
  match r with
  | Ok _ => True
  | Raise e => P e
  end.

Definition not_request (e : Exn) : Prop := e <> RequestException.

(** A run of [n] hashes. *)
Fixpoint hash_run (n : nat) : string :=
  match n with
  | O => EmptyString
  | S k => String "#" (hash_run k)
  end.

(** [shifted k s1 s2]: the two documents stand at the same place of pages
    that are [k] apart, with the same font selected. *)
Definition shifted (k : Z) (s1 s2 : PDF) : Prop :=
  page s2 = (page s1 + k)%Z /\ x s2 = x s1 /\ y s2 = y s1 /\ font s2 = font s1.

(** Two runs end alike: both return, in related states, or both raise the
    same exception. *)
Definition same_result {A B} (R : A -> B -> Prop) (r1 : result A) (r2 : result B)
  : Prop :=
  match r1, r2 with
  | Ok a, Ok b => R a b
  | Raise e1, Raise e2 => e1 = e2
  | _, _ => False
  end.

Definition same_length (ab1 ab2 : list Z) : Prop :=
  forall i, nth_error ab1 i = None <-> nth_error ab2 i = None.

Fixpoint nondecreasing (l : list Z) : Prop :=
  match l with
  | a :: (b :: _) as t => (a <= b)%Z /\ nondecreasing t
  | _ => True
  end.

(** The heading of the table and one row fit on a page. *)
Definition first_row_fits (L : Lib) : Prop :=
  (t_margin L + 10 + 5 <= page_break_trigger L)%Q.

(** The squares found in a log, by their top left corner. *)
Fixpoint rects (ds : list Drawn) : list (Q * Q) :=
  match ds with
  | [] => []
  | DRect _ dx dy _ _ _ :: ds' => (dx, dy) :: rects ds'
  | _ :: ds' => rects ds'
  end.

(** Abscissa of week column [j]. *)
Definition col_x (j : nat) : Q :=
  (start_x + of_nat j * (square_size + spacing))%Q.

(** The corners of the squares of the weeks [ws], one column per week: the
    days of a week go down the column. *)
Fixpoint squares_at (y0 : Q) (ws : list (nat * Week)) : list (Q * Q) :=
  match ws with
  | [] => []
  | (j, week) :: rest =>
      (map (fun '(d, _) => (col_x j, (y0 + of_nat d * (square_size + spacing))%Q))
           (enumerate (contributionDays week))
         ++ squares_at y0 rest)%list
  end.

Definition rect_of_call (c : Call) : list (Q * Q) :=
  match c with
  | rect rx ry _ _ => [(rx, ry)]
  | _ => []
  end.

(** [k] occurs in [s] as a substring. *)
Fixpoint occurs (k s : string) : bool :=
  prefix k s
  || match s with
     | EmptyString => false
     | String _ s' => occurs k s'
     end.

(** No key of the symbol table occurs in [s]. *)
Definition no_key (s : string) : bool :=
  forallb (fun kv => negb (occurs (fst kv) s)) Latex.symbols.

Fixpoint has_char (c : ascii) (s : string) : bool :=
  match s with
  | EmptyString => false
  | String d s' => Ascii.eqb d c || has_char c s'
  end.

(** The braces of [s] are all opening or all closing ones. *)
Definition one_kind_of_brace (s : string) : Prop :=
  has_char "}" s = false \/ has_char "{" s = false.

Definition brace_free (s : string) : bool :=
  negb (has_char "{" s) && negb (has_char "}" s).

(** Bracket matching, one character at a time: the state counts the closing
    braces met with nothing open, and the opening braces still open. *)
Definition brace_step (st : nat * nat) (c : ascii) : nat * nat :=
  if Ascii.eqb c "{" then (fst st, S (snd st))
  else if Ascii.eqb c "}" then
         match snd st with
         | O => (S (fst st), O)
         | S b => (fst st, b)
         end
       else st.

Fixpoint brace_scan (st : nat * nat) (s : string) : nat * nat :=
  match s with
  | EmptyString => st
  | String c s' => brace_scan (brace_step st c) s'
  end.

(** The unmatched braces of a snippet: how many closing ones, how many
    opening ones. *)
Definition unmatched_braces (s : string) : nat * nat := brace_scan (0, 0)%nat s.

(** The first [n] characters. *)
Fixpoint take (n : nat) (s : string) : string :=
  match n, s with
  | S n', String c s' => String c (take n' s')
  | _, _ => EmptyString
  end.

(** [s.replace(k, v)] seen as a substitution of the pattern [k]. *)
Definition literal (k v : string) : Re.matcher := fun s =>
  if prefix k s then Some (v, length k) else None.

(** A matcher whose replacement has the braces of the text it replaces, as
    far as matching goes. *)
Definition brace_neutral (m : Re.matcher) : Prop :=
  forall s r len,
    m s = Some (r, len) ->
    (1 <= len <= length s)%nat
    /\ forall st, brace_scan st r = brace_scan st (take len s).

(** A matcher that puts back the text it matched. *)
Definition puts_back (m : Re.matcher) : Prop :=
  forall s r len,
    m s = Some (r, len) ->
    (1 <= len <= length s)%nat /\ r = take len s.

(** Same place on pages [k] apart, whatever the fonts. *)
Definition shifted_nf (k : Z) (s1 s2 : PDF) : Prop :=
  page s2 = (page s1 + k)%Z /\ x s2 = x s1 /\ y s2 = y s1.

(** The title line fits on the title page. *)
Definition title_fits (L : Lib) : Prop :=
  (t_margin L + 10 <= page_break_trigger L)%Q.

(** Calls that leave the link table alone. *)
Definition no_link_call (c : Call) : bool :=
  match c with
  | set_link _ _ => false
  | _ => true
  end.

(** Two lowercase hexadecimal digits for a number below 256, and the colour
    string [#rrggbb] of three such numbers. *)
Definition hex_char (d : Z) : ascii :=
  nth (Z.to_nat d) (list_ascii_of_string "0123456789abcdef") "0"%char.

Definition hex2 (n : Z) : string :=
  String (hex_char (n / 16)) (String (hex_char (n mod 16)) EmptyString).

Definition hex_color (r g b : Z) : string :=
  ("#" ++ hex2 r ++ hex2 g ++ hex2 b)%string.

Definition is_byte (n : Z) : Prop := (0 <= n < 256)%Z.

(** A matcher whose replacement is not longer than what it replaces. *)
Definition non_lengthening (m : Re.matcher) : Prop :=
  forall s r len,
    m s = Some (r, len) ->
    (1 <= len <= length s)%nat /\ (length r <= len)%nat.

(** Every character of [s] satisfies [p]. *)
Fixpoint all_chars (p : ascii -> bool) (s : string) : bool :=
  match s with
  | EmptyString => true
  | String c s' => p c && all_chars p s'
  end.

(** The line opens or closes a code fence (line 118). *)
Definition is_fence (line : string) : bool := startswith (strip line) "```".

(** What a line inside a code fence is drawn as (lines 122-123). *)
Definition code_line (line : string) : list Call :=
  [set_font courier Regular 9; multi_cell 0 4 line].

(** The item or heading text of a line pattern: what follows the blanks, up
    to a newline. *)
Definition after_blanks (s : string) : string :=
  fst (span (Re.not_char newline) (drop_while is_space s)).

(** The font of the rows of the table of contents. *)
Definition toc_font : Font := mkFont helvetica Regular 12.

(** In that font a dot has a width, so that the number of leader dots can be
    computed. *)
Definition dot_has_width (L : Lib) : Prop :=
  Qeq_bool (string_width L toc_font ".") 0 = false.

(** Every request gets some response. *)
Definition responds (net : Network) : Prop :=
  forall url headers, net url headers <> NoResponse.

(** A week the calendar code can draw: every colour is read by
    [hex_to_rgb], and the date of the first day, if there is one, is read by
    [fromisoformat]. *)
Definition week_ok (month_abbr : string -> option string) (week : Week) : Prop :=
  (forall day, In day (contributionDays week) ->
               exists c, hex_to_rgb (color day) = Ok c)
  /\ (forall d ds, contributionDays week = d :: ds ->
                   exists m, month_abbr (date d) = Some m).

(** The weeks that are drawn, all but the first, are such weeks. *)
Definition calendar_ok (month_abbr : string -> option string)
           (contrib : option Contrib) : Prop :=
  match contrib with
  | Some c => Forall (week_ok month_abbr) (tl (weeks c))
  | None => True
  end.

(** Calls that leave the font alone. *)
Definition no_font_call (c : Call) : bool :=
  match c with
  | set_font _ _ _ => false
  | _ => true
  end.

(** The cell the [footer] method draws on page [k] when the text colour is
    [c]. *)
Definition footer_cell (L : Lib) (k : Z) (c : Color) : Drawn :=
  DCell k (l_margin L) (page_h L - 15)%Q (right_edge L - l_margin L)%Q 10%Q
        (mkFont helvetica Italic 8) c ("Page " ++ str_of_Z k) AlignC NoLink.

(** Every page before the current one has got its footer. *)
Definition closed_pages_footed (L : Lib) (s : PDF) : Prop :=
  forall k, (1 <= k < page s)%Z -> exists c, In (footer_cell L k c) (out s).

(** Going from [s] to [s'] keeps that. *)
Definition keeps_footers (L : Lib) (s s' : PDF) : Prop :=
  closed_pages_footed L s -> closed_pages_footed L s'.

(** Following the next links from [url], the requests are answered with the
    pages [ps], none with an error status, and the last answer has no next
    link. *)
Inductive pages_from (net : Api.ApiNetwork) (headers : list (string * string))
  : option string -> list (list Repo) -> Prop :=
| pages_none : pages_from net headers None []
| pages_empty_url u :
    nonempty u = false -> pages_from net headers (Some u) []
| pages_next u resp page ps :
    nonempty u = true ->
    net u headers = Api.Answer resp ->
    Api.is_error_status (Api.resp_status resp) = false ->
    Api.resp_json resp = Some page ->
    pages_from net headers (Api.resp_next resp) ps ->
    pages_from net headers (Some u) (page :: ps).

(** A piece written by [generate_html] that opens a second-level heading. *)
Definition is_h2 (piece : string) : bool := startswith piece "<h2>".

(** A matcher whose replacement, or captured group, is never empty. *)
Definition productive (m : Re.matcher) : Prop :=
  forall s r len, m s = Some (r, len) -> r <> EmptyString.

(** The calls [process_inline] is meant to make: a font selection, or a
    [multi_cell(0, 5, t)] with some text in it. *)
Definition writes_text (c : Call) : bool :=
  match c with
  | set_font _ _ _ => true
  | multi_cell w h t => Qeq_bool w 0 && Qeq_bool h 5 && nonempty t
  | _ => false
  end.


End Notions.

(* ================================================================== *)
(** * Properties *)

Import PyStr Fpdf Markup Portfolio Notions.

(** ** General facts about the model *)

Lemma exec_app (L : Lib) (s : PDF) (a b : list Call) :
  exec L s (a ++ b) = exec L (exec L s a) b.
Proof. unfold exec. apply fold_left_app. Qed.

Lemma Ok_inj {A} (a b : A) : Ok a = Ok b -> a = b.
Proof. intros H. now injection H. Qed.

Lemma bind_ok {A B} (r : result A) (k : A -> result B) (b : B) :
  bind r k = Ok b -> exists a, r = Ok a /\ k a = Ok b.
Proof. destruct r as [a|e]; simpl; intros H; [eauto | discriminate]. Qed.

(** ** The inline tokenizer on a code span that holds a dollar span *)

(** C3, as amended: on the line made of [a $b$ c] between single backticks
    the dollar split runs first, so [process_inline] issues three runs: the
    plain text up to the first dollar (backtick included), the math run for
    [b], and the plain text after the second dollar (backtick included). *)
Theorem process_inline_dollar_inside_backticks :
  forall sympy : string -> option string,
    runs (process_inline sympy "`a $b$ c`")
    = [PlainText "`a "; MathText (Latex.latex_to_unicode sympy "b");
       PlainText " c`"].
Proof. intros sympy. reflexivity. Qed.

(** C3, as stated, fails: whatever the parser answers, the runs of that line
    are not the single code run [a $b$ c]. *)
Lemma process_inline_dollar_inside_backticks_not_code :
  ~ exists sympy : string -> option string,
      runs (process_inline sympy "`a $b$ c`") = [CodeText "a $b$ c"].
Proof. intros [sympy H]. cbv in H. discriminate H. Qed.

(** The sibling property of the spec does hold: two stars inside backticks stay
    code. *)
Example process_inline_bold_inside_backticks :
  forall sympy, runs (process_inline sympy "`**x**`") = [CodeText "**x**"].
Proof. intros sympy. reflexivity. Qed.

(** ** The fallback pipeline *)

(** C6: the fallback is the symbol pass followed by the superscript pass, the
    subscript pass and the fraction pass, in this order; on [\alpha^2] the
    symbol pass already gives [a^2], which the later passes leave as it is.
    The order is observable: on [^{x\al}pha] the script's order leaves
    [\alpha] standing, where superscripts-first would have replaced it. *)
Theorem fallback_symbols_before_scripts :
  (forall tex,
      Latex.fallback tex
      = Latex.fractions
          (Latex.subscripts (Latex.superscripts (Latex.replace_symbols tex))))
  /\ Latex.replace_symbols "\alpha^2" = "a^2"
  /\ Latex.fallback "\alpha^2" = "a^2"
  /\ Latex.fallback "^{x\al}pha" = "^x\alpha"
  /\ Latex.fractions
       (Latex.subscripts (Latex.replace_symbols (Latex.superscripts "^{x\al}pha")))
     = "^xa".
Proof. repeat split; vm_compute; reflexivity. Qed.

(** ** Section order *)

(** The example of the spec. *)
Example sorted_repos_spec_example :
  map name (sorted_repos [Sample.repo "A" 5; Sample.repo "B" 10; Sample.repo "C" 1]
                         ["C"] ["B"])
  = ["C"; "A"].
Proof. reflexivity. Qed.

(** [insert] and [sort] are the insertion sort: a permutation, in order. *)
Lemma insert_perm {A} before (key : A -> Z) a l :
  Permutation (insert before key a l) (a :: l).
Proof.
  induction l as [|b l IH]; simpl; [apply Permutation_refl|].
  destruct (before (key a) (key b)); [apply Permutation_refl|].
  eapply perm_trans; [apply perm_skip, IH | apply perm_swap].
Qed.

Lemma sort_perm {A} before (key : A -> Z) l :
  Permutation (sort before key l) l.
Proof.
  unfold sort. induction l as [|a l IH]; simpl; [apply perm_nil|].
  eapply perm_trans; [apply insert_perm | now apply perm_skip].
Qed.

Lemma insert_sorted {A} (before : Z -> Z -> bool) (key : A -> Z) a l :
  (forall m n, before m n = false -> before n m = true) ->
  Sorted (fun u v => before (key u) (key v) = true) l ->
  Sorted (fun u v => before (key u) (key v) = true) (insert before key a l).
Proof.
  intros Htotal. induction 1 as [|b l Hl IH Hhd]; simpl.
  - repeat constructor.
  - destruct (before (key a) (key b)) eqn:E.
    + constructor; [now constructor | now constructor].
    + constructor; [exact IH|].
      destruct l as [|c l]; simpl.
      * constructor. now apply Htotal.
      * destruct (before (key a) (key c)); constructor.
        -- now apply Htotal.
        -- now inversion Hhd.
Qed.

Lemma sort_sorted {A} (before : Z -> Z -> bool) (key : A -> Z) l :
  (forall m n, before m n = false -> before n m = true) ->
  Sorted (fun u v => before (key u) (key v) = true) (sort before key l).
Proof.
  intros Htotal. unfold sort. induction l as [|a l IH]; simpl.
  - constructor.
  - now apply insert_sorted.
Qed.

(** X22: what does hold of the section order: the prioritized repositories
    come first, ordered by their position in [prioritize], then the others that are
    not excluded, by descending stars; an excluded repository can only appear
    if it is prioritized as well. *)
Lemma sorted_repos_order repos prioritize exclude :
  exists prio others,
    sorted_repos repos prioritize exclude = (prio ++ others)%list
    /\ Permutation prio (filter (fun r => mem (name r) prioritize) repos)
    /\ Sorted (fun u v => (index (name u) prioritize
                           <= index (name v) prioritize)%Z) prio
    /\ Permutation others
         (filter (fun r => negb (mem (name r) prioritize)
                           && negb (mem (name r) exclude)) repos)
    /\ Sorted (fun u v => (stargazers_count u >= stargazers_count v)%Z) others
    /\ forall r, In r (sorted_repos repos prioritize exclude) ->
                 mem (name r) exclude = true ->
                 mem (name r) prioritize = true.
Proof.
  unfold sorted_repos, sort_by. eexists _, _. split; [reflexivity|].
  split; [apply sort_perm|]. split.
  { eapply Sorted_ind with (P := fun l => Sorted _ l);
      [constructor | | apply (sort_sorted Z.leb)]; [|intros m n H; lia].
    intros a l _ IH Hhd. constructor; [exact IH|].
    destruct Hhd; constructor. lia. }
  split; [apply sort_perm|]. split.
  { eapply Sorted_ind with (P := fun l => Sorted _ l);
      [constructor | | apply (sort_sorted Z.geb)]; [|intros m n H; lia].
    intros a l _ IH Hhd. constructor; [exact IH|].
    destruct Hhd; constructor. lia. }
  intros r Hin Hex. apply in_app_or in Hin as [Hin|Hin].
  - eapply Permutation_in in Hin; [|apply sort_perm].
    now apply filter_In in Hin as [_ Hin].
  - eapply Permutation_in in Hin; [|apply sort_perm].
    apply filter_In in Hin as [_ Hin]. rewrite Hex in Hin.
    now rewrite andb_false_r in Hin.
Qed.

(** C4 fails on a repository that is both prioritized and excluded: the
    comprehension for [prio_repos] does not look at [exclude], so [B] is kept
    (and comes first). *)
Theorem sorted_repos_keeps_prioritized_excluded :
  map name (sorted_repos [Sample.repo "A" 5; Sample.repo "B" 10; Sample.repo "C" 1]
                         ["B"] ["B"])
  = ["B"; "A"; "C"].
Proof. reflexivity. Qed.

(** ** Readme fetches *)

Lemma fetch_readme_response net username repo_name st body :
  net (readme_url username repo_name) raw_headers = Response st body ->
  fetch_readme net username repo_name None
  = Ok (if (st =? 200)%Z then Some body else None).
Proof.
  intros H. unfold fetch_readme. fold raw_headers. rewrite H.
  destruct (st =? 200)%Z; reflexivity.
Qed.

Lemma fetch_readme_no_response net username repo_name :
  net (readme_url username repo_name) raw_headers = NoResponse ->
  fetch_readme net username repo_name None = Raise RequestException.
Proof. intros H. unfold fetch_readme. fold raw_headers. now rewrite H. Qed.

(** A section whose readme is absent or empty: the heading block, then the
    closing [ln(10)], and nothing in between. *)
Lemma repo_section_without_readme L sympy net username pdf r readme :
  fetch_readme net username (name r) None = Ok readme ->
  readme_calls sympy readme = [] ->
  repo_section L sympy net username pdf r
  = Ok (exec L pdf (repo_head r ++ [ln 10])).
Proof.
  intros Hf Hc. unfold repo_section. rewrite Hf. cbn [bind]. rewrite Hc.
  rewrite exec_app. reflexivity.
Qed.

(** The network enters [generate_pdf] through [repo_section] only. *)
Lemma content_repos_ext L sympy net1 net2 username :
  (forall pdf r, repo_section L sympy net1 username pdf r
                 = repo_section L sympy net2 username pdf r) ->
  forall rs pdf rel,
    content_repos L sympy net1 username pdf rel rs
    = content_repos L sympy net2 username pdf rel rs.
Proof.
  intros H rs. induction rs as [|r rs IH]; intros pdf rel; simpl.
  - reflexivity.
  - rewrite H. destruct (repo_section L sympy net2 username pdf r); simpl.
    + apply IH.
    + reflexivity.
Qed.

Lemma final_repos_ext L sympy net1 net2 username :
  (forall pdf r, repo_section L sympy net1 username pdf r
                 = repo_section L sympy net2 username pdf r) ->
  forall rs pdf lks idx,
    final_repos L sympy net1 username pdf lks idx rs
    = final_repos L sympy net2 username pdf lks idx rs.
Proof.
  intros H rs. induction rs as [|r rs IH]; intros pdf lks idx; simpl.
  - reflexivity.
  - destruct (nth_error lks idx); simpl; [|reflexivity].
    rewrite H.
    destruct (repo_section L sympy net2 username _ r); simpl.
    + apply IH.
    + reflexivity.
Qed.

Lemma generate_pdf_ext L sympy month_abbr net1 net2 username :
  (forall pdf r, repo_section L sympy net1 username pdf r
                 = repo_section L sympy net2 username pdf r) ->
  forall fuel repos contrib prioritize exclude,
    generate_pdf L sympy month_abbr net1 username fuel repos contrib prioritize exclude
    = generate_pdf L sympy month_abbr net2 username fuel repos contrib prioritize exclude.
Proof.
  intros H fuel repos contrib prioritize exclude.
  unfold generate_pdf, content_pass, final_pass.
  destruct (content_calendar L month_abbr _ [] contrib) as [[pdf rel]|e]; simpl;
    [|reflexivity].
  rewrite (content_repos_ext _ _ _ _ _ H).
  destruct (content_repos L sympy net2 username pdf rel _) as [[c rl]|e]; simpl;
    [|reflexivity].
  destruct (toc_loop L fuel _ rl 1 []) as [[[seen ab]|e]|]; try reflexivity.
  destruct (final_toc_rows L ab _ [] _) as [[fp lks]|e]; simpl; [|reflexivity].
  destruct (final_calendar L month_abbr _ lks 0 contrib) as [[fp' idx]|e]; simpl;
    [|reflexivity].
  now rewrite (final_repos_ext _ _ _ _ _ H).
Qed.

(** *** Which exceptions can leave [generate_pdf] *)

Lemma raises_only_bind {A B} (P : Exn -> Prop) (r : result A)
      (k : A -> result B) :
  raises_only P r -> (forall a, raises_only P (k a)) -> raises_only P (bind r k).
Proof. destruct r; simpl; auto. Qed.

Lemma raises_only_or_raise {A} (P : Exn -> Prop) e (o : option A) :
  P e -> raises_only P (or_raise e o).
Proof. destruct o; simpl; auto. Qed.

Lemma int16_not_request s : raises_only not_request (int16 s).
Proof.
  unfold int16.
  repeat match goal with
         | |- context [match ?t with _ => _ end] => destruct t
         end;
    simpl; unfold not_request; try exact Logic.I; try discriminate;
    apply raises_only_or_raise; discriminate.
Qed.

Lemma hex_to_rgb_not_request s : raises_only not_request (hex_to_rgb s).
Proof.
  unfold hex_to_rgb.
  repeat (apply raises_only_bind; [apply int16_not_request | intros ?]).
  exact Logic.I.
Qed.

Lemma month_labels_not_request month_abbr y0 ws :
  forall cur, raises_only not_request (month_labels month_abbr y0 cur ws).
Proof.
  induction ws as [|[w week] ws IH]; intros cur; simpl.
  - exact Logic.I.
  - destruct (contributionDays week) as [|d ds]; [apply IH|].
    apply raises_only_bind.
    + apply raises_only_or_raise. discriminate.
    + intros m. destruct (opt_str_eqb cur m); [apply IH|].
      apply raises_only_bind; [apply IH | intros ?; exact Logic.I].
Qed.

Lemma week_squares_not_request y0 w ds :
  raises_only not_request (week_squares y0 w ds).
Proof.
  induction ds as [|[d dy] ds IH]; simpl.
  - exact Logic.I.
  - apply raises_only_bind; [apply hex_to_rgb_not_request | intros ?].
    apply raises_only_bind; [apply IH | intros ?; exact Logic.I].
Qed.

Lemma week_columns_not_request y0 ws :
  raises_only not_request (week_columns y0 ws).
Proof.
  induction ws as [|[w week] ws IH]; simpl.
  - exact Logic.I.
  - apply raises_only_bind; [apply week_squares_not_request | intros ?].
    apply raises_only_bind; [apply IH | intros ?; exact Logic.I].
Qed.

Lemma calendar_grid_not_request L month_abbr pdf ws :
  raises_only not_request (calendar_grid L month_abbr pdf ws).
Proof.
  unfold calendar_grid.
  apply raises_only_bind; [apply month_labels_not_request | intros ?].
  apply raises_only_bind; [apply week_columns_not_request | intros ?].
  exact Logic.I.
Qed.

Lemma toc_row_not_request L ab pdf i entry lk :
  raises_only not_request (toc_row L ab pdf i entry lk).
Proof.
  unfold toc_row.
  destruct (Qeq_bool _ 0); [discriminate|].
  apply raises_only_bind; [|intros ?; exact Logic.I].
  apply raises_only_or_raise. discriminate.
Qed.

Lemma toc_rows_not_request L ab es :
  forall pdf, raises_only not_request (toc_rows L ab pdf es).
Proof.
  induction es as [|[i e] es IH]; intros pdf; simpl.
  - exact Logic.I.
  - apply raises_only_bind; [apply toc_row_not_request | intros ?; apply IH].
Qed.

Lemma final_toc_rows_not_request L ab es :
  forall pdf lks, raises_only not_request (final_toc_rows L ab pdf lks es).
Proof.
  induction es as [|[i e] es IH]; intros pdf lks; simpl.
  - exact Logic.I.
  - apply raises_only_bind; [apply toc_row_not_request | intros ?; apply IH].
Qed.

Lemma toc_loop_not_request L fuel entries rel :
  forall assumed seen e,
    toc_loop L fuel entries rel assumed seen = Some (Raise e) -> not_request e.
Proof.
  induction fuel as [|fuel IH]; intros assumed seen e; simpl; [discriminate|].
  unfold toc_trial.
  pose proof (toc_rows_not_request L (abs_pages_for rel assumed)
                (enumerate entries) (exec L (new L) toc_heading)) as Hr.
  destruct (toc_rows L _ _ _) as [p|e']; simpl in Hr.
  - destruct (page_no p =? assumed)%Z; [discriminate | apply IH].
  - intros H. injection H as <-. exact Hr.
Qed.

Section Responding.
Variable L : Lib.
Variable sympy : string -> option string.
Variable month_abbr : string -> option string.
Variable net : Network.
Variable username : string.
Hypothesis responds : forall url headers, net url headers <> NoResponse.

Lemma fetch_readme_not_request repo_name token :
  raises_only not_request (fetch_readme net username repo_name token).
Proof.
  unfold fetch_readme.
  match goal with |- context [net ?u ?h] =>
    pose proof (responds u h) as Hn; destruct (net u h) as [st body|] end.
  - destruct (st =? 200)%Z; exact Logic.I.
  - contradiction.
Qed.

Lemma repo_section_not_request pdf r :
  raises_only not_request (repo_section L sympy net username pdf r).
Proof.
  unfold repo_section.
  apply raises_only_bind; [apply fetch_readme_not_request | intros ?].
  exact Logic.I.
Qed.

Lemma content_repos_not_request rs :
  forall pdf rel,
    raises_only not_request (content_repos L sympy net username pdf rel rs).
Proof.
  induction rs as [|r rs IH]; intros pdf rel; simpl.
  - exact Logic.I.
  - apply raises_only_bind; [apply repo_section_not_request | intros ?; apply IH].
Qed.

Lemma final_repos_not_request rs :
  forall pdf lks idx,
    raises_only not_request (final_repos L sympy net username pdf lks idx rs).
Proof.
  induction rs as [|r rs IH]; intros pdf lks idx; simpl.
  - exact Logic.I.
  - apply raises_only_bind.
    + apply raises_only_or_raise. discriminate.
    + intros ?. apply raises_only_bind;
        [apply repo_section_not_request | intros ?; apply IH].
Qed.

Lemma generate_pdf_not_request fuel repos contrib prioritize exclude :
  generate_pdf L sympy month_abbr net username fuel repos contrib
               prioritize exclude
  <> Some (Raise RequestException).
Proof.
  unfold generate_pdf.
  set (sorted := sorted_repos repos prioritize exclude).
  assert (Hc : raises_only not_request
                 (content_pass L sympy month_abbr net username contrib sorted)).
  { unfold content_pass. apply raises_only_bind.
    - unfold content_calendar. destruct contrib; [|exact Logic.I].
      apply raises_only_bind;
        [apply calendar_grid_not_request | intros ?; exact Logic.I].
    - intros [p rl]. apply content_repos_not_request. }
  destruct (content_pass _ _ _ _ _ _ _) as [[c rl]|e]; simpl in Hc.
  2:{ intros H. injection H as ->. now apply Hc. }
  pose proof (toc_loop_not_request L fuel (entries_of contrib sorted) rl 1 [])
    as Hl.
  destruct (toc_loop _ _ _ _ _ _) as [[[seen ab]|e]|].
  3:{ discriminate. }
  2:{ intros H. injection H as ->. now apply (Hl _ eq_refl). }
  assert (Hf : raises_only not_request
                 (final_pass L sympy month_abbr net username
                             (entries_of contrib sorted) ab contrib sorted)).
  { unfold final_pass. apply raises_only_bind.
    - apply final_toc_rows_not_request.
    - intros [fp lks]. apply raises_only_bind.
      + unfold final_calendar. destruct contrib; [|exact Logic.I].
        apply raises_only_bind.
        * apply raises_only_or_raise. discriminate.
        * intros ?. apply raises_only_bind;
            [apply calendar_grid_not_request | intros ?; exact Logic.I].
      + intros [fp' idx]. apply raises_only_bind;
          [apply final_repos_not_request | intros ?; exact Logic.I]. }
  destruct (final_pass _ _ _ _ _ _ _ _ _) as [[fp lks]|e]; simpl in Hf.
  - discriminate.
  - intros H. injection H as ->. now apply Hf.
Qed.
End Responding.

(** C5, as amended: a readme request that is answered with a status other than
    200 (404 included) makes [fetch_readme] return [None]; the section of that
    repository is then its heading block and the closing [ln(10)], with no
    README subsection, and nothing is raised.  As long as every request gets
    some response, no fetch aborts [generate_pdf]. *)
Theorem readme_fetch_soft_fail :
  forall (L : Lib) (sympy month_abbr : string -> option string)
         (net : Network) (username : string),
    (forall pdf r st body,
        net (readme_url username (name r)) raw_headers = Response st body ->
        st <> 200%Z ->
        fetch_readme net username (name r) None = Ok None
        /\ repo_section L sympy net username pdf r
           = Ok (exec L pdf (repo_head r ++ [ln 10])))
    /\ ((forall url headers, net url headers <> NoResponse) ->
        forall fuel repos contrib prioritize exclude,
          generate_pdf L sympy month_abbr net username fuel repos contrib
                       prioritize exclude
          <> Some (Raise RequestException)).
Proof.
  intros L sympy month_abbr net username. split.
  - intros pdf r st body Hnet Hst.
    assert (Hf : fetch_readme net username (name r) None = Ok None).
    { rewrite (fetch_readme_response _ _ _ _ _ Hnet).
      destruct (Z.eqb_spec st 200); [contradiction | reflexivity]. }
    split; [exact Hf|].
    now apply (repo_section_without_readme _ _ _ _ _ _ None).
  - intros Hresp fuel repos contrib prioritize exclude.
    now apply generate_pdf_not_request.
Qed.

Lemma readme_fetch_soft_fail_witness :
  (fetch_readme Sample.net_404 "u" "A" None = Ok None
   /\ repo_section Sample.a4 Sample.no_sympy Sample.net_404 "u"
                   (exec Sample.a4 (new Sample.a4) [add_page]) (Sample.repo "A" 5)
      = Ok (exec Sample.a4 (exec Sample.a4 (new Sample.a4) [add_page])
                 (repo_head (Sample.repo "A" 5) ++ [ln 10])))
  /\ generate_pdf Sample.a4 Sample.no_sympy Sample.jan Sample.net_404 "u" 5
                  [Sample.repo "A" 5; Sample.repo "B" 10] None [] []
     <> Some (Raise RequestException).
Proof.
  destruct (readme_fetch_soft_fail Sample.a4 Sample.no_sympy Sample.jan
                                   Sample.net_404 "u") as [H1 H2].
  split.
  - apply (H1 _ (Sample.repo "A" 5) 404%Z "Not Found").
    + reflexivity.
    + discriminate.
  - apply H2. intros url headers. discriminate.
Defined.

(** C5, as stated, fails when the request gets no response: [requests.get]
    raises, [fetch_readme] does not catch it, and the run is aborted. *)
Lemma readme_fetch_no_response_aborts :
  generate_pdf Sample.a4 Sample.no_sympy Sample.jan Sample.net_down "u" 5
               [Sample.repo "A" 5] None [] []
  = Some (Raise RequestException).
Proof. vm_compute. reflexivity. Qed.

(** C10: when the readme request is answered 200 with an empty body,
    [fetch_readme] returns the empty string, and the section of the repository
    is its heading block and the closing [ln(10)] with no README subsection;
    the whole document is the one produced when such requests are answered
    with an error status instead. *)
Theorem empty_readme_same_as_absent :
  forall (L : Lib) (sympy month_abbr : string -> option string)
         (net net' : Network) (username : string),
    (forall r,
        net (readme_url username (name r)) raw_headers = Response 200 "" ->
        fetch_readme net username (name r) None = Ok (Some "")
        /\ forall pdf,
            repo_section L sympy net username pdf r
            = Ok (exec L pdf (repo_head r ++ [ln 10])))
    /\ ((forall url headers,
            net url headers = net' url headers
            \/ (net url headers = Response 200 ""
                /\ exists st body,
                    net' url headers = Response st body /\ st <> 200%Z)) ->
        forall fuel repos contrib prioritize exclude,
          generate_pdf L sympy month_abbr net username fuel repos contrib
                       prioritize exclude
          = generate_pdf L sympy month_abbr net' username fuel repos contrib
                         prioritize exclude).
Proof.
  intros L sympy month_abbr net net' username. split.
  - intros r Hnet.
    assert (Hf : fetch_readme net username (name r) None = Ok (Some "")).
    { now rewrite (fetch_readme_response _ _ _ _ _ Hnet). }
    split; [exact Hf|]. intros pdf.
    now apply (repo_section_without_readme _ _ _ _ _ _ (Some "")).
  - intros Hrel. apply generate_pdf_ext. intros pdf r.
    destruct (Hrel (readme_url username (name r)) raw_headers)
      as [Heq | [Hn (st & body & Hn' & Hst)]].
    + unfold repo_section, fetch_readme. fold raw_headers. now rewrite Heq.
    + rewrite (repo_section_without_readme L sympy net username pdf r (Some ""));
        [|now rewrite (fetch_readme_response _ _ _ _ _ Hn) | reflexivity].
      rewrite (repo_section_without_readme L sympy net' username pdf r None);
        [reflexivity | | reflexivity].
      rewrite (fetch_readme_response _ _ _ _ _ Hn').
      destruct (Z.eqb_spec st 200); [contradiction | reflexivity].
Qed.

Lemma empty_readme_same_as_absent_witness :
  fetch_readme Sample.net_empty "u" "A" None = Ok (Some "")
  /\ generate_pdf Sample.a4 Sample.no_sympy Sample.jan Sample.net_empty "u" 5
                  [Sample.repo "A" 5; Sample.repo "B" 10] None [] []
     = generate_pdf Sample.a4 Sample.no_sympy Sample.jan Sample.net_404 "u" 5
                    [Sample.repo "A" 5; Sample.repo "B" 10] None [] [].
Proof.
  destruct (empty_readme_same_as_absent Sample.a4 Sample.no_sympy Sample.jan
              Sample.net_empty Sample.net_404 "u") as [H1 H2].
  split.
  - apply (H1 (Sample.repo "A" 5)). reflexivity.
  - apply H2. intros url headers. right. split.
    + reflexivity.
    + exists 404%Z, "Not Found". split; [reflexivity | discriminate].
Defined.

(** ** Heading lines *)

Lemma append_assoc (a b c : string) :
  ((a ++ b) ++ c)%string = (a ++ (b ++ c))%string.
Proof. induction a as [|x a IH]; simpl; congruence. Qed.

Lemma append_empty_r (a : string) : (a ++ EmptyString)%string = a.
Proof. induction a as [|x a IH]; simpl; congruence. Qed.

Lemma length_append (a b : string) :
  length (a ++ b) = (length a + length b)%nat.
Proof. induction a as [|x a IH]; simpl; congruence. Qed.

Lemma rev_onto_app s : forall acc, rev_onto s acc = (rev s ++ acc)%string.
Proof.
  unfold rev. induction s as [|c s IH]; intros acc; simpl.
  - reflexivity.
  - rewrite IH, (IH (String c EmptyString)).
    rewrite append_assoc. reflexivity.
Qed.

Lemma rev_app_last s c : rev (s ++ String c EmptyString) = String c (rev s).
Proof.
  unfold rev. generalize EmptyString at 2 3.
  induction s as [|d s IH]; intros acc; simpl.
  - reflexivity.
  - apply IH.
Qed.

Lemma drop_while_keeps_last p s c :
  p c = false ->
  drop_while p (s ++ String c EmptyString)
  = (drop_while p s ++ String c EmptyString)%string.
Proof.
  intros Hc. induction s as [|d s IH]; simpl.
  - now rewrite Hc.
  - destruct (p d); [exact IH | reflexivity].
Qed.

(** [rstrip] keeps a first character that is not a blank. *)
Lemma rstrip_head c s :
  is_space c = false -> exists s', rstrip (String c s) = String c s'.
Proof.
  intros Hc. unfold rstrip.
  replace (rev (String c s)) with (rev s ++ String c EmptyString)%string
    by (symmetry; unfold rev at 1; simpl; apply rev_onto_app).
  destruct (drop_while is_space (rev s ++ String c EmptyString)) eqn:E.
  - exfalso. revert E. generalize (rev s). intros t.
    induction t as [|d t IH]; simpl.
    + now rewrite Hc.
    + destruct (is_space d); [exact IH | discriminate].
  - revert E. generalize (rev s). intros t E.
    assert (H : exists u, String a s0 = (u ++ String c EmptyString)%string).
    { revert E. induction t as [|d t IH]; simpl.
      - rewrite Hc. intros <-. now exists EmptyString.
      - destruct (is_space d); [exact IH|].
        intros <-. now exists (String d t). }
    destruct H as [u ->]. rewrite rev_app_last. eauto.
Qed.

Lemma is_space_not_hash c : is_space c = true -> Ascii.eqb c "#" = false.
Proof.
  destruct c as [[] [] [] [] [] [] [] []]; vm_compute; congruence.
Qed.

Lemma hashes_at_space n c rest :
  is_space c = true ->
  Re.hashes n (String c rest) = (EmptyString, String c rest).
Proof.
  intros Hc. apply is_space_not_hash in Hc.
  destruct n as [|n]; [reflexivity|].
  destruct c as [[] [] [] [] [] [] [] []]; try reflexivity; discriminate Hc.
Qed.

Lemma hashes_hash_run k n s :
  Re.hashes (k + n) (hash_run k ++ s)
  = (hash_run k ++ fst (Re.hashes n s), snd (Re.hashes n s))%string.
Proof.
  induction k as [|k IH]; simpl.
  - now destruct (Re.hashes n s).
  - rewrite IH. reflexivity.
Qed.

Lemma length_hash_run n : length (hash_run n) = n.
Proof. induction n; simpl; congruence. Qed.

(** C7: a line that is not inside a code fence and whose text, after the
    leading blanks, is [level] hashes (1 to 6) followed by a blank is set as a
    heading in bold Helvetica of size [max(16 - 2*level, 10)]: 14 for level 1
    and the clamped 10 from level 4 on. *)
Theorem heading_font_size :
  forall (sympy : string -> option string) (line : string) (level : nat)
         (c : ascii) (rest : string) (in_inline_code : bool),
    (1 <= level <= 6)%nat ->
    lstrip line = (hash_run level ++ String c rest)%string ->
    is_space c = true ->
    let size := Z.max (16 - Z.of_nat level * 2) 10 in
    process_readme_line sympy line false in_inline_code
    = ([set_font helvetica Bold size;
        set_x (indent_x (length line - length (lstrip line)));
        multi_cell 0 (inject_Z size / 2 + 4)%Q
                   (fst (span (Re.not_char newline)
                              (drop_while is_space (String c rest))))],
       (false, in_inline_code))
    /\ (level = 1%nat -> size = 14%Z)
    /\ ((4 <= level)%nat -> size = 10%Z).
Proof.
  intros sympy line level c rest iic Hlevel Hline Hc size.
  split; [|subst size; split; intros; lia].
  destruct level as [|k]; [lia|].
  unfold process_readme_line.
  assert (Hfence : startswith (strip line) "```" = false).
  { unfold strip. rewrite Hline. simpl hash_run. simpl append.
    destruct (rstrip_head "#" (hash_run k ++ String c rest) eq_refl) as [s' ->].
    reflexivity. }
  rewrite Hfence, Hline.
  assert (Hh : Re.match_header (hash_run (S k) ++ String c rest)
               = Some (hash_run (S k),
                       fst (span (Re.not_char newline)
                                 (drop_while is_space (String c rest))))).
  { unfold Re.match_header.
    replace 6%nat with (S k + (6 - S k))%nat by lia.
    rewrite hashes_hash_run, (hashes_at_space _ _ _ Hc). simpl fst. simpl snd.
    rewrite append_empty_r. simpl hash_run.
    unfold Re.spaces_then_rest. simpl drop_while. rewrite !Hc. reflexivity. }
  rewrite Hh. simpl hash_run. simpl append.
  cbn [Re.match_ul Ascii.eqb Bool.eqb orb].
  unfold Re.match_ol. cbn [span is_digit].
  replace (is_digit "#") with false by reflexivity.
  cbv iota. subst size.
  change (String "#" (hash_run k)) with (hash_run (S k)).
  rewrite length_hash_run. reflexivity.
Qed.

Lemma heading_font_size_witness :
  process_readme_line Sample.no_sympy "  ## Title" false false
  = ([set_font helvetica Bold 12; set_x (indent_x 2);
      multi_cell 0 (inject_Z 12 / 2 + 4)%Q "Title"],
     (false, false)).
Proof.
  apply (proj1 (heading_font_size Sample.no_sympy "  ## Title" 2 " " "Title"
                                  false (conj (le_S _ _ (le_n 1))
                                              (le_S _ _ (le_S _ _ (le_S _ _ (le_S _ _ (le_n 2))))))
                                  eq_refl eq_refl)).
Defined.

Ltac shifted_crush :=
  unfold shifted in *; simpl in *;
  repeat match goal with
         | H : _ /\ _ |- _ => destruct H
         end;
  repeat split; try congruence; try lia.

(** ** The cursor does not depend on the page number nor on what is written *)

Lemma shifted_draw k d1 d2 s1 s2 :
  shifted k s1 s2 -> shifted k (draw d1 s1) (draw d2 s2).
Proof. intros H. shifted_crush. Qed.

Lemma shifted_move k nx ny s1 s2 :
  shifted k s1 s2 -> shifted k (move nx ny s1) (move nx ny s2).
Proof. intros H. shifted_crush. Qed.

Lemma shifted_with_font k f s1 s2 :
  page s2 = (page s1 + k)%Z -> x s2 = x s1 -> y s2 = y s1 ->
  shifted k (with_font f s1) (with_font f s2).
Proof. intros. shifted_crush. Qed.

Lemma shifted_with_colors k a b a' b' s1 s2 :
  shifted k s1 s2 -> shifted k (with_colors a b s1) (with_colors a' b' s2).
Proof. intros H. shifted_crush. Qed.

Lemma shifted_with_links k l1 l2 s1 s2 :
  shifted k s1 s2 -> shifted k (with_links l1 s1) (with_links l2 s2).
Proof. intros H. shifted_crush. Qed.

Lemma shifted_add_page L k s1 s2 :
  page s2 = (page s1 + k)%Z -> font s2 = font s1 ->
  shifted k (do_add_page L s1) (do_add_page L s2).
Proof.
  intros Hp Hf. unfold do_add_page, footer.
  destruct (0 <? page s1)%Z, (0 <? page s2)%Z; shifted_crush.
Qed.

Lemma shifted_break L k h s1 s2 :
  shifted k s1 s2 ->
  shifted k (break_if_needed L h s1) (break_if_needed L h s2).
Proof.
  intros H. unfold break_if_needed.
  destruct H as (Hp & Hx & Hy & Hf). rewrite Hx, Hy.
  destruct (Qle_bool (y s1 + h) (page_break_trigger L)).
  - repeat split; assumption.
  - pose proof (shifted_add_page L k s1 s2 Hp Hf) as (Hp' & Hx' & Hy' & Hf').
    unfold shifted, move; cbn [page x y font]. repeat split; congruence.
Qed.

Lemma shifted_do_cell L k w h t1 t2 a1 a2 l1 l2 s1 s2 :
  shifted k s1 s2 ->
  shifted k (do_cell L w h t1 a1 l1 s1) (do_cell L w h t2 a2 l2 s2).
Proof.
  intros H. unfold do_cell.
  pose proof (shifted_break L k h s1 s2 H) as Hb.
  set (b1 := break_if_needed L h s1) in *.
  set (b2 := break_if_needed L h s2) in *.
  unfold cell_width.
  destruct Hb as (Hp & Hx & Hy & Hf).
  unfold shifted, move, draw; simpl. rewrite Hx, Hy. repeat split; try assumption.
Qed.

Lemma shifted_do_line L k w h txt s1 s2 :
  shifted k s1 s2 ->
  shifted k (do_line L w h s1 txt) (do_line L w h s2 txt).
Proof.
  intros H. unfold do_line.
  pose proof (shifted_break L k h s1 s2 H) as (Hp & Hx & Hy & Hf).
  unfold shifted, move, draw; simpl. rewrite Hx, Hy. repeat split; assumption.
Qed.

Lemma shifted_lines L k w h ls :
  forall s1 s2,
    shifted k s1 s2 ->
    shifted k (fold_left (do_line L w h) ls s1) (fold_left (do_line L w h) ls s2).
Proof.
  induction ls as [|l ls IH]; intros s1 s2 H; simpl.
  - exact H.
  - apply IH. now apply shifted_do_line.
Qed.

Lemma shifted_do_multi_cell L k w h txt s1 s2 :
  shifted k s1 s2 ->
  shifted k (do_multi_cell L w h txt s1) (do_multi_cell L w h txt s2).
Proof.
  intros H. unfold do_multi_cell, cell_width.
  destruct H as (Hp & Hx & Hy & Hf). rewrite Hx, Hf.
  match goal with
  | |- shifted _ (move _ _ (fold_left (do_line _ ?w' _) ?ls _)) _ =>
      pose proof (shifted_lines L k w' h ls s1 s2
                    (conj Hp (conj Hx (conj Hy Hf)))) as (Hp' & Hx' & Hy' & Hf')
  end.
  unfold shifted, move; cbn [page x y font]. repeat split; congruence.
Qed.

(** The same call on two shifted documents leaves them shifted. *)
Lemma shifted_exec1 L k c s1 s2 :
  shifted k s1 s2 -> shifted k (exec1 L s1 c) (exec1 L s2 c).
Proof.
  intros H. destruct c; simpl.
  - destruct H as (Hp & Hx & Hy & Hf). now apply shifted_with_font.
  - now apply shifted_do_cell.
  - now apply shifted_do_multi_cell.
  - destruct H as (Hp & Hx & Hy & Hf). rewrite Hy.
    apply shifted_move. repeat split; assumption.
  - destruct H as (Hp & Hx & Hy & Hf). rewrite Hy.
    apply shifted_move. repeat split; assumption.
  - now apply shifted_move.
  - now apply shifted_draw.
  - now apply shifted_with_colors.
  - now apply shifted_with_colors.
  - now apply shifted_draw.
  - destruct H as (Hp & Hx & Hy & Hf). now apply shifted_add_page.
  - now apply shifted_with_links.
Qed.

Lemma shifted_exec L k cs :
  forall s1 s2, shifted k s1 s2 -> shifted k (exec L s1 cs) (exec L s2 cs).
Proof.
  induction cs as [|c cs IH]; intros s1 s2 H; simpl.
  - exact H.
  - apply IH. now apply shifted_exec1.
Qed.

(** Pages are only ever added. *)
Lemma page_do_add_page L s : page (do_add_page L s) = (page s + 1)%Z.
Proof. unfold do_add_page, footer. destruct (0 <? page s)%Z; reflexivity. Qed.

Lemma page_break_mono L h s : (page s <= page (break_if_needed L h s))%Z.
Proof.
  unfold break_if_needed. destruct (Qle_bool _ _); [lia|].
  unfold move; cbn [page]. rewrite page_do_add_page. lia.
Qed.

Lemma page_lines_mono L w h ls :
  forall s, (page s <= page (fold_left (do_line L w h) ls s))%Z.
Proof.
  induction ls as [|l ls IH]; intros s; simpl; [lia|].
  etransitivity; [|apply IH].
  unfold do_line, move, draw; cbn [page]. apply page_break_mono.
Qed.

Lemma page_exec1_mono L s c : (page s <= page (exec1 L s c))%Z.
Proof.
  destruct c; cbn [exec1];
    unfold with_font, with_colors, with_links, move, draw; cbn [page]; try lia.
  - unfold do_cell, move, draw; cbn [page]. apply page_break_mono.
  - unfold do_multi_cell, move; cbn [page]. apply page_lines_mono.
  - rewrite page_do_add_page. lia.
Qed.

Lemma page_exec_mono L cs : forall s, (page s <= page (exec L s cs))%Z.
Proof.
  induction cs as [|c cs IH]; intros s; simpl; [lia|].
  etransitivity; [apply (page_exec1_mono L s c) | apply IH].
Qed.

(** ** The table of contents and the reconciliation loop *)

(** The place of a row does not depend on the page numbers printed in it, nor
    on the link of its entry. *)
Lemma toc_row_shifted L k ab1 ab2 s1 s2 i e lk1 lk2 :
  shifted k s1 s2 -> same_length ab1 ab2 ->
  same_result (shifted k) (toc_row L ab1 s1 i e lk1) (toc_row L ab2 s2 i e lk2).
Proof.
  intros H Hlen. unfold toc_row, get_string_width.
  assert (Hf : font s2 = font s1) by apply H. rewrite Hf.
  set (w := (string_width L (font s1) e + 6)%Q).
  assert (H1 : shifted k (exec L s1 [cell w 5 e AlignL lk1])
                         (exec L s2 [cell w 5 e AlignL lk2])).
  { cbn [exec fold_left exec1]. now apply shifted_do_cell. }
  set (a1 := exec L s1 [cell w 5 e AlignL lk1]) in *.
  set (a2 := exec L s2 [cell w 5 e AlignL lk2]) in *.
  assert (Hf1 : font a2 = font a1) by apply H1. rewrite Hf1.
  destruct (Qeq_bool (string_width L (font a1) ".") 0); [reflexivity|].
  match goal with
  | |- context [exec L a1 [?c]] =>
      pose proof (shifted_exec L k [c] a1 a2 H1) as H2;
      set (b1 := exec L a1 [c]) in *; set (b2 := exec L a2 [c]) in *
  end.
  specialize (Hlen i).
  destruct (nth_error ab1 i) as [p1|], (nth_error ab2 i) as [p2|];
    cbn [bind or_raise same_result].
  - unfold exec; cbn [fold_left]. apply shifted_exec1.
    cbn [exec1]. now apply shifted_do_cell.
  - destruct Hlen as [_ Hl]. specialize (Hl eq_refl). discriminate.
  - destruct Hlen as [Hl _]. specialize (Hl eq_refl). discriminate.
  - reflexivity.
Qed.

Lemma toc_rows_shifted L k ab1 ab2 es :
  same_length ab1 ab2 ->
  forall s1 s2,
    shifted k s1 s2 ->
    same_result (shifted k) (toc_rows L ab1 s1 es) (toc_rows L ab2 s2 es).
Proof.
  intros Hlen. induction es as [|[i e] es IH]; intros s1 s2 H; simpl.
  - exact H.
  - pose proof (toc_row_shifted L k ab1 ab2 s1 s2 i e NoLink NoLink H Hlen) as Hr.
    destruct (toc_row L ab1 s1 i e NoLink), (toc_row L ab2 s2 i e NoLink);
      simpl in *; try contradiction; try assumption.
    now apply IH.
Qed.

Lemma same_length_map {A} (f g : A -> Z) l : same_length (map f l) (map g l).
Proof.
  intros i. rewrite !nth_error_None, !length_map. reflexivity.
Qed.

Lemma shifted_refl s : shifted 0 s s.
Proof. unfold shifted. repeat split; lia. Qed.

(** The trial table has the same number of pages whatever page count was
    assumed for it. *)
Lemma toc_trial_independent L entries rel a1 a2 :
  same_result (shifted 0)
              (toc_trial L entries (abs_pages_for rel a1))
              (toc_trial L entries (abs_pages_for rel a2)).
Proof.
  unfold toc_trial. apply toc_rows_shifted.
  - apply same_length_map.
  - apply shifted_refl.
Qed.

Lemma toc_row_page_mono L ab s i e lk p :
  toc_row L ab s i e lk = Ok p -> (page s <= page p)%Z.
Proof.
  unfold toc_row. destruct (Qeq_bool _ 0); [discriminate|].
  destruct (nth_error ab i) as [n|]; cbn [bind or_raise]; [|discriminate].
  intros H. apply Ok_inj in H. subst p.
  etransitivity; [|apply page_exec_mono].
  etransitivity; [|apply page_exec_mono].
  apply page_exec_mono.
Qed.

Lemma toc_rows_page_mono L ab es :
  forall s p, toc_rows L ab s es = Ok p -> (page s <= page p)%Z.
Proof.
  induction es as [|[i e] es IH]; intros s p; simpl.
  - intros H. injection H as <-. lia.
  - intros H. apply bind_ok in H as (q & Hq & Hp).
    apply toc_row_page_mono in Hq. apply IH in Hp. lia.
Qed.

Lemma toc_trial_page_ge_1 L entries ab p :
  toc_trial L entries ab = Ok p -> (1 <= page p)%Z.
Proof.
  unfold toc_trial. intros H. apply toc_rows_page_mono in H.
  assert (1 <= page (exec L (new L) toc_heading))%Z; [|lia].
  change toc_heading with ([add_page] ++ tl toc_heading)%list.
  rewrite exec_app. etransitivity; [|apply page_exec_mono].
  cbn [exec fold_left exec1]. rewrite page_do_add_page. simpl. lia.
Qed.

(** The loop, unrolled: the first trial settles everything. *)
Lemma toc_loop_unrolled L entries rel fuel :
  (2 <= fuel)%nat ->
  match toc_trial L entries (abs_pages_for rel 1) with
  | Raise e => toc_loop L fuel entries rel 1 [] = Some (Raise e)
  | Ok p =>
      (1 <= page p)%Z
      /\ toc_loop L fuel entries rel 1 []
         = Some (Ok (if (page p =? 1)%Z then [1%Z] else [1%Z; page p],
                     abs_pages_for rel (page p)))
  end.
Proof.
  intros Hfuel. destruct fuel as [|[|fuel]]; try lia.
  cbn [toc_loop].
  destruct (toc_trial L entries (abs_pages_for rel 1)) as [p|e] eqn:E1;
    [|reflexivity].
  split; [now apply toc_trial_page_ge_1 in E1|].
  unfold page_no. destruct (Z.eqb_spec (page p) 1) as [->|Hne]; [reflexivity|].
  pose proof (toc_trial_independent L entries rel 1 (page p)) as Hi.
  rewrite E1 in Hi.
  destruct (toc_trial L entries (abs_pages_for rel (page p))) as [q|e];
    simpl in Hi; [|contradiction].
  destruct Hi as (Hq & _). rewrite Hq, Z.add_0_r, Z.eqb_refl. reflexivity.
Qed.

(** With room for the heading and one row, a table of at most one row takes
    one page. *)
Lemma break_if_needed_fits L h s :
  Qle_bool (y s + h) (page_break_trigger L) = true ->
  break_if_needed L h s = s.
Proof. intros H. unfold break_if_needed. now rewrite H. Qed.

Lemma do_cell_fits L w h txt al lk s :
  Qle_bool (y s + h) (page_break_trigger L) = true ->
  page (do_cell L w h txt al lk s) = page s
  /\ y (do_cell L w h txt al lk s) = y s.
Proof.
  intros H. unfold do_cell. rewrite (break_if_needed_fits _ _ _ H).
  split; reflexivity.
Qed.

Lemma toc_heading_place L :
  first_row_fits L ->
  page (exec L (new L) toc_heading) = 1%Z
  /\ y (exec L (new L) toc_heading) = (t_margin L + 10)%Q.
Proof.
  intros Hfit. unfold toc_heading, exec. cbn [fold_left exec1].
  assert (H10 : Qle_bool (t_margin L + 10) (page_break_trigger L) = true).
  { apply Qle_bool_iff. unfold first_row_fits in Hfit.
    apply Qle_trans with (t_margin L + 10 + 5)%Q; [|exact Hfit].
    rewrite <- (Qplus_0_r (t_margin L + 10)) at 1.
    apply Qplus_le_r. discriminate. }
  set (s0 := with_font _ (do_add_page L (new L))).
  assert (Hs0 : page s0 = 1%Z /\ y s0 = t_margin L) by (split; reflexivity).
  destruct Hs0 as [Hp0 Hy0].
  destruct (do_cell_fits L 0 10 "Table of Contents" AlignC NoLink s0) as [Hp1 Hy1].
  { now rewrite Hy0. }
  unfold with_font, move; cbn [page y]. rewrite Hp1, Hy1, Hp0, Hy0.
  split; reflexivity.
Qed.

Lemma three_cells_fit L h s w1 t1 a1 l1 w2 t2 a2 l2 w3 t3 a3 l3 :
  Qle_bool (y s + h) (page_break_trigger L) = true ->
  page (do_cell L w3 h t3 a3 l3
          (do_cell L w2 h t2 a2 l2 (do_cell L w1 h t1 a1 l1 s)))
  = page s.
Proof.
  intros Hfit.
  destruct (do_cell_fits L w1 h t1 a1 l1 s Hfit) as [Hp1 Hy1].
  destruct (do_cell_fits L w2 h t2 a2 l2 (do_cell L w1 h t1 a1 l1 s))
    as [Hp2 Hy2]; [now rewrite Hy1|].
  destruct (do_cell_fits L w3 h t3 a3 l3
              (do_cell L w2 h t2 a2 l2 (do_cell L w1 h t1 a1 l1 s)))
    as [Hp3 Hy3]; [now rewrite Hy2, Hy1|].
  congruence.
Qed.

Lemma exec_cons L s c cs : exec L s (c :: cs) = exec L (exec1 L s c) cs.
Proof. reflexivity. Qed.

Lemma exec_nil L s : exec L s [] = s.
Proof. reflexivity. Qed.

Lemma page_ln L s h : page (exec1 L s (ln h)) = page s.
Proof. reflexivity. Qed.

Lemma exec1_cell L s w h t a l : exec1 L s (cell w h t a l) = do_cell L w h t a l s.
Proof. reflexivity. Qed.

Lemma toc_row_fits L ab s i e lk p :
  Qle_bool (y s + 5) (page_break_trigger L) = true ->
  toc_row L ab s i e lk = Ok p -> page p = page s.
Proof.
  intros Hfit. unfold toc_row.
  destruct (Qeq_bool _ 0); [discriminate|].
  destruct (nth_error ab i) as [n|]; cbn [bind or_raise]; [|discriminate].
  intros H. apply Ok_inj in H. subst p.
  rewrite !exec_cons, !exec_nil, page_ln, !exec1_cell.
  now apply three_cells_fit.
Qed.

Lemma toc_trial_one_page L entries ab p :
  first_row_fits L -> (List.length entries <= 1)%nat ->
  toc_trial L entries ab = Ok p -> page p = 1%Z.
Proof.
  intros Hfit Hlen. destruct (toc_heading_place L Hfit) as [Hp Hy].
  unfold toc_trial. destruct entries as [|e [|e' es]]; simpl in Hlen; try lia.
  - cbn [enumerate enumerate_from toc_rows]. intros H.
    apply Ok_inj in H. now subst p.
  - cbn [enumerate enumerate_from toc_rows]. intros H.
    apply bind_ok in H as (q & Hq & Hq'). apply Ok_inj in Hq'. subst q.
    apply toc_row_fits in Hq; [congruence|].
    rewrite Hy. apply Qle_bool_iff. exact Hfit.
Qed.

(** C2, as amended: given enough fuel for two iterations the loop ends, with
    an exception of the trial table or normally; when it ends normally the
    values [assumed_toc_pages] went through are non-decreasing and there are
    one or two of them, so at most as many as rows when there are two rows or
    more; when the heading and a row fit on a page, a table of at most one
    row needs a single iteration. *)
Theorem toc_loop_terminates :
  forall (L : Lib) (entries : list string) (rel : list Z) (fuel : nat),
    (2 <= fuel)%nat ->
    exists r,
      toc_loop L fuel entries rel 1 [] = Some r
      /\ forall seen ab,
          r = Ok (seen, ab) ->
          nondecreasing seen
          /\ (1 <= List.length seen <= 2)%nat
          /\ ((2 <= List.length entries)%nat ->
              (List.length seen <= List.length entries)%nat)
          /\ (first_row_fits L ->
              (List.length seen <= Nat.max 1 (List.length entries))%nat).
Proof.
  intros L entries rel fuel Hfuel.
  pose proof (toc_loop_unrolled L entries rel fuel Hfuel) as Hl.
  destruct (toc_trial L entries (abs_pages_for rel 1)) as [p|e] eqn:E.
  - destruct Hl as [Hge Hl]. eexists. split; [exact Hl|].
    intros seen ab Hr. apply Ok_inj in Hr.
    injection Hr as <- <-.
    destruct (Z.eqb_spec (page p) 1) as [H1|H1];
      cbn [List.length nondecreasing].
    + repeat split; lia.
    + repeat split; try lia.
      intros Hfit.
      destruct (Nat.le_gt_cases (List.length entries) 1) as [Hle|Hgt]; [|lia].
      exfalso. apply H1. exact (toc_trial_one_page L entries _ p Hfit Hle E).
  - eexists. split; [exact Hl|]. intros seen ab Hr. discriminate.
Qed.

Lemma toc_loop_terminates_witness :
  toc_loop Sample.a4 2 ["A"; "B"; "C"] [1; 1; 3]%Z 1 []
  = Some (Ok ([1%Z], [2; 2; 4]%Z))
  /\ nondecreasing [1%Z]
  /\ (List.length [1%Z] <= Nat.max 1 (List.length ["A"; "B"; "C"]))%nat.
Proof.
  destruct (toc_loop_terminates Sample.a4 ["A"; "B"; "C"] [1; 1; 3]%Z 2
                                (le_n 2)) as (r & Hr & Hprop).
  assert (Hv : toc_loop Sample.a4 2 ["A"; "B"; "C"] [1; 1; 3]%Z 1 []
               = Some (Ok ([1%Z], [2; 2; 4]%Z))) by (vm_compute; reflexivity).
  split; [exact Hv|].
  rewrite Hv in Hr. injection Hr as <-.
  destruct (Hprop _ _ eq_refl) as (Hnd & _ & _ & Hfit).
  split; [exact Hnd|].
  apply Hfit. unfold first_row_fits. vm_compute. discriminate.
Defined.

(** C2, as stated, fails on an empty table: the body of [while True] runs once
    although there is no row. *)
Lemma toc_loop_runs_once_without_rows :
  exists d,
    generate_pdf Sample.a4 Sample.no_sympy Sample.jan Sample.net_404 "u" 5
                 [] None [] []
    = Some (Ok d)
    /\ toc_entries d = []
    /\ assumed_trace d = [1%Z]
    /\ ~ (List.length (assumed_trace d) <= List.length (toc_entries d))%nat.
Proof.
  eexists. split; [vm_compute; reflexivity|].
  simpl. repeat split. lia.
Qed.

(** ** The contribution calendar *)

Lemma rects_app a b : rects (a ++ b) = (rects a ++ rects b)%list.
Proof.
  induction a as [|d a IH]; simpl; [reflexivity|].
  destruct d; simpl; now rewrite IH.
Qed.

Lemma rects_do_add_page L s : rects (out (do_add_page L s)) = rects (out s).
Proof.
  unfold do_add_page, footer. destruct (0 <? page s)%Z; simpl; [|reflexivity].
  rewrite rects_app. simpl. apply app_nil_r.
Qed.

Lemma rects_break L h s : rects (out (break_if_needed L h s)) = rects (out s).
Proof.
  unfold break_if_needed. destruct (Qle_bool _ _); [reflexivity|].
  unfold move; cbn [out]. apply rects_do_add_page.
Qed.

Lemma rects_lines L w h ls :
  forall s, rects (out (fold_left (do_line L w h) ls s)) = rects (out s).
Proof.
  induction ls as [|l ls IH]; intros s; simpl; [reflexivity|].
  rewrite IH. unfold do_line, move, draw; cbn [out].
  rewrite rects_app, rects_break. simpl. apply app_nil_r.
Qed.

(** Only [rect] puts a square in the log. *)
Lemma rects_exec1 L s c :
  rects (out (exec1 L s c)) = (rects (out s) ++ rect_of_call c)%list.
Proof.
  destruct c; cbn [exec1 rect_of_call]; rewrite ?app_nil_r;
    try reflexivity.
  - unfold do_cell, move, draw; cbn [out].
    rewrite rects_app, rects_break. simpl. apply app_nil_r.
  - unfold do_multi_cell, move; cbn [out]. apply rects_lines.
  - unfold draw; cbn [out]. rewrite rects_app. simpl. apply app_nil_r.
  - unfold draw; cbn [out]. rewrite rects_app. reflexivity.
  - apply rects_do_add_page.
Qed.

Lemma rects_exec L cs :
  forall s,
    rects (out (exec L s cs)) = (rects (out s) ++ flat_map rect_of_call cs)%list.
Proof.
  induction cs as [|c cs IH]; intros s; simpl.
  - now rewrite app_nil_r.
  - unfold exec in *. rewrite IH, rects_exec1, <- app_assoc. reflexivity.
Qed.

Lemma month_labels_no_rect month_abbr y0 ws :
  forall cur cs,
    month_labels month_abbr y0 cur ws = Ok cs -> flat_map rect_of_call cs = [].
Proof.
  induction ws as [|[w week] ws IH]; intros cur cs; simpl.
  - intros H. apply Ok_inj in H. now subst cs.
  - destruct (contributionDays week) as [|d ds]; [apply IH|].
    destruct (month_abbr (date d)) as [m|]; simpl; [|discriminate].
    destruct (opt_str_eqb cur m); [apply IH|].
    intros H. apply bind_ok in H as (cs' & Hcs' & H). apply Ok_inj in H.
    subst cs. simpl. now apply IH in Hcs'.
Qed.

Lemma day_labels_no_rect y0 : flat_map rect_of_call (day_labels y0) = [].
Proof. reflexivity. Qed.

Lemma week_squares_rects y0 w :
  forall ds col,
    week_squares y0 w ds = Ok col ->
    flat_map rect_of_call col
    = map (fun '(d, _) => (col_x w, (y0 + of_nat d * (square_size + spacing))%Q)) ds.
Proof.
  induction ds as [|[d dy] ds IH]; intros col; simpl.
  - intros H. apply Ok_inj in H. now subst col.
  - intros H. apply bind_ok in H as (c & _ & H).
    apply bind_ok in H as (cs & Hcs & H). apply Ok_inj in H. subst col.
    simpl. now rewrite (IH _ Hcs).
Qed.

Lemma week_columns_rects y0 :
  forall ws cols,
    week_columns y0 ws = Ok cols ->
    flat_map rect_of_call (List.concat cols) = squares_at y0 ws.
Proof.
  induction ws as [|[w week] ws IH]; intros cols; simpl.
  - intros H. apply Ok_inj in H. now subst cols.
  - intros H. apply bind_ok in H as (col & Hcol & H).
    apply bind_ok in H as (cols' & Hcols & H). apply Ok_inj in H. subst cols.
    simpl. rewrite flat_map_app, (IH _ Hcols), (week_squares_rects _ _ _ _ Hcol).
    reflexivity.
Qed.

Lemma week_columns_length y0 :
  forall ws cols, week_columns y0 ws = Ok cols -> List.length cols = List.length ws.
Proof.
  induction ws as [|[w week] ws IH]; intros cols; simpl.
  - intros H. apply Ok_inj in H. now subst cols.
  - intros H. apply bind_ok in H as (col & _ & H).
    apply bind_ok in H as (cols' & Hcols & H). apply Ok_inj in H. subst cols.
    simpl. now rewrite (IH _ Hcols).
Qed.

Lemma length_enumerate_from {A} (l : list A) :
  forall i, List.length (enumerate_from i l) = List.length l.
Proof. induction l as [|a l IH]; intros i; simpl; [|rewrite IH]; reflexivity. Qed.

(** The squares [calendar_grid] draws are those of its week list, column by
    column. *)
Lemma calendar_grid_rects L month_abbr pdf ws p :
  calendar_grid L month_abbr pdf ws = Ok p ->
  rects (out p)
  = (rects (out pdf) ++ squares_at (get_y pdf) (enumerate ws))%list.
Proof.
  unfold calendar_grid. intros H.
  apply bind_ok in H as (labels & Hlabels & H).
  apply bind_ok in H as (cols & Hcols & H). apply Ok_inj in H. subst p.
  rewrite !rects_exec.
  rewrite (month_labels_no_rect _ _ _ _ _ Hlabels), day_labels_no_rect.
  rewrite (week_columns_rects _ _ _ Hcols). simpl.
  now rewrite !app_nil_r.
Qed.

(** C8: for a calendar with at least one week, both passes hand all weeks but
    the first to the drawing code, which draws one column of squares per week
    it is handed, column [j] at abscissa [20 + 3.5 j]: N weeks give N - 1
    columns. *)
Theorem calendar_first_week_discarded :
  forall (L : Lib) (month_abbr : string -> option string) (c : Contrib)
         (w0 : Week) (ws : list Week),
    weeks c = w0 :: ws ->
    (forall pdf rel,
        content_calendar L month_abbr pdf rel (Some c)
        = (p <- calendar_grid L month_abbr (exec L pdf calendar_heading) ws ;;
           Ok (p, (rel ++ [page_no pdf])%list)))
    /\ (forall pdf lks idx,
           final_calendar L month_abbr pdf lks idx (Some c)
           = (link <- or_raise IndexError (nth_error lks idx) ;;
              p <- calendar_grid L month_abbr
                     (exec L (exec L pdf [set_link link (page_no pdf)])
                           calendar_heading) ws ;;
              Ok (p, (idx + 1)%nat)))
    /\ (forall pdf p,
           calendar_grid L month_abbr pdf ws = Ok p ->
           rects (out p)
           = (rects (out pdf) ++ squares_at (get_y pdf) (enumerate ws))%list
           /\ exists cols,
               week_columns (get_y pdf) (enumerate ws) = Ok cols
               /\ Z.of_nat (List.length cols)
                  = (Z.of_nat (List.length (weeks c)) - 1)%Z).
Proof.
  intros L month_abbr c w0 ws Hweeks. split; [|split].
  - intros pdf rel. unfold content_calendar. rewrite Hweeks. reflexivity.
  - intros pdf lks idx. unfold final_calendar. rewrite Hweeks. reflexivity.
  - intros pdf p H. split.
    + exact (calendar_grid_rects L month_abbr pdf ws p H).
    + unfold calendar_grid in H.
      apply bind_ok in H as (labels & _ & H).
      apply bind_ok in H as (cols & Hcols & _).
      exists cols. split; [exact Hcols|].
      rewrite (week_columns_length _ _ _ Hcols). unfold enumerate.
      rewrite length_enumerate_from, Hweeks. simpl List.length. lia.
Qed.

Lemma calendar_first_week_discarded_witness :
  exists p cols,
    calendar_grid Sample.a4 Sample.jan
                  (exec Sample.a4 (new Sample.a4) (add_page :: calendar_heading))
                  (Sample.n_weeks 52)
    = Ok p
    /\ week_columns 25 (enumerate (Sample.n_weeks 52)) = Ok cols
    /\ Z.of_nat (List.length cols) = 52%Z.
Proof.
  destruct (calendar_first_week_discarded
              Sample.a4 Sample.jan (mkContrib 0 (Sample.n_weeks 53))
              (Sample.week_of "2024-01-01") (Sample.n_weeks 52) eq_refl)
    as (_ & _ & H).
  destruct (calendar_grid Sample.a4 Sample.jan
              (exec Sample.a4 (new Sample.a4) (add_page :: calendar_heading))
              (Sample.n_weeks 52)) as [p|e] eqn:E.
  - destruct (H _ _ E) as (_ & cols & Hcols & Hlen).
    exists p, cols. split; [reflexivity|]. split; [exact Hcols | exact Hlen].
  - exfalso. vm_compute in E. discriminate E.
Defined.

(** ** Page numbers in the table of contents *)

(** C1 fails on the example of the spec (three sections, the second one
    running over two pages): the numbers printed in the table are the relative
    pages plus the table's page count, [2; 2; 4], while the sections start,
    and the links of the same rows point, one page further, at [3; 3; 5]. *)
Theorem toc_numbers_one_short_of_section_pages :
  exists d,
    generate_pdf Sample.a4 Sample.no_sympy Sample.jan Sample.net_B "u" 5
                 [Sample.repo "A" 5; Sample.repo "B" 3; Sample.repo "C" 1]
                 None [] []
    = Some (Ok d)
    /\ toc_entries d = ["A"; "B"; "C"]
    /\ rel_pages d = [1; 1; 3]%Z
    /\ assumed_trace d = [1%Z]
    /\ abs_pages d = [2; 2; 4]%Z
    /\ links (final_pdf d) = [3; 3; 5]%Z.
Proof.
  eexists. split; [vm_compute; reflexivity|].
  repeat split.
Qed.

(** ** The math-snippet renderer *)

Lemma take_drop n : forall s, (take n s ++ drop n s)%string = s.
Proof.
  induction n as [|n IH]; intros s; destruct s as [|c s]; simpl;
    try reflexivity.
  now rewrite IH.
Qed.

Lemma drop_empty n : drop n EmptyString = EmptyString.
Proof. destruct n; reflexivity. Qed.

Lemma brace_scan_app a : forall st b,
  brace_scan st (a ++ b) = brace_scan (brace_scan st a) b.
Proof. induction a as [|c a IH]; intros st b; simpl; [reflexivity | apply IH]. Qed.

Lemma has_char_app c a b :
  has_char c (a ++ b) = has_char c a || has_char c b.
Proof.
  induction a as [|d a IH]; simpl; [reflexivity|].
  rewrite IH. apply orb_assoc.
Qed.

Lemma brace_free_cons c s :
  brace_free (String c s) = true ->
  Ascii.eqb c "{" = false /\ Ascii.eqb c "}" = false /\ brace_free s = true.
Proof.
  unfold brace_free. cbn [has_char].
  destruct (Ascii.eqb c "{"), (Ascii.eqb c "}"); cbn [orb negb andb];
    intros H; try discriminate H.
  - rewrite andb_false_r in H. discriminate H.
  - repeat split. exact H.
Qed.

Lemma brace_scan_free s :
  brace_free s = true -> forall st, brace_scan st s = st.
Proof.
  induction s as [|c s IH]; intros H st; simpl; [reflexivity|].
  apply brace_free_cons in H as (H1 & H2 & H3).
  unfold brace_step. rewrite H1, H2. now apply IH.
Qed.

Lemma brace_free_app a b :
  brace_free a = true -> brace_free b = true -> brace_free (a ++ b) = true.
Proof.
  unfold brace_free. rewrite !has_char_app. intros Ha Hb.
  apply andb_true_iff in Ha as [Ha1 Ha2]. apply andb_true_iff in Hb as [Hb1 Hb2].
  apply negb_true_iff in Ha1, Ha2, Hb1, Hb2.
  now rewrite Ha1, Ha2, Hb1, Hb2.
Qed.

(** An opening brace, a text without braces and a closing brace leave the
    matching state as it was. *)
Lemma brace_scan_group g st :
  brace_free g = true ->
  brace_scan st (String "{" (g ++ String "}" EmptyString)) = st.
Proof.
  intros Hg. cbn [brace_scan]. rewrite brace_scan_app, (brace_scan_free _ Hg).
  destruct st as [a b]. reflexivity.
Qed.

Lemma span_spec p s :
  forall g rest,
    span p s = (g, rest) ->
    s = (g ++ rest)%string
    /\ (forall c, has_char c g = true -> p c = true)
    /\ match rest with
       | String c _ => p c = false
       | EmptyString => True
       end.
Proof.
  induction s as [|c s IH]; intros g rest; simpl.
  - intros H. injection H as <- <-. repeat split. intros c H. discriminate.
  - destruct (p c) eqn:Hp.
    + destruct (span p s) as [a b]. intros H. injection H as <- <-.
      destruct (IH a b eq_refl) as (-> & Hall & Hrest).
      repeat split; [|exact Hrest].
      intros d Hd. simpl in Hd. apply orb_true_iff in Hd as [Hd|Hd].
      * apply Ascii.eqb_eq in Hd. now subst d.
      * now apply Hall.
    + intros H. injection H as <- <-. repeat split; [|exact Hp].
      intros d Hd. discriminate.
Qed.

Lemma span_not_brace_free s g rest :
  span Re.not_brace s = (g, rest) -> brace_free g = true.
Proof.
  intros H. destruct (span_spec _ _ _ _ H) as (_ & Hall & _).
  unfold brace_free.
  destruct (has_char "{" g) eqn:H1; [apply Hall in H1; discriminate|].
  destruct (has_char "}" g) eqn:H2; [apply Hall in H2; discriminate|].
  reflexivity.
Qed.

(** What [{([^{}]+)}] matches. *)
Lemma braced_spec s g rest :
  Re.braced s = Some (g, rest) ->
  s = String "{" (g ++ String "}" rest) /\ brace_free g = true.
Proof.
  unfold Re.braced. destruct s as [|c s1]; [discriminate|].
  destruct (Ascii.eqb_spec c "{") as [->|Hc].
  - destruct (span Re.not_brace s1) as [a b] eqn:E.
    pose proof (span_not_brace_free _ _ _ E) as Hfree.
    destruct (span_spec _ _ _ _ E) as (-> & _ & _).
    destruct a as [|x a]; [discriminate|].
    destruct b as [|d b]; [discriminate|].
    destruct (Ascii.eqb_spec d "}") as [->|Hd].
    + intros H. injection H as <- <-. split; [reflexivity | exact Hfree].
    + destruct d as [[] [] [] [] [] [] [] []]; try discriminate.
      contradiction.
  - destruct c as [[] [] [] [] [] [] [] []]; try discriminate.
    contradiction.
Qed.

Lemma take_app_length a b : take (length a) (a ++ b) = a.
Proof. induction a as [|c a IH]; simpl; [now destruct b | now rewrite IH]. Qed.

Lemma prefix_spec k : forall s,
  prefix k s = true -> s = (k ++ drop (length k) s)%string.
Proof.
  induction k as [|c k IH]; intros s.
  - reflexivity.
  - destruct s as [|d s]; simpl; [discriminate|].
    destruct (ascii_dec c d) as [->|]; [|discriminate].
    intros H. now rewrite <- (IH _ H).
Qed.

Lemma length_drop_pred len c s :
  (1 <= len)%nat -> drop (pred len) s = drop len (String c s).
Proof. destruct len; [lia | reflexivity]. Qed.

(** A substitution by a brace-neutral matcher keeps the matching state. *)
Lemma sub_from_brace_scan m :
  brace_neutral m ->
  forall s st skip,
    (skip <= length s)%nat ->
    brace_scan st (Re.sub_from m skip s) = brace_scan st (drop skip s).
Proof.
  intros Hm. induction s as [|c s IH]; intros st skip Hskip.
  - simpl. now rewrite drop_empty.
  - destruct skip as [|n].
    + cbn [Re.sub_from drop]. destruct (m (String c s)) as [[r len]|] eqn:E.
      * destruct (Hm _ _ _ E) as (Hlen & Hr).
        rewrite brace_scan_app, Hr, IH by (simpl in Hlen; lia).
        rewrite (length_drop_pred len c s) by lia.
        rewrite <- brace_scan_app, take_drop. reflexivity.
      * cbn [brace_scan]. apply (IH _ 0%nat). lia.
    + cbn [Re.sub_from drop]. apply IH. simpl in Hskip. lia.
Qed.

Lemma sub_brace_scan m s :
  brace_neutral m -> forall st, brace_scan st (Re.sub m s) = brace_scan st s.
Proof.
  intros Hm st. unfold Re.sub.
  rewrite (sub_from_brace_scan m Hm s st 0) by lia. reflexivity.
Qed.

(** A substitution that puts back what it matched changes nothing. *)
Lemma sub_from_puts_back m :
  puts_back m ->
  forall s skip, (skip <= length s)%nat -> Re.sub_from m skip s = drop skip s.
Proof.
  intros Hm. induction s as [|c s IH]; intros skip Hskip.
  - simpl. now rewrite drop_empty.
  - destruct skip as [|n].
    + cbn [Re.sub_from drop]. destruct (m (String c s)) as [[r len]|] eqn:E.
      * destruct (Hm _ _ _ E) as (Hlen & ->).
        rewrite IH by (simpl in Hlen; lia).
        rewrite (length_drop_pred len c s) by lia. apply take_drop.
      * f_equal. apply (IH 0%nat). lia.
    + cbn [Re.sub_from drop]. apply IH. simpl in Hskip. lia.
Qed.

(** A substitution whose pattern matches nowhere changes nothing. *)
Lemma sub_no_match m (P : string -> Prop) :
  (forall c s, P (String c s) -> P s) ->
  (forall s, P s -> m s = None) ->
  forall s, P s -> Re.sub m s = s.
Proof.
  intros Htail Hnone. unfold Re.sub. induction s as [|c s IH]; intros Hs.
  - reflexivity.
  - cbn [Re.sub_from]. rewrite (Hnone _ Hs). f_equal.
    apply IH. now apply Htail in Hs.
Qed.

(** [str.replace] is the substitution of a literal pattern. *)
Lemma replace_from_literal k v :
  forall s skip, replace_from k v skip s = Re.sub_from (literal k v) skip s.
Proof.
  induction s as [|c s IH]; intros skip; [reflexivity|].
  destruct skip as [|n]; cbn [replace_from Re.sub_from]; [|apply IH].
  unfold literal at 1. destruct (prefix k (String c s)); now rewrite IH.
Qed.

Lemma literal_brace_neutral k v :
  k <> EmptyString -> brace_free k = true -> brace_free v = true ->
  brace_neutral (literal k v).
Proof.
  intros Hk Hbk Hbv s r len. unfold literal.
  destruct (prefix k s) eqn:E; [|discriminate].
  intros H. injection H as <- <-.
  pose proof (prefix_spec _ _ E) as Hs.
  set (t := drop (length k) s) in Hs. clearbody t. subst s.
  split.
  - split.
    + destruct k; [contradiction | simpl; lia].
    + rewrite length_append. lia.
  - intros st. rewrite take_app_length.
    now rewrite !brace_scan_free.
Qed.

Lemma script_char_puts_back mark : puts_back (Re.script_char mark).
Proof.
  intros s r len. unfold Re.script_char.
  destruct s as [|c [|a s]]; try discriminate.
  destruct (Ascii.eqb_spec c mark) as [->|]; [|discriminate].
  destruct (is_alnum a); [|discriminate].
  intros H. injection H as <- <-. simpl. split; [lia | reflexivity].
Qed.

Lemma puts_back_brace_neutral m : puts_back m -> brace_neutral m.
Proof.
  intros Hm s r len E. destruct (Hm _ _ _ E) as (Hlen & ->).
  split; [exact Hlen | reflexivity].
Qed.

Lemma take_group g rest :
  take (S (S (length g))) (String "{" (g ++ String "}" rest))
  = String "{" (g ++ String "}" EmptyString).
Proof.
  cbn [take]. f_equal.
  induction g as [|x g IH]; simpl; [reflexivity | now rewrite <- IH].
Qed.

Lemma script_braced_brace_neutral mark : brace_neutral (Re.script_braced mark).
Proof.
  intros s r len. unfold Re.script_braced.
  destruct s as [|c s1]; [discriminate|].
  destruct (Ascii.eqb_spec c mark) as [->|]; [|discriminate].
  destruct (Re.braced s1) as [[g rest]|] eqn:E; [|discriminate].
  intros H. injection H as <- <-.
  destruct (braced_spec _ _ _ E) as (-> & Hg).
  split.
  - simpl. rewrite length_append. simpl. lia.
  - intros st. cbn [Nat.add].
    change (take (S (S (S (length g))))
                 (String mark (String "{" (g ++ String "}" rest))))
      with (String mark (take (S (S (length g)))
                              (String "{" (g ++ String "}" rest)))).
    rewrite take_group.
    change (brace_scan st (String mark g))
      with (brace_scan (brace_step st mark) g).
    change (brace_scan st (String mark (String "{" (g ++ String "}" EmptyString))))
      with (brace_scan (brace_step st mark)
                       (String "{" (g ++ String "}" EmptyString))).
    now rewrite brace_scan_group, brace_scan_free.
Qed.

Lemma take_add a : forall n s,
  take (length a + n) (a ++ s) = (a ++ take n s)%string.
Proof. induction a as [|c a IH]; intros n s; simpl; [reflexivity | now rewrite IH]. Qed.

Lemma append_group a rest :
  String "{" (a ++ String "}" rest)
  = (String "{" (a ++ String "}" EmptyString) ++ rest)%string.
Proof. simpl. now rewrite append_assoc. Qed.

Lemma frac_brace_neutral : brace_neutral Re.frac.
Proof.
  intros s r len. unfold Re.frac, startswith.
  destruct (prefix "\frac" s) eqn:Ep; [|discriminate].
  destruct (Re.braced (drop 5 s)) as [[a r1]|] eqn:Ea; [|discriminate].
  destruct (Re.braced r1) as [[b r2]|] eqn:Eb; [|discriminate].
  intros H. injection H as Hr Hl. subst r.
  pose proof (prefix_spec _ _ Ep) as Hs. change (length "\frac") with 5%nat in Hs.
  destruct (braced_spec _ _ _ Ea) as (Hd & Ha).
  destruct (braced_spec _ _ _ Eb) as (-> & Hb).
  rewrite Hd in Hs. clear Ep Ea Eb Hd.
  set (ga := String "{" (a ++ String "}" EmptyString)).
  set (gb := String "{" (b ++ String "}" EmptyString)).
  assert (Hs' : s = (("\frac" ++ ga ++ gb) ++ r2)%string).
  { rewrite Hs, (append_group a), (append_group b).
    fold ga gb. now rewrite !append_assoc. }
  assert (Hlen : len = length ("\frac" ++ ga ++ gb)).
  { rewrite <- Hl, !length_append. unfold ga, gb. simpl. rewrite !length_append.
    simpl. lia. }
  clear Hs Hl. subst s len. split.
  - rewrite !length_append. change (length "\frac") with 5%nat. lia.
  - intros st. rewrite take_app_length.
    assert (Hr : brace_free (a ++ "/" ++ b) = true).
    { apply brace_free_app; [exact Ha|]. now apply (brace_free_app "/"). }
    rewrite (brace_scan_free _ Hr).
    rewrite !brace_scan_app, (brace_scan_free "\frac" eq_refl).
    unfold ga, gb. now rewrite !brace_scan_group.
Qed.

Lemma symbols_brace_free :
  forallb (fun kv => Markup.nonempty (fst kv)
                     && brace_free (fst kv) && brace_free (snd kv))
          Latex.symbols = true.
Proof. vm_compute. reflexivity. Qed.

Lemma replace_brace_scan k v s :
  k <> EmptyString -> brace_free k = true -> brace_free v = true ->
  forall st, brace_scan st (replace k v s) = brace_scan st s.
Proof.
  intros Hk Hbk Hbv st. unfold replace. rewrite replace_from_literal.
  apply (sub_brace_scan (literal k v)). now apply literal_brace_neutral.
Qed.

Lemma replace_all_brace_scan l :
  forallb (fun kv => Markup.nonempty (fst kv)
                     && brace_free (fst kv) && brace_free (snd kv)) l = true ->
  forall tex st,
    brace_scan st (fold_left (fun t kv => replace (fst kv) (snd kv) t) l tex)
    = brace_scan st tex.
Proof.
  induction l as [|[k v] l IH]; intros Hl tex st; simpl; [reflexivity|].
  simpl in Hl. apply andb_true_iff in Hl as [Hkv Hl].
  apply andb_true_iff in Hkv as [Hkv Hv]. apply andb_true_iff in Hkv as [Hk Hbk].
  rewrite (IH Hl). apply replace_brace_scan; try assumption.
  intros ->. discriminate Hk.
Qed.

(** Whatever the fallback rewrites, it removes no unmatched brace and leaves
    none behind. *)
Lemma fallback_unmatched_braces tex :
  unmatched_braces (Latex.fallback tex) = unmatched_braces tex.
Proof.
  unfold unmatched_braces, Latex.fallback, Latex.fractions, Latex.subscripts,
    Latex.superscripts, Latex.replace_symbols.
  rewrite (sub_brace_scan _ _ frac_brace_neutral).
  rewrite (sub_brace_scan _ _ (puts_back_brace_neutral _ (script_char_puts_back "_"))).
  rewrite (sub_brace_scan _ _ (script_braced_brace_neutral "_")).
  rewrite (sub_brace_scan _ _ (puts_back_brace_neutral _ (script_char_puts_back "^"))).
  rewrite (sub_brace_scan _ _ (script_braced_brace_neutral "^")).
  apply replace_all_brace_scan. exact symbols_brace_free.
Qed.

(** The single-character script passes are the identity. *)
Lemma sub_script_char mark s : Re.sub (Re.script_char mark) s = s.
Proof.
  unfold Re.sub.
  rewrite (sub_from_puts_back _ (script_char_puts_back mark) s 0) by lia.
  reflexivity.
Qed.

Lemma occurs_cons k c s :
  occurs k (String c s) = false ->
  prefix k (String c s) = false /\ occurs k s = false.
Proof. cbn [occurs]. intros H. now apply orb_false_iff in H. Qed.

Lemma replace_no_occurrence k v s :
  occurs k s = false -> replace k v s = s.
Proof.
  unfold replace. induction s as [|c s IH]; intros H; [reflexivity|].
  apply occurs_cons in H as [Hp Ho]. cbn [replace_from]. rewrite Hp.
  f_equal. now apply IH.
Qed.

Lemma replace_all_no_occurrence l tex :
  forallb (fun kv => negb (occurs (fst kv) tex)) l = true ->
  fold_left (fun t kv => replace (fst kv) (snd kv) t) l tex = tex.
Proof.
  induction l as [|[k v] l IH]; intros H; simpl; [reflexivity|].
  simpl in H. apply andb_true_iff in H as [Hk Hl]. apply negb_true_iff in Hk.
  rewrite (replace_no_occurrence _ _ _ Hk). now apply IH.
Qed.

Lemma has_char_tail c d s : has_char c (String d s) = false -> has_char c s = false.
Proof. simpl. intros H. now apply orb_false_iff in H. Qed.

Lemma has_char_drop c n : forall s,
  has_char c s = false -> has_char c (drop n s) = false.
Proof.
  induction n as [|n IH]; intros s H; destruct s as [|d s]; simpl; try assumption.
  apply IH. now apply has_char_tail in H.
Qed.

(** No brace group without both kinds of braces. *)
Lemma braced_needs_braces s :
  has_char "}" s = false \/ has_char "{" s = false -> Re.braced s = None.
Proof.
  intros H. destruct (Re.braced s) as [[g rest]|] eqn:E; [|reflexivity].
  destruct (braced_spec _ _ _ E) as (-> & _). exfalso.
  destruct H as [H|H].
  - apply has_char_tail in H. rewrite has_char_app in H.
    apply orb_false_iff in H as [_ H]. discriminate H.
  - discriminate H.
Qed.

Lemma one_kind_tail c s : one_kind_of_brace (String c s) -> one_kind_of_brace s.
Proof. intros [H|H]; [left | right]; now apply has_char_tail in H. Qed.

Lemma one_kind_drop n s : one_kind_of_brace s -> one_kind_of_brace (drop n s).
Proof. intros [H|H]; [left | right]; now apply has_char_drop. Qed.

Lemma sub_script_braced_one_kind mark s :
  one_kind_of_brace s -> Re.sub (Re.script_braced mark) s = s.
Proof.
  apply (sub_no_match _ one_kind_of_brace).
  - apply one_kind_tail.
  - intros t Ht. unfold Re.script_braced. destruct t as [|c t]; [reflexivity|].
    rewrite (braced_needs_braces t (one_kind_tail _ _ Ht)).
    now destruct (Ascii.eqb c mark).
Qed.

Lemma sub_frac_one_kind s : one_kind_of_brace s -> Re.sub Re.frac s = s.
Proof.
  apply (sub_no_match _ one_kind_of_brace).
  - apply one_kind_tail.
  - intros t Ht. unfold Re.frac.
    rewrite (braced_needs_braces _ (one_kind_drop 5 _ Ht)).
    now destruct (startswith t "\frac").
Qed.

(** A snippet in which no table key occurs and no brace group can be closed
    is a fixed point of the fallback. *)
Lemma fallback_fixed_point tex :
  no_key tex = true -> one_kind_of_brace tex -> Latex.fallback tex = tex.
Proof.
  intros Hk Hb.
  unfold Latex.fallback, Latex.fractions, Latex.subscripts, Latex.superscripts,
    Latex.replace_symbols.
  rewrite (replace_all_no_occurrence _ _ Hk).
  rewrite !sub_script_char.
  rewrite (sub_script_braced_one_kind "^" tex Hb).
  rewrite (sub_script_braced_one_kind "_" tex Hb).
  now apply sub_frac_one_kind.
Qed.

(** C9, as amended: the renderer always returns a string, SymPy's when its
    parser accepts the snippet and the fallback's otherwise; the fallback
    returns unchanged every snippet in which no key of the symbol table occurs
    and whose braces are all opening or all closing (unknown commands,
    unmatched braces), and in every snippet it keeps the unmatched braces. *)
Theorem latex_to_unicode_total :
  forall (sympy : string -> option string) (tex : string),
    (exists out,
        Latex.latex_to_unicode sympy tex = out
        /\ (sympy tex = None -> out = Latex.fallback tex)
        /\ (forall p, sympy tex = Some p -> out = p))
    /\ (no_key tex = true ->
        has_char "}" tex = false \/ has_char "{" tex = false ->
        Latex.fallback tex = tex)
    /\ unmatched_braces (Latex.fallback tex) = unmatched_braces tex.
Proof.
  intros sympy tex. split; [|split].
  - exists (Latex.latex_to_unicode sympy tex). unfold Latex.latex_to_unicode.
    split; [reflexivity|]. split.
    + intros ->. reflexivity.
    + intros p ->. reflexivity.
  - intros Hk Hb. now apply fallback_fixed_point.
  - apply fallback_unmatched_braces.
Qed.

Lemma latex_to_unicode_total_witness :
  Latex.latex_to_unicode Sample.no_sympy "\foo{x + \bar" = "\foo{x + \bar"
  /\ unmatched_braces (Latex.fallback "x^{2}}") = (1, 0)%nat.
Proof.
  destruct (latex_to_unicode_total Sample.no_sympy "\foo{x + \bar")
    as ((out & Hout & Hnone & _) & Hfix & _).
  destruct (latex_to_unicode_total Sample.no_sympy "x^{2}}") as (_ & _ & Hbr).
  split.
  - rewrite Hout, (Hnone eq_refl). apply Hfix.
    + vm_compute. reflexivity.
    + left. reflexivity.
  - rewrite Hbr. reflexivity.
Defined.

(** C9, as stated, fails on a command that begins with a key of the table:
    [\pmod] is not in the table, yet the fallback turns its first three
    characters, the key [\pm], into [+/-]. *)
Lemma fallback_rewrites_inside_unknown_command :
  existsb (fun kv => String.eqb (fst kv) "\pmod") Latex.symbols = false
  /\ Latex.latex_to_unicode Sample.no_sympy "\pmod" = "+/-od"
  /\ Latex.latex_to_unicode Sample.no_sympy "\pmod" <> "\pmod".
Proof. repeat split; vm_compute; congruence. Qed.

(** ** The printed page numbers against the pages of the sections *)

Lemma links_do_add_page L s : links (do_add_page L s) = links s.
Proof. unfold do_add_page, footer. destruct (0 <? page s)%Z; reflexivity. Qed.

Lemma links_break L h s : links (break_if_needed L h s) = links s.
Proof.
  unfold break_if_needed. destruct (Qle_bool _ _); [reflexivity|].
  unfold move; cbn [links]. apply links_do_add_page.
Qed.

Lemma links_do_cell L w h t a l s : links (do_cell L w h t a l s) = links s.
Proof. unfold do_cell, move, draw; cbn [links]. apply links_break. Qed.

Lemma links_lines L w h ls :
  forall s, links (fold_left (do_line L w h) ls s) = links s.
Proof.
  induction ls as [|l ls IH]; intros s; simpl; [reflexivity|].
  rewrite IH. unfold do_line, move, draw; cbn [links]. apply links_break.
Qed.

Lemma links_exec1 L s c :
  no_link_call c = true -> links (exec1 L s c) = links s.
Proof.
  destruct c; cbn [exec1 no_link_call]; intros H; try reflexivity.
  - apply links_do_cell.
  - unfold do_multi_cell, move; cbn [links]. apply links_lines.
  - apply links_do_add_page.
  - discriminate H.
Qed.

Lemma links_exec L cs :
  forallb no_link_call cs = true -> forall s, links (exec L s cs) = links s.
Proof.
  induction cs as [|c cs IH]; intros H s; [reflexivity|].
  simpl in H. apply andb_true_iff in H as [Hc Hcs].
  rewrite exec_cons, (IH Hcs). now apply links_exec1.
Qed.

Lemma forallb_flat_map {A B} (p : B -> bool) (f : A -> list B) l :
  (forall a, forallb p (f a) = true) -> forallb p (flat_map f l) = true.
Proof.
  intros H. induction l as [|a l IH]; simpl; [reflexivity|].
  rewrite forallb_app, H, IH. reflexivity.
Qed.

Lemma process_inline_no_link sympy text :
  forallb no_link_call (process_inline sympy text) = true.
Proof.
  unfold process_inline. apply forallb_flat_map. intros [m mpart].
  destruct (Nat.odd m); [reflexivity|].
  unfold code_level. apply forallb_flat_map. intros [c cpart].
  destruct (Nat.odd c); [reflexivity|].
  unfold bold_level. apply forallb_flat_map. intros [b bpart].
  destruct (Nat.odd b), (nonempty bpart); reflexivity.
Qed.

Lemma process_readme_line_no_link sympy line icb iic :
  forallb no_link_call (fst (process_readme_line sympy line icb iic)) = true.
Proof.
  unfold process_readme_line.
  destruct (startswith (strip line) "```"); [reflexivity|].
  destruct icb; [reflexivity|].
  destruct (Re.match_ul (lstrip line)) as [g2|].
  { cbn [fst]. rewrite !forallb_app, process_inline_no_link. reflexivity. }
  destruct (Re.match_ol (lstrip line)) as [[g1 g2]|].
  { cbn [fst]. rewrite !forallb_app, process_inline_no_link. reflexivity. }
  destruct (Re.match_header (lstrip line)) as [[g1 g2]|]; [reflexivity|].
  cbn [fst]. rewrite !forallb_app, process_inline_no_link. reflexivity.
Qed.

Lemma process_lines_no_link sympy lines :
  forall icb iic, forallb no_link_call (process_lines sympy lines icb iic) = true.
Proof.
  induction lines as [|line lines IH]; intros icb iic; [reflexivity|].
  cbn [process_lines].
  pose proof (process_readme_line_no_link sympy line icb iic) as H.
  destruct (process_readme_line sympy line icb iic) as [cs [icb' iic']].
  cbn [fst] in H. now rewrite forallb_app, H, IH.
Qed.

Lemma readme_calls_no_link sympy readme :
  forallb no_link_call (readme_calls sympy readme) = true.
Proof.
  unfold readme_calls. destruct readme as [r|]; [|reflexivity].
  destruct (nonempty r); [|reflexivity].
  rewrite forallb_app, process_lines_no_link. reflexivity.
Qed.

Lemma links_repo_section L sympy net username s r p :
  repo_section L sympy net username s r = Ok p -> links p = links s.
Proof.
  unfold repo_section. intros H. apply bind_ok in H as (readme & _ & H).
  apply Ok_inj in H. subst p.
  rewrite !links_exec; try reflexivity. apply readme_calls_no_link.
Qed.

Lemma month_labels_no_link month_abbr y0 ws :
  forall cur cs,
    month_labels month_abbr y0 cur ws = Ok cs -> forallb no_link_call cs = true.
Proof.
  induction ws as [|[w week] ws IH]; intros cur cs; simpl.
  - intros H. apply Ok_inj in H. now subst cs.
  - destruct (contributionDays week) as [|d ds]; [apply IH|].
    destruct (month_abbr (date d)) as [m|]; simpl; [|discriminate].
    destruct (opt_str_eqb cur m); [apply IH|].
    intros H. apply bind_ok in H as (cs' & Hcs' & H). apply Ok_inj in H.
    subst cs. simpl. now apply IH in Hcs'.
Qed.

Lemma week_squares_no_link y0 w :
  forall ds col, week_squares y0 w ds = Ok col -> forallb no_link_call col = true.
Proof.
  induction ds as [|[d dy] ds IH]; intros col; simpl.
  - intros H. apply Ok_inj in H. now subst col.
  - intros H. apply bind_ok in H as (c & _ & H).
    apply bind_ok in H as (cs & Hcs & H). apply Ok_inj in H. subst col.
    simpl. now apply IH.
Qed.

Lemma week_columns_no_link y0 :
  forall ws cols,
    week_columns y0 ws = Ok cols -> forallb no_link_call (List.concat cols) = true.
Proof.
  induction ws as [|[w week] ws IH]; intros cols; simpl.
  - intros H. apply Ok_inj in H. now subst cols.
  - intros H. apply bind_ok in H as (col & Hcol & H).
    apply bind_ok in H as (cols' & Hcols & H). apply Ok_inj in H. subst cols.
    simpl. rewrite forallb_app, (week_squares_no_link _ _ _ _ Hcol).
    now apply IH.
Qed.

Lemma links_calendar_grid L month_abbr s ws p :
  calendar_grid L month_abbr s ws = Ok p -> links p = links s.
Proof.
  unfold calendar_grid. intros H.
  apply bind_ok in H as (labels & Hlabels & H).
  apply bind_ok in H as (cols & Hcols & H). apply Ok_inj in H. subst p.
  rewrite !links_exec; try reflexivity.
  - now apply month_labels_no_link in Hlabels.
  - now apply week_columns_no_link in Hcols.
Qed.

Lemma links_toc_row L ab s i e lk p :
  toc_row L ab s i e lk = Ok p -> links p = links s.
Proof.
  unfold toc_row. destruct (Qeq_bool _ 0); [discriminate|].
  destruct (nth_error ab i) as [n|]; cbn [bind or_raise]; [|discriminate].
  intros H. apply Ok_inj in H. subst p.
  rewrite !links_exec; reflexivity.
Qed.

Lemma shifted_forget_font k s1 s2 : shifted k s1 s2 -> shifted_nf k s1 s2.
Proof. intros (Hp & Hx & Hy & _). repeat split; assumption. Qed.

(** Two documents at the same place become shifted in the full sense as soon
    as the same font is selected in both. *)
Lemma shifted_after_set_font L k fam st sz cs s1 s2 :
  shifted_nf k s1 s2 ->
  shifted k (exec L s1 (set_font fam st sz :: cs))
            (exec L s2 (set_font fam st sz :: cs)).
Proof.
  intros (Hp & Hx & Hy). rewrite !exec_cons. apply shifted_exec.
  cbn [exec1]. now apply shifted_with_font.
Qed.

Lemma calendar_grid_shifted L month_abbr k ws s1 s2 p1 p2 :
  shifted k s1 s2 ->
  calendar_grid L month_abbr s1 ws = Ok p1 ->
  calendar_grid L month_abbr s2 ws = Ok p2 ->
  shifted k p1 p2.
Proof.
  intros H. unfold calendar_grid, get_y.
  assert (Hy : y s2 = y s1) by apply H. rewrite Hy.
  intros H1 H2.
  apply bind_ok in H1 as (labels & Hlabels & H1).
  apply bind_ok in H2 as (labels' & Hlabels' & H2).
  rewrite Hlabels in Hlabels'. apply Ok_inj in Hlabels'. subst labels'.
  apply bind_ok in H1 as (cols & Hcols & H1).
  apply bind_ok in H2 as (cols' & Hcols' & H2).
  rewrite Hcols in Hcols'. apply Ok_inj in Hcols'. subst cols'.
  apply Ok_inj in H1. apply Ok_inj in H2. subst p1 p2.
  now do 4 apply shifted_exec.
Qed.

Lemma repo_section_shifted L sympy net username k r s1 s2 p1 p2 :
  shifted_nf k s1 s2 ->
  repo_section L sympy net username s1 r = Ok p1 ->
  repo_section L sympy net username s2 r = Ok p2 ->
  shifted k p1 p2.
Proof.
  intros H. unfold repo_section. intros H1 H2.
  apply bind_ok in H1 as (readme & Hr & H1).
  apply bind_ok in H2 as (readme' & Hr' & H2).
  rewrite Hr in Hr'. apply Ok_inj in Hr'. subst readme'.
  apply Ok_inj in H1. apply Ok_inj in H2. subst p1 p2.
  do 2 apply shifted_exec. unfold repo_head.
  now apply shifted_after_set_font.
Qed.

Lemma bind_later n v t ls :
  Fpdf.bind (S (S n)) v (t :: ls) = t :: Fpdf.bind (S n) v ls.
Proof. reflexivity. Qed.

(** Binding the first link that is still free. *)
Lemma bind_next done : forall v t rest,
  Fpdf.bind (S (List.length done)) v (done ++ t :: rest) = (done ++ v :: rest)%list.
Proof.
  induction done as [|d done IH]; intros v t rest; [reflexivity|].
  cbn [List.length app]. now rewrite bind_later, IH.
Qed.

(** The repository sections: where the measuring pass records page [r], the
    final pass binds the link of the section to page [r + k]. *)
Lemma final_repos_links L sympy net username k lks :
  forall rs s1 s2 rel idx p1 rel' p2 done zeros,
    shifted_nf k s1 s2 ->
    content_repos L sympy net username s1 rel rs = Ok (p1, rel') ->
    final_repos L sympy net username s2 lks idx rs = Ok p2 ->
    (forall j, (idx <= j < idx + List.length rs)%nat ->
               nth_error lks j = Some (S j)) ->
    links s2 = (done ++ zeros)%list ->
    List.length done = idx ->
    List.length zeros = List.length rs ->
    exists newrel,
      rel' = (rel ++ newrel)%list
      /\ links p2 = (done ++ map (fun r => (r + k)%Z) newrel)%list.
Proof.
  induction rs as [|r rs IH];
    intros s1 s2 rel idx p1 rel' p2 done zeros Hs Hc Hf Hlks Hlinks Hdone Hzeros.
  - cbn [content_repos final_repos] in Hc, Hf.
    apply Ok_inj in Hc. apply Ok_inj in Hf. injection Hc as <- <-. subst p2.
    exists []. destruct zeros; [|discriminate Hzeros].
    split; [now rewrite app_nil_r | exact Hlinks].
  - cbn [content_repos final_repos] in Hc, Hf.
    apply bind_ok in Hc as (q1 & Hq1 & Hc).
    rewrite (Hlks idx) in Hf by (simpl; lia). cbn [or_raise bind] in Hf.
    apply bind_ok in Hf as (q2 & Hq2 & Hf).
    destruct zeros as [|z zeros]; [discriminate Hzeros|].
    assert (Hsh : shifted k q1 q2).
    { apply (repo_section_shifted L sympy net username k r s1
               (exec L s2 [set_link (S idx) (page_no s2)])); assumption. }
    assert (Hl2 : links q2 = (done ++ page_no s2 :: zeros)%list).
    { rewrite (links_repo_section _ _ _ _ _ _ _ Hq2).
      rewrite exec_cons, exec_nil. cbn [exec1 with_links links].
      rewrite Hlinks, <- Hdone. apply bind_next. }
    destruct (IH q1 q2 (rel ++ [page_no s1])%list (idx + 1)%nat p1 rel' p2
                 (done ++ [page_no s2])%list zeros)
      as (newrel & Hrel & Hp2); try assumption.
    + now apply shifted_forget_font.
    + intros j Hj. apply Hlks. simpl. lia.
    + now rewrite Hl2, <- app_assoc.
    + rewrite length_app. simpl. lia.
    + simpl in Hzeros. lia.
    + exists (page_no s1 :: newrel). split.
      * now rewrite Hrel, <- app_assoc.
      * rewrite Hp2, <- app_assoc. cbn [map app]. do 2 f_equal.
        unfold page_no. apply Hs.
Qed.

(** The rows of the final table stand where those of the trial table stand,
    [k] pages further; each row gets a fresh link, numbered in order. *)
Lemma final_toc_rows_shifted L k ab :
  forall es s1 s2 lks0 p1 p2 lks,
    shifted k s1 s2 ->
    toc_rows L ab s1 es = Ok p1 ->
    final_toc_rows L ab s2 lks0 es = Ok (p2, lks) ->
    shifted k p1 p2
    /\ lks = (lks0 ++ seq (S (List.length (links s2))) (List.length es))%list
    /\ links p2 = (links s2 ++ repeat 0%Z (List.length es))%list.
Proof.
  induction es as [|[i e] es IH]; intros s1 s2 lks0 p1 p2 lks Hs H1 H2.
  - cbn [toc_rows final_toc_rows] in H1, H2.
    apply Ok_inj in H1. apply Ok_inj in H2. injection H2 as <- <-. subst p1.
    cbn [List.length seq repeat]. now rewrite !app_nil_r.
  - cbn [toc_rows final_toc_rows add_link] in H1, H2.
    apply bind_ok in H1 as (q1 & Hq1 & H1).
    apply bind_ok in H2 as (q2 & Hq2 & H2).
    assert (Hsh : shifted k q1 q2).
    { pose proof (toc_row_shifted L k ab ab s1
                    (with_links (links s2 ++ [0%Z]) s2) i e NoLink
                    (Internal (S (List.length (links s2))))) as Hr.
      rewrite Hq1, Hq2 in Hr. apply Hr.
      - exact Hs.
      - intros j. reflexivity. }
    pose proof (links_toc_row _ _ _ _ _ _ _ Hq2) as Hl2. cbn [with_links links] in Hl2.
    destruct (IH q1 q2 _ p1 p2 lks Hsh H1 H2) as (Hp & Hlks & Hlinks).
    split; [exact Hp|]. rewrite Hlks, Hlinks, Hl2, length_app.
    cbn [List.length seq repeat]. rewrite Nat.add_1_r, <- !app_assoc.
    split; reflexivity.
Qed.

(** When the loop leaves normally, the last trial table was laid out with the
    page numbers it leaves with, and has as many pages as was assumed. *)
Lemma toc_loop_converged L entries rel :
  forall fuel assumed seen seen' ab,
    toc_loop L fuel entries rel assumed seen = Some (Ok (seen', ab)) ->
    exists T p,
      ab = abs_pages_for rel T
      /\ toc_trial L entries ab = Ok p
      /\ page p = T.
Proof.
  induction fuel as [|fuel IH]; intros assumed seen seen' ab; [discriminate|].
  cbn [toc_loop].
  destruct (toc_trial L entries (abs_pages_for rel assumed)) as [p|e] eqn:E;
    [|discriminate].
  unfold page_no. destruct (Z.eqb_spec (page p) assumed) as [Hp|Hp].
  - intros H. injection H as <- <-. exists assumed, p. repeat split; assumption.
  - apply IH.
Qed.

Lemma abs_pages_for_plus rel T :
  abs_pages_for rel T = map (fun r => (r + T)%Z) rel.
Proof. unfold abs_pages_for. apply map_ext. intros r. lia. Qed.

Lemma shifted_add_page_set_font L k f s1 s2 :
  page s2 = (page s1 + k)%Z ->
  shifted k (with_font f (do_add_page L s1)) (with_font f (do_add_page L s2)).
Proof.
  intros Hp. unfold shifted, with_font; cbn [page x y font].
  rewrite !page_do_add_page. unfold do_add_page, footer.
  destruct (0 <? page s1)%Z, (0 <? page s2)%Z; cbn [page x y font draw];
    repeat split; lia.
Qed.

Lemma shifted_nf_add_page L k s1 s2 :
  page s2 = (page s1 + k)%Z ->
  shifted_nf k (exec L s1 [add_page]) (exec L s2 [add_page]).
Proof.
  intros Hp. rewrite !exec_cons, !exec_nil. cbn [exec1].
  unfold shifted_nf. rewrite !page_do_add_page. unfold do_add_page, footer.
  destruct (0 <? page s1)%Z, (0 <? page s2)%Z; cbn [page x y draw];
    repeat split; lia.
Qed.

Lemma title_page_is_page_1 L username :
  title_fits L -> page (exec L (new L) (title_page username)) = 1%Z.
Proof.
  intros Hfit. unfold title_page. rewrite !exec_cons, exec_nil, exec1_cell.
  match goal with
  | |- page (do_cell L ?w ?h ?t ?a ?l ?s) = _ =>
      destruct (do_cell_fits L w h t a l s) as [Hp _]
  end.
  - apply Qle_bool_iff. exact Hfit.
  - rewrite Hp. reflexivity.
Qed.

(** The final table starts one page after the trial table, at the same place. *)
Lemma final_toc_heading_shifted L username :
  title_fits L ->
  shifted 1 (exec L (new L) toc_heading)
            (exec L (exec L (new L) (title_page username)) toc_heading).
Proof.
  intros Hfit. unfold toc_heading. rewrite !(exec_cons _ _ add_page).
  rewrite !(exec_cons _ _ (set_font _ _ _)). apply shifted_exec.
  cbn [exec1]. apply shifted_add_page_set_font.
  rewrite (title_page_is_page_1 L username Hfit). reflexivity.
Qed.

(** The calendar section, when there is one: same statement as for the
    repository sections. *)
Lemma final_calendar_links L month_abbr k lks contrib s1 s2 p1 rel' p2 idx zeros :
  shifted_nf k s1 s2 ->
  content_calendar L month_abbr s1 [] contrib = Ok (p1, rel') ->
  final_calendar L month_abbr s2 lks 0 contrib = Ok (p2, idx) ->
  (forall j, (j < List.length zeros)%nat -> nth_error lks j = Some (S j)) ->
  links s2 = zeros ->
  (contrib <> None -> (1 <= List.length zeros)%nat) ->
  shifted_nf k p1 p2
  /\ List.length rel' = idx
  /\ exists zeros',
      links p2 = (map (fun r => (r + k)%Z) rel' ++ zeros')%list
      /\ List.length zeros' = (List.length zeros - idx)%nat.
Proof.
  intros Hs Hc Hf Hlks Hlinks Hlen.
  destruct contrib as [c|]; cbn [content_calendar final_calendar] in Hc, Hf.
  - specialize (Hlen ltac:(discriminate)).
    rewrite (Hlks 0%nat) in Hf by lia. cbn [or_raise bind] in Hf.
    apply bind_ok in Hc as (q1 & Hq1 & Hc). apply Ok_inj in Hc.
    apply bind_ok in Hf as (q2 & Hq2 & Hf). apply Ok_inj in Hf.
    injection Hc as <- <-. injection Hf as <- <-.
    destruct zeros as [|z zs]; [simpl in Hlen; lia|].
    assert (Hsh : shifted k q1 q2).
    { apply (calendar_grid_shifted L month_abbr k _ _ _ _ _
               (shifted_after_set_font L k helvetica Bold 12 _ s1
                  (exec L s2 [set_link 1 (page_no s2)]) Hs) Hq1 Hq2). }
    split; [now apply shifted_forget_font|]. split; [reflexivity|].
    exists zs. split; [|simpl; lia].
    rewrite (links_calendar_grid _ _ _ _ _ Hq2), links_exec by reflexivity.
    rewrite exec_cons, exec_nil. cbn [exec1 with_links links].
    rewrite Hlinks. cbn [Fpdf.bind map app]. f_equal.
    unfold page_no. apply Hs.
  - apply Ok_inj in Hc. apply Ok_inj in Hf.
    injection Hc as <- <-. injection Hf as <- <-.
    split; [exact Hs|]. split; [reflexivity|].
    exists zeros. split; [exact Hlinks | simpl; lia].
Qed.

Lemma nth_error_seq_1 n j : (j < n)%nat -> nth_error (seq 1 n) j = Some (S j).
Proof.
  intros H. rewrite nth_error_nth' with (d := 0%nat) by now rewrite length_seq.
  now rewrite seq_nth.
Qed.

(** X21: for every input, when [generate_pdf] returns, each number printed in
    the table of contents is the relative page of its section plus the page
    count [T] of the table, and the section itself starts, and is linked, one
    page further. *)
Lemma toc_numbers_always_one_short
      L sympy month_abbr net username fuel repos contrib prioritize exclude d :
  title_fits L ->
  generate_pdf L sympy month_abbr net username fuel repos contrib
               prioritize exclude = Some (Ok d) ->
  exists T,
    abs_pages d = map (fun r => (r + T)%Z) (rel_pages d)
    /\ links (final_pdf d) = map (fun a => (a + 1)%Z) (abs_pages d)
    /\ links (final_pdf d) = map (fun r => (r + (1 + T))%Z) (rel_pages d).
Proof.
  intros Hfit. unfold generate_pdf.
  set (sorted := sorted_repos repos prioritize exclude).
  set (entries := entries_of contrib sorted).
  destruct (content_pass L sympy month_abbr net username contrib sorted)
    as [[content rel]|e] eqn:Ec; [|discriminate].
  destruct (toc_loop L fuel entries rel 1 []) as [[[seen ab]|e]|] eqn:El;
    try discriminate.
  destruct (final_pass L sympy month_abbr net username entries ab contrib sorted)
    as [[final lks]|e] eqn:Ef; [|discriminate].
  intros H. injection H as <-. cbn [abs_pages rel_pages final_pdf].
  destruct (toc_loop_converged _ _ _ _ _ _ _ _ El) as (T & pt & Hab & Htrial & HT).
  exists T. rewrite abs_pages_for_plus in Hab.
  assert (Hgoal : links final = map (fun r => (r + (1 + T))%Z) rel).
  2:{ split; [exact Hab|]. split; [|exact Hgoal].
      rewrite Hgoal, Hab, map_map. apply map_ext. intros r. lia. }
  (* the measuring pass *)
  unfold content_pass in Ec.
  apply bind_ok in Ec as ([pc relc] & Hcc & Hcr).
  (* the final pass *)
  unfold final_pass in Ef.
  apply bind_ok in Ef as ([ft lks'] & Hft & Ef).
  apply bind_ok in Ef as ([fc idx] & Hfc & Ef).
  apply bind_ok in Ef as (fr & Hfr & Ef).
  apply Ok_inj in Ef. injection Ef as <- <-.
  (* the table of contents *)
  unfold toc_trial in Htrial.
  destruct (final_toc_rows_shifted L 1 ab _ _ _ _ _ _ _
              (final_toc_heading_shifted L username Hfit) Htrial Hft)
    as (Hsh_toc & Hlks & Hlinks_ft).
  assert (Hl0 : links (exec L (exec L (new L) (title_page username)) toc_heading)
                = []) by (rewrite !links_exec; reflexivity).
  rewrite Hl0 in Hlks, Hlinks_ft. cbn [List.length app] in Hlks, Hlinks_ft.
  unfold enumerate in Hlks, Hlinks_ft. rewrite length_enumerate_from in Hlks, Hlinks_ft.
  set (n := List.length entries) in *.
  (* the content *)
  assert (Hs0 : shifted_nf (1 + T) (exec L (new L) [add_page]) (exec L ft [add_page])).
  { apply shifted_nf_add_page. destruct Hsh_toc as (Hp & _).
    rewrite Hp, HT. cbn [new page]. lia. }
  assert (Hl1 : links (exec L ft [add_page]) = repeat 0%Z n)
    by (rewrite links_exec by reflexivity; exact Hlinks_ft).
  assert (Hn : n = (List.length (match contrib with Some _ => [tt] | None => [] end)
                    + List.length sorted)%nat).
  { unfold n, entries, entries_of. rewrite length_app, length_map.
    now destruct contrib. }
  destruct (final_calendar_links L month_abbr (1 + T) lks' contrib _ _ _ _ _ _
              (repeat 0%Z n) Hs0 Hcc Hfc)
    as (Hs1 & Hidx & zeros' & Hl2 & Hz).
  { intros j Hj. rewrite repeat_length in Hj. subst lks'.
    now apply nth_error_seq_1. }
  { exact Hl1. }
  { intros Hc. rewrite repeat_length, Hn. destruct contrib; [simpl; lia | contradiction]. }
  rewrite repeat_length in Hz.
  assert (Hidx' : idx = List.length (match contrib with Some _ => [tt] | None => [] end)).
  { clear - Hcc Hidx. destruct contrib; cbn [content_calendar] in Hcc.
    - apply bind_ok in Hcc as (q & _ & Hq). apply Ok_inj in Hq.
      injection Hq as _ <-. now subst idx.
    - apply Ok_inj in Hcc. injection Hcc as _ <-. now subst idx. }
  destruct (final_repos_links L sympy net username (1 + T) lks' sorted
              pc fc relc idx content rel fr
              (map (fun r => (r + (1 + T))%Z) relc) zeros' Hs1 Hcr Hfr)
    as (newrel & Hrel & Hlfr).
  { intros j Hj. subst lks'. apply nth_error_seq_1. lia. }
  { exact Hl2. }
  { now rewrite length_map. }
  { lia. }
  unfold output, footer, draw; cbn [links].
  rewrite Hlfr, Hrel, map_app. reflexivity.
Qed.

(* ================================================================== *)
(** * Further properties of the script *)

(** ** [hex_to_rgb] *)

Lemma below_256_cases (P : Z -> bool) :
  forallb P (map Z.of_nat (seq 0 256)) = true ->
  forall n, is_byte n -> P n = true.
Proof.
  intros H n Hn. rewrite forallb_forall in H. apply H.
  apply in_map_iff. exists (Z.to_nat n). split.
  - unfold is_byte in Hn. lia.
  - apply in_seq. unfold is_byte in Hn. lia.
Qed.

Lemma int16_hex2 n : is_byte n -> int16 (hex2 n) = Ok n.
Proof.
  intros Hn.
  pose proof (below_256_cases
                (fun n => match int16 (hex2 n) with
                          | Ok m => (m =? n)%Z
                          | Raise _ => false
                          end)) as H.
  specialize (H ltac:(vm_compute; reflexivity) n Hn). cbv beta in H.
  destruct (int16 (hex2 n)) as [m|e]; [|discriminate].
  apply Z.eqb_eq in H. now subst m.
Qed.

Lemma hex_char_not_hash d : Ascii.eqb "#" (hex_char d) = false.
Proof.
  unfold hex_char.
  destruct (Z.to_nat d) as [|[|[|[|[|[|[|[|[|[|[|[|[|[|[|[|k]]]]]]]]]]]]]]]];
    try reflexivity.
  simpl. now destruct k.
Qed.

Lemma drop_one_hash a t :
  Ascii.eqb "#" a = false ->
  drop_while (Ascii.eqb "#") (String "#" (String a t)) = String a t.
Proof.
  intros H. cbn [drop_while]. rewrite Ascii.eqb_refl. cbn [drop_while].
  now rewrite H.
Qed.

(** X1: [hex_to_rgb] decodes what a two-digit-per-channel encoder writes: for
    all channel values below 256 the colour [#rrggbb] gives back the three
    values. *)
Theorem hex_to_rgb_round_trip :
  forall r g b : Z,
    is_byte r -> is_byte g -> is_byte b ->
    hex_to_rgb (hex_color r g b) = Ok (r, g, b).
Proof.
  intros r g b Hr Hg Hb.
  pose proof (int16_hex2 r Hr) as Er. pose proof (int16_hex2 g Hg) as Eg.
  pose proof (int16_hex2 b Hb) as Eb.
  unfold hex_to_rgb.
  replace (drop_while (Ascii.eqb "#") (hex_color r g b))
    with (hex2 r ++ hex2 g ++ hex2 b)%string.
  - unfold hex2 in *. cbn [append substring].
    rewrite Er. cbn [bind]. rewrite Eg. cbn [bind]. rewrite Eb. reflexivity.
  - unfold hex_color, hex2. cbn [append].
    symmetry. apply drop_one_hash. apply hex_char_not_hash.
Qed.

Lemma hex_to_rgb_round_trip_witness :
  hex_color 235 237 240 = "#ebedf0"
  /\ hex_to_rgb "#ebedf0" = Ok (235, 237, 240)%Z.
Proof.
  split; [reflexivity|].
  apply (hex_to_rgb_round_trip 235 237 240); unfold is_byte; lia.
Defined.

Lemma int16_raises_value_error s e : int16 s = Raise e -> e = ValueError.
Proof.
  unfold int16.
  destruct (strip s) as [|a [|b [|c t]]]; try (intros H; now injection H).
  - destruct (hex_digit a); simpl; intros H; [discriminate | now injection H].
  - destruct (hex_digit b); [|intros H; now injection H].
    destruct (Ascii.eqb a "+"); [discriminate|].
    destruct (Ascii.eqb a "-"); [discriminate|].
    destruct (hex_digit a); [discriminate | intros H; now injection H].
Qed.

Lemma rstrip_empty : rstrip EmptyString = EmptyString.
Proof. reflexivity. Qed.

Lemma hex_digit_range c d : hex_digit c = Some d -> (0 <= d <= 15)%Z.
Proof.
  unfold hex_digit. set (n := Z.of_N (N_of_ascii c)).
  destruct ((48 <=? n) && (n <=? 57))%Z eqn:E1.
  { intros H. injection H as <-. apply andb_true_iff in E1. lia. }
  destruct ((97 <=? n) && (n <=? 102))%Z eqn:E2.
  { intros H. injection H as <-. apply andb_true_iff in E2. lia. }
  destruct ((65 <=? n) && (n <=? 70))%Z eqn:E3; [|discriminate].
  intros H. injection H as <-. apply andb_true_iff in E3. lia.
Qed.

Lemma int16_range s n : int16 s = Ok n -> (-15 <= n <= 255)%Z.
Proof.
  unfold int16.
  destruct (strip s) as [|a [|b [|c t]]]; try discriminate.
  - destruct (hex_digit a) as [d|] eqn:E; simpl; [|discriminate].
    intros H. injection H as <-. apply hex_digit_range in E. lia.
  - destruct (hex_digit b) as [lo|] eqn:Eb; [|discriminate].
    apply hex_digit_range in Eb.
    destruct (Ascii.eqb a "+"); [intros H; injection H as <-; lia|].
    destruct (Ascii.eqb a "-"); [intros H; injection H as <-; lia|].
    destruct (hex_digit a) as [hi|] eqn:Ea; [|discriminate].
    apply hex_digit_range in Ea. intros H. apply Ok_inj in H. lia.
Qed.

(** X2: [hex_to_rgb] either returns or raises [ValueError], nothing else; it
    raises whenever fewer than five characters are left once the leading
    hashes are stripped (the third slice is then empty). *)
Theorem hex_to_rgb_short_color_raises :
  forall s : string,
    (forall e, hex_to_rgb s = Raise e -> e = ValueError)
    /\ ((length (drop_while (Ascii.eqb "#") s) <= 4)%nat ->
        hex_to_rgb s = Raise ValueError).
Proof.
  intros s. unfold hex_to_rgb.
  set (t := drop_while (Ascii.eqb "#") s).
  assert (Hall : forall e,
             (r <- int16 (substring 0 2 t) ;;
              g <- int16 (substring 2 2 t) ;;
              b <- int16 (substring 4 2 t) ;; Ok (r, g, b)) = Raise e ->
             e = ValueError).
  { intros e.
    destruct (int16 (substring 0 2 t)) as [r|e1] eqn:E1; cbn [bind].
    2:{ intros H. injection H as <-. now apply int16_raises_value_error in E1. }
    destruct (int16 (substring 2 2 t)) as [g|e2] eqn:E2; cbn [bind].
    2:{ intros H. injection H as <-. now apply int16_raises_value_error in E2. }
    destruct (int16 (substring 4 2 t)) as [b|e3] eqn:E3; cbn [bind].
    - discriminate.
    - intros H. injection H as <-. now apply int16_raises_value_error in E3. }
  split; [exact Hall|].
  intros Hlen.
  assert (H3 : int16 (substring 4 2 t) = Raise ValueError).
  { destruct t as [|a [|b [|c [|d [|e t']]]]]; try reflexivity.
    simpl in Hlen. lia. }
  destruct (int16 (substring 0 2 t)) as [r|e1] eqn:E1; cbn [bind].
  2:{ now rewrite (int16_raises_value_error _ _ E1). }
  destruct (int16 (substring 2 2 t)) as [g|e2] eqn:E2; cbn [bind].
  2:{ now rewrite (int16_raises_value_error _ _ E2). }
  now rewrite H3.
Qed.

Lemma hex_to_rgb_short_color_raises_witness :
  hex_to_rgb "#fff" = Raise ValueError.
Proof.
  apply (proj2 (hex_to_rgb_short_color_raises "#fff")). simpl. lia.
Defined.

(** X3: each channel [hex_to_rgb] returns lies between -15 and 255: a slice
    is read by [int(_, 16)], which accepts one or two hexadecimal digits and
    also a sign followed by one digit. *)
Theorem hex_to_rgb_channel_range :
  forall (s : string) (r g b : Z),
    hex_to_rgb s = Ok (r, g, b) ->
    (-15 <= r <= 255)%Z /\ (-15 <= g <= 255)%Z /\ (-15 <= b <= 255)%Z.
Proof.
  intros s r g b. unfold hex_to_rgb. intros H.
  apply bind_ok in H as (r' & Hr & H).
  apply bind_ok in H as (g' & Hg & H).
  apply bind_ok in H as (b' & Hb & H).
  apply Ok_inj in H. injection H as <- <- <-.
  apply int16_range in Hr, Hg, Hb. auto.
Qed.

Lemma hex_to_rgb_channel_range_witness :
  hex_to_rgb "#-f0a+7" = Ok (-15, 10, 7)%Z
  /\ (-15 <= -15 <= 255)%Z.
Proof.
  split; [reflexivity|].
  apply (hex_to_rgb_channel_range "#-f0a+7" (-15) 10 7 eq_refl).
Defined.

(** ** The fallback never makes a snippet longer *)

Lemma sub_from_length m :
  non_lengthening m ->
  forall s skip,
    (skip <= length s)%nat ->
    (length (Re.sub_from m skip s) + skip <= length s)%nat.
Proof.
  intros Hm. induction s as [|c s IH]; intros skip Hskip.
  - simpl in *. lia.
  - destruct skip as [|n].
    + cbn [Re.sub_from]. destruct (m (String c s)) as [[r len]|] eqn:E.
      * destruct (Hm _ _ _ E) as (Hlen & Hr). simpl in Hlen.
        rewrite length_append.
        specialize (IH (pred len) ltac:(lia)). simpl. lia.
      * specialize (IH 0%nat ltac:(lia)). simpl. lia.
    + cbn [Re.sub_from]. simpl in Hskip.
      specialize (IH n ltac:(lia)). simpl. lia.
Qed.

Lemma sub_length m s :
  non_lengthening m -> (length (Re.sub m s) <= length s)%nat.
Proof.
  intros Hm. pose proof (sub_from_length m Hm s 0 ltac:(lia)) as H.
  unfold Re.sub. lia.
Qed.

Lemma literal_non_lengthening k v :
  k <> EmptyString -> (length v <= length k)%nat ->
  non_lengthening (literal k v).
Proof.
  intros Hk Hv s r len. unfold literal.
  destruct (prefix k s) eqn:E; [|discriminate].
  intros H. injection H as <- <-.
  pose proof (prefix_spec _ _ E) as Hs.
  set (t := drop (length k) s) in Hs. clearbody t. subst s.
  rewrite length_append. destruct k; [contradiction|]. simpl in *. lia.
Qed.

Lemma script_char_non_lengthening mark : non_lengthening (Re.script_char mark).
Proof.
  intros s r len E. destruct (script_char_puts_back mark s r len E) as (Hlen & ->).
  split; [exact Hlen|].
  clear E. revert s Hlen. induction len as [|n IH]; intros s Hlen; [simpl; lia|].
  destruct s as [|c s]; simpl in *; [lia|].
  destruct n as [|n']; [simpl; lia|].
  specialize (IH s ltac:(lia)). lia.
Qed.

Lemma script_braced_non_lengthening mark :
  non_lengthening (Re.script_braced mark).
Proof.
  intros s r len E.
  split; [exact (proj1 (script_braced_brace_neutral mark s r len E))|].
  revert E. unfold Re.script_braced.
  destruct s as [|c s1]; [discriminate|].
  destruct (Ascii.eqb c mark); [|discriminate].
  destruct (Re.braced s1) as [[g rest]|]; [|discriminate].
  intros H. injection H as <- <-. simpl. lia.
Qed.

Lemma frac_non_lengthening : non_lengthening Re.frac.
Proof.
  intros s r len E.
  split; [exact (proj1 (frac_brace_neutral s r len E))|].
  revert E. unfold Re.frac.
  destruct (startswith s "\frac"); [|discriminate].
  destruct (Re.braced (drop 5 s)) as [[a r1]|]; [|discriminate].
  destruct (Re.braced r1) as [[b r2]|]; [|discriminate].
  intros H. injection H as Hr Hl. subst r. rewrite <- Hl.
  rewrite !length_append. simpl. lia.
Qed.

Lemma symbols_not_longer :
  forallb (fun kv => Markup.nonempty (fst kv)
                     && (length (snd kv) <=? length (fst kv))%nat)
          Latex.symbols = true.
Proof. vm_compute. reflexivity. Qed.

Lemma replace_all_length l :
  forallb (fun kv => Markup.nonempty (fst kv)
                     && (length (snd kv) <=? length (fst kv))%nat) l = true ->
  forall tex,
    (length (fold_left (fun t kv => replace (fst kv) (snd kv) t) l tex)
     <= length tex)%nat.
Proof.
  induction l as [|[k v] l IH]; intros Hl tex; simpl; [lia|].
  simpl in Hl. apply andb_true_iff in Hl as [Hkv Hl].
  apply andb_true_iff in Hkv as [Hk Hv]. apply Nat.leb_le in Hv.
  etransitivity; [apply (IH Hl)|].
  unfold replace. rewrite replace_from_literal.
  apply (sub_length (literal k v)). apply literal_non_lengthening; [|exact Hv].
  intros ->. discriminate Hk.
Qed.

(** X4: the fallback never returns a text longer than the snippet it was
    given: every value of the symbol table is at most as long as its key, and
    the other passes only drop braces and the five characters of [\frac]. *)
Theorem fallback_never_longer :
  forall tex : string, (length (Latex.fallback tex) <= length tex)%nat.
Proof.
  intros tex.
  unfold Latex.fallback, Latex.fractions, Latex.subscripts, Latex.superscripts,
    Latex.replace_symbols.
  etransitivity; [apply (sub_length _ _ frac_non_lengthening)|].
  etransitivity; [apply (sub_length _ _ (script_char_non_lengthening "_"))|].
  etransitivity; [apply (sub_length _ _ (script_braced_non_lengthening "_"))|].
  etransitivity; [apply (sub_length _ _ (script_char_non_lengthening "^"))|].
  etransitivity; [apply (sub_length _ _ (script_braced_non_lengthening "^"))|].
  apply replace_all_length. exact symbols_not_longer.
Qed.

(** ** The inline tokenizer on plain text and on one code span *)

Lemma rev_cons c s : rev (String c s) = (rev s ++ String c EmptyString)%string.
Proof. unfold rev at 1. simpl. apply rev_onto_app. Qed.

Lemma rev_involutive s : rev (rev s) = s.
Proof.
  induction s as [|c s IH]; [reflexivity|].
  now rewrite rev_cons, rev_app_last, IH.
Qed.

(** A split whose pattern matches nowhere returns the text in one piece. *)
Lemma split_from_no_match m (P : string -> Prop) :
  (forall c s, P (String c s) -> P s) ->
  (forall s, P s -> m s = None) ->
  forall s cur, P s -> Re.split_from m 0 cur s = [rev (rev_onto s cur)].
Proof.
  intros Htail Hnone. induction s as [|c s IH]; intros cur Hs.
  - reflexivity.
  - cbn [Re.split_from rev_onto]. rewrite (Hnone _ Hs).
    apply IH. now apply Htail in Hs.
Qed.

Lemma split_no_match m (P : string -> Prop) s :
  (forall c s, P (String c s) -> P s) ->
  (forall s, P s -> m s = None) ->
  P s -> Re.split m s = [s].
Proof.
  intros Htail Hnone Hs. unfold Re.split.
  rewrite (split_from_no_match m P Htail Hnone s EmptyString Hs).
  fold (rev s). now rewrite rev_involutive.
Qed.

Lemma has_char_head c d s :
  has_char c (String d s) = false -> Ascii.eqb d c = false.
Proof. simpl. intros H. now apply orb_false_iff in H. Qed.

Lemma math_span_none s : has_char "$" s = false -> Re.math_span s = None.
Proof.
  destruct s as [|d s]; [reflexivity|]. intros H. apply has_char_head in H.
  destruct d as [[] [] [] [] [] [] [] []]; try reflexivity; discriminate H.
Qed.

Lemma code_span_none s : has_char "`" s = false -> Re.code_span s = None.
Proof.
  destruct s as [|d s]; [reflexivity|]. intros H. apply has_char_head in H.
  destruct d as [[] [] [] [] [] [] [] []]; try reflexivity; discriminate H.
Qed.

Lemma bold_span_none s : has_char "*" s = false -> Re.bold_span s = None.
Proof.
  destruct s as [|d s]; [reflexivity|]. intros H. apply has_char_head in H.
  unfold Re.bold_span, startswith. cbn [prefix].
  destruct (ascii_dec "*" d) as [<-|]; [discriminate H | reflexivity].
Qed.

Lemma split_math_none s : has_char "$" s = false -> Re.split Re.math_span s = [s].
Proof.
  apply (split_no_match _ (fun s => has_char "$" s = false)).
  - intros c t. apply has_char_tail.
  - apply math_span_none.
Qed.

Lemma split_code_none s : has_char "`" s = false -> Re.split Re.code_span s = [s].
Proof.
  apply (split_no_match _ (fun s => has_char "`" s = false)).
  - intros c t. apply has_char_tail.
  - apply code_span_none.
Qed.

Lemma split_bold_none s : has_char "*" s = false -> Re.split Re.bold_span s = [s].
Proof.
  apply (split_no_match _ (fun s => has_char "*" s = false)).
  - intros c t. apply has_char_tail.
  - apply bold_span_none.
Qed.

Lemma bold_level_plain s :
  has_char "*" s = false ->
  bold_level s
  = set_font helvetica Regular 10
    :: (if nonempty s then [multi_cell 0 5 s] else []).
Proof.
  intros H. unfold bold_level. rewrite (split_bold_none s H).
  cbn [enumerate enumerate_from flat_map Nat.odd]. now rewrite app_nil_r.
Qed.

(** X5: a text without dollar, backtick or star is written as it is: one font
    selection (regular Helvetica 10) and, unless the text is empty, one
    [multi_cell] holding the whole text, that is a single plain run. *)
Theorem process_inline_plain_text :
  forall (sympy : string -> option string) (text : string),
    has_char "$" text = false ->
    has_char "`" text = false ->
    has_char "*" text = false ->
    process_inline sympy text
    = set_font helvetica Regular 10
      :: (if nonempty text then [multi_cell 0 5 text] else [])
    /\ runs (process_inline sympy text)
       = (if nonempty text then [PlainText text] else []).
Proof.
  intros sympy text Hd Hb Hs.
  assert (E : process_inline sympy text
              = set_font helvetica Regular 10
                :: (if nonempty text then [multi_cell 0 5 text] else [])).
  { unfold process_inline. rewrite (split_math_none text Hd).
    cbn [enumerate enumerate_from flat_map Nat.odd]. rewrite app_nil_r.
    unfold code_level. rewrite (split_code_none text Hb).
    cbn [enumerate enumerate_from flat_map Nat.odd]. rewrite app_nil_r.
    now apply bold_level_plain. }
  split; [exact E|]. rewrite E. now destruct (nonempty text).
Qed.

Lemma process_inline_plain_text_witness :
  runs (process_inline Sample.no_sympy "hello, world")
  = [PlainText "hello, world"].
Proof.
  apply (proj2 (process_inline_plain_text Sample.no_sympy "hello, world"
                  eq_refl eq_refl eq_refl)).
Defined.

Lemma span_until d c rest :
  has_char d c = false ->
  span (Re.not_char d) (c ++ String d rest) = (c, String d rest).
Proof.
  induction c as [|a c IH]; intros H.
  - simpl. unfold Re.not_char. now rewrite Ascii.eqb_refl.
  - pose proof (has_char_head _ _ _ H) as Ha. apply has_char_tail in H.
    cbn [append span]. unfold Re.not_char at 1. rewrite Ha. cbn [negb].
    now rewrite (IH H).
Qed.

Lemma split_from_skip_all m t :
  forall cur, Re.split_from m (length t) cur t = [rev cur].
Proof. induction t as [|c t IH]; intros cur; [reflexivity | apply IH]. Qed.

Lemma split_code_one_span c :
  c <> EmptyString -> has_char "`" c = false ->
  Re.split Re.code_span (String "`" (c ++ String "`" EmptyString))
  = [EmptyString; c; EmptyString].
Proof.
  intros Hne Hc. unfold Re.split. cbn [Re.split_from].
  assert (E : Re.code_span (String "`" (c ++ String "`" EmptyString))
              = Some (c, 2 + length c)%nat).
  { unfold Re.code_span.
    destruct c as [|a c']; [contradiction|].
    pose proof (has_char_head _ _ _ Hc) as Ha.
    assert (Hs : startswith (String a c' ++ String "`" EmptyString) "`" = false).
    { unfold startswith. cbn [append prefix].
      destruct (ascii_dec "`" a) as [<-|]; [discriminate Ha | reflexivity]. }
    rewrite Hs, (span_until "`" (String a c') EmptyString Hc). reflexivity. }
  rewrite E. cbn [Nat.add pred].
  replace (S (length c)) with (length (c ++ String "`" EmptyString))
    by (rewrite length_append; simpl; lia).
  now rewrite split_from_skip_all.
Qed.

(** X6: one backtick span without dollar inside is a single code run holding
    the text between the backticks as it is, stars included: the code split
    never hands its odd pieces to the bold split. *)
Theorem process_inline_one_code_span :
  forall (sympy : string -> option string) (c : string),
    c <> EmptyString ->
    has_char "`" c = false ->
    has_char "$" c = false ->
    process_inline sympy (String "`" (c ++ String "`" EmptyString))
    = [set_font helvetica Regular 10;
       set_font courier Regular 9; multi_cell 0 5 c;
       set_font helvetica Regular 10]
    /\ runs (process_inline sympy (String "`" (c ++ String "`" EmptyString)))
       = [CodeText c].
Proof.
  intros sympy c Hne Hb Hd.
  assert (E : process_inline sympy (String "`" (c ++ String "`" EmptyString))
              = [set_font helvetica Regular 10;
                 set_font courier Regular 9; multi_cell 0 5 c;
                 set_font helvetica Regular 10]).
  { unfold process_inline. rewrite split_math_none.
    2:{ cbn [has_char]. rewrite has_char_app, Hd. reflexivity. }
    cbn [enumerate enumerate_from flat_map Nat.odd]. rewrite app_nil_r.
    unfold code_level. rewrite (split_code_one_span c Hne Hb).
    cbn [enumerate enumerate_from flat_map Nat.odd].
    rewrite (bold_level_plain EmptyString eq_refl). reflexivity. }
  split; [exact E|]. rewrite E. reflexivity.
Qed.

Lemma process_inline_one_code_span_witness :
  runs (process_inline Sample.no_sympy "`a **b** c`") = [CodeText "a **b** c"].
Proof.
  apply (proj2 (process_inline_one_code_span Sample.no_sympy "a **b** c"
                  ltac:(discriminate) eq_refl eq_refl)).
Defined.

(** ** List items, fenced blocks and the flags of [process_readme_line] *)

Lemma not_fence_by_head line c s :
  lstrip line = String c s -> is_space c = false ->
  Ascii.eqb c "`" = false ->
  startswith (strip line) "```" = false.
Proof.
  intros Hl Hc Hb. unfold strip. rewrite Hl.
  destruct (rstrip_head c s Hc) as [s' ->].
  unfold startswith. cbn [prefix].
  destruct (ascii_dec "`" c) as [<-|]; [discriminate Hb | reflexivity].
Qed.

Lemma spaces_then_rest_blank w rest :
  is_space w = true ->
  Re.spaces_then_rest (String w rest) = Some (after_blanks (String w rest)).
Proof. intros H. unfold Re.spaces_then_rest. now rewrite H. Qed.

(** X7: outside a code fence, a line whose text after the leading blanks is
    [-], [*] or [+] followed by a blank is drawn as a list item: regular
    Helvetica 10, indented by twice the number of leading blanks, with the
    bullet [*] whatever the marker was, then the inline runs of the item text
    and a 5 mm line feed. *)
Theorem unordered_list_item :
  forall (sympy : string -> option string) (line : string)
         (c w : ascii) (rest : string) (in_inline_code : bool),
    lstrip line = String c (String w rest) ->
    c = "-"%char \/ c = "*"%char \/ c = "+"%char ->
    is_space w = true ->
    process_readme_line sympy line false in_inline_code
    = (([set_font helvetica Regular 10;
         set_x (indent_x (length line - length (lstrip line)));
         cell 10 5 "*" AlignL NoLink]
          ++ process_inline sympy (after_blanks (String w rest))
          ++ [ln 5])%list,
       (false, in_inline_code)).
Proof.
  intros sympy line c w rest iic Hline Hc Hw.
  unfold process_readme_line.
  rewrite (not_fence_by_head line c (String w rest) Hline)
    by (destruct Hc as [->|[->| ->]]; reflexivity).
  rewrite Hline.
  assert (Hul : Re.match_ul (String c (String w rest))
                = Some (after_blanks (String w rest))).
  { unfold Re.match_ul.
    replace (Ascii.eqb c "-" || Ascii.eqb c "*" || Ascii.eqb c "+") with true
      by (destruct Hc as [->|[->| ->]]; reflexivity).
    now apply spaces_then_rest_blank. }
  rewrite Hul. reflexivity.
Qed.

Lemma unordered_list_item_witness :
  process_readme_line Sample.no_sympy "  + milk" false false
  = ([set_font helvetica Regular 10; set_x (indent_x 2);
      cell 10 5 "*" AlignL NoLink;
      set_font helvetica Regular 10; multi_cell 0 5 "milk"; ln 5],
     (false, false)).
Proof.
  apply (unordered_list_item Sample.no_sympy "  + milk" "+" " " "milk" false
           eq_refl (or_intror (or_intror eq_refl)) eq_refl).
Defined.

Lemma span_all p ds rest :
  all_chars p ds = true ->
  match rest with String c _ => p c = false | EmptyString => True end ->
  span p (ds ++ rest) = (ds, rest).
Proof.
  intros Hds Hrest. induction ds as [|a ds IH]; cbn [append].
  - destruct rest as [|c r]; [reflexivity|]. cbn [span]. now rewrite Hrest.
  - cbn [all_chars] in Hds. apply andb_true_iff in Hds as [Ha Hds].
    cbn [span]. rewrite Ha, (IH Hds). reflexivity.
Qed.

Lemma digit_facts a :
  is_digit a = true ->
  is_space a = false /\ Ascii.eqb a "`" = false
  /\ Ascii.eqb a "-" || Ascii.eqb a "*" || Ascii.eqb a "+" = false.
Proof.
  destruct a as [[] [] [] [] [] [] [] []]; vm_compute; intros H;
    try discriminate H; repeat split.
Qed.

(** X8: outside a code fence, a line whose text after the leading blanks is
    one or more digits, a dot and a blank is drawn as a numbered item: the
    label is the digits as written followed by a dot, then come the inline
    runs of the item text and a 5 mm line feed. *)
Theorem ordered_list_item :
  forall (sympy : string -> option string) (line ds : string)
         (w : ascii) (rest : string) (in_inline_code : bool),
    lstrip line = (ds ++ String "." (String w rest))%string ->
    ds <> EmptyString ->
    all_chars is_digit ds = true ->
    is_space w = true ->
    process_readme_line sympy line false in_inline_code
    = (([set_font helvetica Regular 10;
         set_x (indent_x (length line - length (lstrip line)));
         cell 10 5 (ds ++ ".") AlignL NoLink]
          ++ process_inline sympy (after_blanks (String w rest))
          ++ [ln 5])%list,
       (false, in_inline_code)).
Proof.
  intros sympy line ds w rest iic Hline Hne Hds Hw.
  destruct ds as [|a ds']; [contradiction|].
  pose proof Hds as Hds0. cbn [all_chars] in Hds0.
  apply andb_true_iff in Hds0 as [Ha _].
  destruct (digit_facts a Ha) as (Hsp & Hbt & Hmark).
  unfold process_readme_line.
  rewrite (not_fence_by_head line a _ Hline Hsp Hbt). rewrite Hline.
  assert (Hul : Re.match_ul (String a ds' ++ String "." (String w rest)) = None).
  { unfold Re.match_ul. cbn [append]. now rewrite Hmark. }
  rewrite Hul.
  assert (Hol : Re.match_ol (String a ds' ++ String "." (String w rest))
                = Some (String a ds', after_blanks (String w rest))).
  { unfold Re.match_ol.
    rewrite (span_all is_digit (String a ds') _ Hds) by reflexivity.
    now rewrite (spaces_then_rest_blank w rest Hw). }
  rewrite Hol. reflexivity.
Qed.

Lemma ordered_list_item_witness :
  process_readme_line Sample.no_sympy "12. eggs" false false
  = ([set_font helvetica Regular 10; set_x (indent_x 0);
      cell 10 5 "12." AlignL NoLink;
      set_font helvetica Regular 10; multi_cell 0 5 "eggs"; ln 5],
     (false, false)).
Proof.
  apply (ordered_list_item Sample.no_sympy "12. eggs" "12" " " "eggs" false
           eq_refl ltac:(discriminate) eq_refl eq_refl).
Defined.

Lemma process_fence_line sympy line icb iic :
  is_fence line = true ->
  process_readme_line sympy line icb iic = ([], (negb icb, false)).
Proof. unfold is_fence, process_readme_line. now intros ->. Qed.

Lemma process_code_line sympy line iic :
  is_fence line = false ->
  process_readme_line sympy line true iic = (code_line line, (true, iic)).
Proof. unfold is_fence, process_readme_line. now intros ->. Qed.

Lemma process_lines_in_fence sympy body :
  forall iic f2 rest,
    forallb (fun l => negb (is_fence l)) body = true ->
    is_fence f2 = true ->
    process_lines sympy (body ++ f2 :: rest) true iic
    = (flat_map code_line body ++ process_lines sympy rest false false)%list.
Proof.
  induction body as [|l body IH]; intros iic f2 rest Hbody Hf2.
  - cbn [app process_lines flat_map]. now rewrite (process_fence_line _ _ _ _ Hf2).
  - cbn [forallb] in Hbody. apply andb_true_iff in Hbody as [Hl Hbody].
    apply negb_true_iff in Hl.
    cbn [app process_lines flat_map]. rewrite (process_code_line _ _ _ Hl).
    rewrite (IH iic f2 rest Hbody Hf2). now rewrite <- app_assoc.
Qed.

(** X9: a fenced block, from a fence line to the next one, is drawn as its
    body lines only, each one verbatim in Courier 9 on 4 mm lines, whatever
    markup they contain; the fence lines draw nothing, and the lines after
    the block are processed as lines outside a fence. *)
Theorem fenced_block_is_verbatim :
  forall (sympy : string -> option string) (f1 f2 : string)
         (body rest : list string) (in_inline_code : bool),
    is_fence f1 = true ->
    is_fence f2 = true ->
    forallb (fun l => negb (is_fence l)) body = true ->
    process_lines sympy (f1 :: body ++ f2 :: rest) false in_inline_code
    = (flat_map code_line body ++ process_lines sympy rest false false)%list.
Proof.
  intros sympy f1 f2 body rest iic Hf1 Hf2 Hbody.
  cbn [process_lines]. rewrite (process_fence_line _ _ _ _ Hf1).
  cbn [negb app]. now apply process_lines_in_fence.
Qed.

Lemma fenced_block_is_verbatim_witness :
  process_lines Sample.no_sympy ["```python"; "# not a heading"; "- x"; "```"; "end"]
                false false
  = [set_font courier Regular 9; multi_cell 0 4 "# not a heading";
     set_font courier Regular 9; multi_cell 0 4 "- x";
     set_x (indent_x 0); set_font helvetica Regular 10; multi_cell 0 5 "end";
     ln 5].
Proof.
  apply (fenced_block_is_verbatim Sample.no_sympy "```python" "```"
           ["# not a heading"; "- x"] ["end"] false eq_refl eq_refl eq_refl).
Defined.

Lemma process_readme_line_flag sympy line icb iic iic' :
  fst (process_readme_line sympy line icb iic)
  = fst (process_readme_line sympy line icb iic')
  /\ fst (snd (process_readme_line sympy line icb iic))
     = fst (snd (process_readme_line sympy line icb iic')).
Proof.
  unfold process_readme_line.
  destruct (startswith (strip line) "```"); [split; reflexivity|].
  destruct icb; [split; reflexivity|].
  destruct (Re.match_ul (lstrip line)); [split; reflexivity|].
  destruct (Re.match_ol (lstrip line)) as [[g1 g2]|]; [split; reflexivity|].
  destruct (Re.match_header (lstrip line)) as [[g1 g2]|]; split; reflexivity.
Qed.

(** X10: the flag [in_inline_code] is carried along but never read: what a
    sequence of readme lines draws does not depend on its initial value. *)
Theorem in_inline_code_is_never_read :
  forall (sympy : string -> option string) (lines : list string)
         (in_code_block iic iic' : bool),
    process_lines sympy lines in_code_block iic
    = process_lines sympy lines in_code_block iic'.
Proof.
  intros sympy lines. induction lines as [|line lines IH]; intros icb iic iic'.
  - reflexivity.
  - cbn [process_lines].
    destruct (process_readme_line_flag sympy line icb iic iic') as [Hc Hf].
    destruct (process_readme_line sympy line icb iic) as [cs [icb1 iic1]].
    destruct (process_readme_line sympy line icb iic') as [cs' [icb2 iic2]].
    cbn [fst snd] in Hc, Hf. subst cs' icb2. f_equal. apply IH.
Qed.

(** ** The stages of [generate_pdf] *)

(** A run that returns has gone through the measuring pass, a last trial
    table with the page count the loop leaves with, and the final pass. *)
Lemma generate_pdf_stages
      L sympy month_abbr net username fuel repos contrib prioritize exclude d :
  generate_pdf L sympy month_abbr net username fuel repos contrib
               prioritize exclude = Some (Ok d) ->
  let sorted := sorted_repos repos prioritize exclude in
  let entries := entries_of contrib sorted in
  exists pc relc T pt ft fc idx fr,
    toc_entries d = entries
    /\ content_calendar L month_abbr (exec L (new L) [add_page]) [] contrib
       = Ok (pc, relc)
    /\ content_repos L sympy net username pc relc sorted
       = Ok (content_pdf d, rel_pages d)
    /\ last (assumed_trace d) 0%Z = T
    /\ abs_pages d = abs_pages_for (rel_pages d) T
    /\ toc_trial L entries (abs_pages d) = Ok pt
    /\ page pt = T
    /\ final_toc_rows L (abs_pages d)
                      (exec L (exec L (new L) (title_page username)) toc_heading)
                      [] (enumerate entries)
       = Ok (ft, toc_links d)
    /\ final_calendar L month_abbr (exec L ft [add_page]) (toc_links d) 0 contrib
       = Ok (fc, idx)
    /\ final_repos L sympy net username fc (toc_links d) idx sorted = Ok fr
    /\ final_pdf d = output L fr.
Proof.
  intros H sorted entries. unfold generate_pdf in H.
  fold sorted in H. fold entries in H.
  destruct (content_pass L sympy month_abbr net username contrib sorted)
    as [[content rel]|e] eqn:Ec; [|discriminate].
  destruct (toc_loop L fuel entries rel 1 []) as [[[seen ab]|e]|] eqn:El;
    try discriminate.
  destruct (final_pass L sympy month_abbr net username entries ab contrib sorted)
    as [[final lks]|e] eqn:Ef; [|discriminate].
  injection H as <-.
  cbn [toc_entries content_pdf rel_pages assumed_trace abs_pages toc_links final_pdf].
  unfold content_pass in Ec. apply bind_ok in Ec as ([pc relc] & Hcc & Hcr).
  unfold final_pass in Ef.
  apply bind_ok in Ef as ([ft lks'] & Hft & Ef).
  apply bind_ok in Ef as ([fc idx] & Hfc & Ef).
  apply bind_ok in Ef as (fr & Hfr & Ef).
  apply Ok_inj in Ef. injection Ef as <- <-.
  assert (Hloop : exists T pt,
             last seen 0%Z = T /\ ab = abs_pages_for rel T
             /\ toc_trial L entries ab = Ok pt /\ page pt = T).
  { clear - El. revert El. generalize (@nil Z) at 1. generalize 1%Z.
    induction fuel as [|fuel IH]; intros assumed seen0; [discriminate|].
    cbn [toc_loop].
    destruct (toc_trial L entries (abs_pages_for rel assumed)) as [p|e] eqn:E;
      [|discriminate].
    unfold page_no. destruct (Z.eqb_spec (page p) assumed) as [Hp|Hp].
    - intros H. injection H as <- <-. exists assumed, p.
      rewrite last_last. repeat split; assumption.
    - apply IH. }
  destruct Hloop as (T & pt & Hlast & Hab & Htrial & HT).
  exists pc, relc, T, pt, ft, fc, idx, fr. repeat split; assumption.
Qed.

(** ** Relative page numbers *)

Lemma repo_section_page_mono L sympy net username s r p :
  repo_section L sympy net username s r = Ok p -> (page s <= page p)%Z.
Proof.
  unfold repo_section. intros H. apply bind_ok in H as (readme & _ & H).
  apply Ok_inj in H. subst p.
  etransitivity; [|apply page_exec_mono].
  etransitivity; [|apply page_exec_mono].
  apply page_exec_mono.
Qed.

Lemma calendar_grid_page_mono L month_abbr s ws p :
  calendar_grid L month_abbr s ws = Ok p -> (page s <= page p)%Z.
Proof.
  unfold calendar_grid. intros H.
  apply bind_ok in H as (labels & _ & H).
  apply bind_ok in H as (cols & _ & H). apply Ok_inj in H. subst p.
  etransitivity; [|apply page_exec_mono].
  etransitivity; [|apply page_exec_mono].
  etransitivity; [|apply page_exec_mono].
  apply page_exec_mono.
Qed.

Lemma nondecreasing_cons a l :
  Forall (fun b => (a <= b)%Z) l -> nondecreasing l -> nondecreasing (a :: l).
Proof.
  intros Hall Hl. destruct l as [|b l]; [exact Logic.I|].
  split; [now inversion Hall | exact Hl].
Qed.

(** The pages recorded for the repository sections start at the current page
    and never go back. *)
Lemma content_repos_rel_pages L sympy net username :
  forall rs s rel p rel',
    content_repos L sympy net username s rel rs = Ok (p, rel') ->
    (page s <= page p)%Z
    /\ exists new,
        rel' = (rel ++ new)%list
        /\ List.length new = List.length rs
        /\ Forall (fun r => (page s <= r <= page p)%Z) new
        /\ nondecreasing new
        /\ (forall r new', new = r :: new' -> r = page s).
Proof.
  induction rs as [|r rs IH]; intros s rel p rel' H; cbn [content_repos] in H.
  - apply Ok_inj in H. injection H as <- <-. split; [lia|].
    exists []. rewrite app_nil_r. repeat split; try constructor.
    intros r new' Hn. discriminate Hn.
  - apply bind_ok in H as (q & Hq & H).
    apply repo_section_page_mono in Hq.
    destruct (IH _ _ _ _ H) as (Hqp & new & Hrel & Hlen & Hall & Hnd & _).
    split; [lia|].
    exists (page_no s :: new). unfold page_no in *.
    rewrite Hrel, <- app_assoc. repeat split.
    + simpl. now rewrite Hlen.
    + constructor; [lia|].
      eapply Forall_impl; [|exact Hall]. simpl. intros b Hb. lia.
    + apply nondecreasing_cons; [|exact Hnd].
      eapply Forall_impl; [|exact Hall]. simpl. intros b Hb. lia.
    + intros r0 new' Hn. now injection Hn as <- _.
Qed.

Lemma nondecreasing_map_add T l :
  nondecreasing l -> nondecreasing (map (fun r => (r + T)%Z) l).
Proof.
  induction l as [|a [|b l] IH]; intros H; try exact Logic.I.
  destruct H as [Hab Hl]. split; [lia | now apply IH].
Qed.

(** X11: in every run that returns, the measuring pass records one relative
    page per entry of the table of contents; the first one is page 1, and the
    pages never decrease from one section to the next, nor do the numbers
    printed in the table. *)
Theorem rel_pages_start_at_1_and_never_decrease :
  forall L sympy month_abbr net username fuel repos contrib prioritize exclude d,
    generate_pdf L sympy month_abbr net username fuel repos contrib
                 prioritize exclude = Some (Ok d) ->
    List.length (rel_pages d) = List.length (toc_entries d)
    /\ (forall r rest, rel_pages d = r :: rest -> r = 1%Z)
    /\ Forall (fun r => (1 <= r <= page (content_pdf d))%Z) (rel_pages d)
    /\ nondecreasing (rel_pages d)
    /\ nondecreasing (abs_pages d).
Proof.
  intros L sympy month_abbr net username fuel repos contrib prioritize exclude d H.
  destruct (generate_pdf_stages _ _ _ _ _ _ _ _ _ _ _ H)
    as (pc & relc & T & pt & ft & fc & idx & fr
        & He & Hcc & Hcr & _ & Hab & _).
  set (s0 := exec L (new L) [add_page]) in *.
  assert (Hp0 : page s0 = 1%Z) by reflexivity.
  destruct (content_repos_rel_pages _ _ _ _ _ _ _ _ _ Hcr)
    as (Hmono & new & Hrel & Hlen & Hall & Hnd & Hfirst).
  assert (Hcal : (relc = [] /\ pc = s0 /\ contrib = None)
                 \/ (relc = [1%Z] /\ (1 <= page pc)%Z /\ contrib <> None)).
  { destruct contrib as [c|]; cbn [content_calendar] in Hcc.
    - right. apply bind_ok in Hcc as (q & Hq & Hcc). apply Ok_inj in Hcc.
      injection Hcc as <- <-. apply calendar_grid_page_mono in Hq.
      split; [reflexivity|]. split; [|discriminate].
      etransitivity; [|exact Hq]. etransitivity; [|apply page_exec_mono].
      rewrite Hp0. lia.
    - left. apply Ok_inj in Hcc. injection Hcc as <- <-. auto. }
  assert (Hrelp : nondecreasing (rel_pages d)
                  /\ Forall (fun r => (1 <= r <= page (content_pdf d))%Z)
                            (rel_pages d)
                  /\ (forall r rest, rel_pages d = r :: rest -> r = 1%Z)
                  /\ List.length (rel_pages d) = List.length (toc_entries d)).
  { rewrite Hrel, He. unfold entries_of.
    destruct Hcal as [(-> & -> & ->) | (-> & Hpc & Hc)].
    - cbn [app]. rewrite Hp0 in *. repeat split.
      + exact Hnd.
      + exact Hall.
      + intros r rest Hn. now apply Hfirst in Hn.
      + now rewrite Hlen, length_map.
    - cbn [app]. repeat split.
      + apply nondecreasing_cons; [|exact Hnd].
        eapply Forall_impl; [|exact Hall]. simpl. intros b Hb. lia.
      + constructor; [lia|].
        eapply Forall_impl; [|exact Hall]. simpl. intros b Hb. lia.
      + intros r rest Hn. now injection Hn as <- _.
      + destruct contrib; [|contradiction].
        cbn [app List.length]. now rewrite Hlen, length_map. }
  destruct Hrelp as (H1 & H2 & H3 & H4).
  repeat split; try assumption.
  rewrite Hab, abs_pages_for_plus. now apply nondecreasing_map_add.
Qed.

(** ** The page count of the final document *)

Lemma final_repos_end_shifted L sympy net username k lks :
  forall rs s1 s2 rel idx p1 rel' p2,
    shifted_nf k s1 s2 ->
    content_repos L sympy net username s1 rel rs = Ok (p1, rel') ->
    final_repos L sympy net username s2 lks idx rs = Ok p2 ->
    shifted_nf k p1 p2.
Proof.
  induction rs as [|r rs IH]; intros s1 s2 rel idx p1 rel' p2 Hs Hc Hf;
    cbn [content_repos final_repos] in Hc, Hf.
  - apply Ok_inj in Hc. apply Ok_inj in Hf. injection Hc as <- <-. now subst p2.
  - apply bind_ok in Hc as (q1 & Hq1 & Hc).
    apply bind_ok in Hf as (link & _ & Hf).
    apply bind_ok in Hf as (q2 & Hq2 & Hf).
    apply (IH q1 q2 _ _ _ _ _) with (2 := Hc) (3 := Hf).
    apply shifted_forget_font.
    apply (repo_section_shifted L sympy net username k r s1
             (exec L s2 [set_link link (page_no s2)])); assumption.
Qed.

Lemma final_calendar_end_shifted L month_abbr k lks contrib s1 s2 p1 rel' p2 idx :
  shifted_nf k s1 s2 ->
  content_calendar L month_abbr s1 [] contrib = Ok (p1, rel') ->
  final_calendar L month_abbr s2 lks 0 contrib = Ok (p2, idx) ->
  shifted_nf k p1 p2.
Proof.
  intros Hs Hc Hf.
  destruct contrib as [c|]; cbn [content_calendar final_calendar] in Hc, Hf.
  - apply bind_ok in Hc as (q1 & Hq1 & Hc). apply Ok_inj in Hc.
    apply bind_ok in Hf as (link & _ & Hf).
    apply bind_ok in Hf as (q2 & Hq2 & Hf). apply Ok_inj in Hf.
    injection Hc as <- <-. injection Hf as <- <-.
    apply shifted_forget_font.
    apply (calendar_grid_shifted L month_abbr k _ _ _ _ _
             (shifted_after_set_font L k helvetica Bold 12 _ s1
                (exec L s2 [set_link link (page_no s2)]) Hs) Hq1 Hq2).
  - apply Ok_inj in Hc. apply Ok_inj in Hf.
    injection Hc as <- <-. injection Hf as <- <-. exact Hs.
Qed.

(** X12: when the title line fits on its page, the document [generate_pdf]
    writes has one title page, then as many pages of table as the loop settled
    on, then exactly the pages of the measuring pass. *)
Theorem final_page_count :
  forall L sympy month_abbr net username fuel repos contrib prioritize exclude d,
    title_fits L ->
    generate_pdf L sympy month_abbr net username fuel repos contrib
                 prioritize exclude = Some (Ok d) ->
    page (final_pdf d)
    = (1 + last (assumed_trace d) 0 + page (content_pdf d))%Z.
Proof.
  intros L sympy month_abbr net username fuel repos contrib prioritize exclude d
         Hfit H.
  destruct (generate_pdf_stages _ _ _ _ _ _ _ _ _ _ _ H)
    as (pc & relc & T & pt & ft & fc & idx & fr
        & _ & Hcc & Hcr & Hlast & _ & Htrial & HT & Hft & Hfc & Hfr & Hfinal).
  rewrite Hlast, Hfinal.
  unfold toc_trial in Htrial.
  destruct (final_toc_rows_shifted L 1 _ _ _ _ _ _ _ _
              (final_toc_heading_shifted L username Hfit) Htrial Hft)
    as ((Hp & _) & _ & _).
  assert (Hs0 : shifted_nf (1 + T) (exec L (new L) [add_page]) (exec L ft [add_page])).
  { apply shifted_nf_add_page. rewrite Hp, HT. cbn [new page]. lia. }
  pose proof (final_calendar_end_shifted _ _ _ _ _ _ _ _ _ _ _ Hs0 Hcc Hfc) as Hs1.
  pose proof (final_repos_end_shifted _ _ _ _ _ _ _ _ _ _ _ _ _ _ Hs1 Hcr Hfr)
    as (Hpage & _).
  unfold output, footer, draw; cbn [page]. lia.
Qed.

Lemma final_page_count_witness :
  exists d,
    generate_pdf Sample.a4 Sample.no_sympy Sample.jan Sample.net_B "u" 5
                 [Sample.repo "A" 5; Sample.repo "B" 3; Sample.repo "C" 1]
                 None [] []
    = Some (Ok d)
    /\ page (final_pdf d)
       = (1 + last (assumed_trace d) 0 + page (content_pdf d))%Z.
Proof.
  destruct (generate_pdf Sample.a4 Sample.no_sympy Sample.jan Sample.net_B "u" 5
              [Sample.repo "A" 5; Sample.repo "B" 3; Sample.repo "C" 1]
              None [] []) as [[d|e]|] eqn:E.
  - exists d. split; [reflexivity|].
    apply (final_page_count _ _ _ _ _ _ _ _ _ _ d) with (2 := E).
    unfold title_fits. vm_compute. discriminate.
  - exfalso. vm_compute in E. discriminate E.
  - exfalso. vm_compute in E. discriminate E.
Defined.

Lemma rel_pages_start_at_1_and_never_decrease_witness :
  exists d,
    generate_pdf Sample.a4 Sample.no_sympy Sample.jan Sample.net_B "u" 5
                 [Sample.repo "A" 5; Sample.repo "B" 3; Sample.repo "C" 1]
                 None [] []
    = Some (Ok d)
    /\ nondecreasing (rel_pages d)
    /\ nondecreasing (abs_pages d).
Proof.
  destruct (generate_pdf Sample.a4 Sample.no_sympy Sample.jan Sample.net_B "u" 5
              [Sample.repo "A" 5; Sample.repo "B" 3; Sample.repo "C" 1]
              None [] []) as [[d|e]|] eqn:E.
  - exists d. split; [reflexivity|].
    destruct (rel_pages_start_at_1_and_never_decrease _ _ _ _ _ _ _ _ _ _ d E)
      as (_ & _ & _ & H1 & H2).
    split; assumption.
  - exfalso. vm_compute in E. discriminate E.
  - exfalso. vm_compute in E. discriminate E.
Defined.

(** ** Which runs of [generate_pdf] return *)

Lemma font_do_add_page L s : font (do_add_page L s) = font s.
Proof. unfold do_add_page, footer. destruct (0 <? page s)%Z; reflexivity. Qed.

Lemma font_break L h s : font (break_if_needed L h s) = font s.
Proof.
  unfold break_if_needed. destruct (Qle_bool _ _); [reflexivity|].
  unfold move; cbn [font]. apply font_do_add_page.
Qed.

Lemma font_do_cell L w h t a l s : font (do_cell L w h t a l s) = font s.
Proof. unfold do_cell, move, draw; cbn [font]. apply font_break. Qed.

Lemma font_lines L w h ls :
  forall s, font (fold_left (do_line L w h) ls s) = font s.
Proof.
  induction ls as [|l ls IH]; intros s; simpl; [reflexivity|].
  rewrite IH. unfold do_line, move, draw; cbn [font]. apply font_break.
Qed.

Lemma font_exec1 L s c :
  no_font_call c = true -> font (exec1 L s c) = font s.
Proof.
  destruct c; cbn [exec1 no_font_call]; intros H; try reflexivity.
  - discriminate H.
  - apply font_do_cell.
  - unfold do_multi_cell, move; cbn [font]. apply font_lines.
  - apply font_do_add_page.
Qed.

Lemma font_exec L cs :
  forallb no_font_call cs = true -> forall s, font (exec L s cs) = font s.
Proof.
  induction cs as [|c cs IH]; intros H s; [reflexivity|].
  simpl in H. apply andb_true_iff in H as [Hc Hcs].
  rewrite exec_cons, (IH Hcs). now apply font_exec1.
Qed.

Lemma font_toc_row L ab s i e lk p :
  toc_row L ab s i e lk = Ok p -> font p = font s.
Proof.
  unfold toc_row. destruct (Qeq_bool _ 0); [discriminate|].
  destruct (nth_error ab i) as [n|]; cbn [bind or_raise]; [|discriminate].
  intros H. apply Ok_inj in H. subst p.
  rewrite !font_exec; reflexivity.
Qed.

Lemma hex_to_rgb_only_value_error s e :
  hex_to_rgb s = Raise e -> e = ValueError.
Proof.
  unfold hex_to_rgb.
  destruct (int16 (substring 0 2 _)) as [r|e1] eqn:E1; cbn [bind].
  2:{ intros H. injection H as <-. now apply int16_raises_value_error in E1. }
  destruct (int16 (substring 2 2 _)) as [g|e2] eqn:E2; cbn [bind].
  2:{ intros H. injection H as <-. now apply int16_raises_value_error in E2. }
  destruct (int16 (substring 4 2 _)) as [b|e3] eqn:E3; cbn [bind].
  - discriminate.
  - intros H. injection H as <-. now apply int16_raises_value_error in E3.
Qed.

Lemma final_toc_rows_handles L ab :
  forall es s lks0 p lks,
    final_toc_rows L ab s lks0 es = Ok (p, lks) ->
    lks = (lks0 ++ seq (S (List.length (links s))) (List.length es))%list.
Proof.
  induction es as [|[i e] es IH]; intros s lks0 p lks H;
    cbn [final_toc_rows add_link] in H.
  - apply Ok_inj in H. injection H as _ <-. cbn [List.length seq].
    now rewrite app_nil_r.
  - apply bind_ok in H as (q & Hq & H).
    pose proof (links_toc_row _ _ _ _ _ _ _ Hq) as Hl. cbn [with_links links] in Hl.
    rewrite (IH _ _ _ _ H), Hl, length_app. cbn [List.length seq].
    now rewrite Nat.add_1_r, <- app_assoc.
Qed.

Lemma content_pass_length L sympy month_abbr net username contrib sorted c rel :
  content_pass L sympy month_abbr net username contrib sorted = Ok (c, rel) ->
  List.length rel = List.length (entries_of contrib sorted).
Proof.
  unfold content_pass. intros H. apply bind_ok in H as ([pc relc] & Hcc & Hcr).
  destruct (content_repos_rel_pages _ _ _ _ _ _ _ _ _ Hcr)
    as (_ & new & -> & Hlen & _).
  unfold entries_of. rewrite !length_app, length_map, Hlen. f_equal.
  destruct contrib as [cal|]; cbn [content_calendar] in Hcc.
  - apply bind_ok in Hcc as (q & _ & Hcc). apply Ok_inj in Hcc.
    now injection Hcc as _ <-.
  - apply Ok_inj in Hcc. now injection Hcc as _ <-.
Qed.

Lemma final_calendar_index L month_abbr s lks contrib p idx :
  final_calendar L month_abbr s lks 0 contrib = Ok (p, idx) ->
  idx = List.length (match contrib with Some _ => [tt] | None => [] end).
Proof.
  destruct contrib as [c|]; cbn [final_calendar]; intros H.
  - apply bind_ok in H as (link & _ & H). apply bind_ok in H as (q & _ & H).
    apply Ok_inj in H. now injection H as _ <-.
  - apply Ok_inj in H. now injection H as _ <-.
Qed.

Section Outcome.
Variable L : Lib.
Variable sympy : string -> option string.
Variable month_abbr : string -> option string.
Variable net : Network.
Variable username : string.

(** The exceptions that are allowed to come out; each of the three kinds
    that depend on the input is either allowed or excluded by the input. *)
Variable P : Exn -> Prop.
Hypothesis request_case : P RequestException \/ responds net.
Hypothesis zero_case : P ZeroDivisionError \/ dot_has_width L.

Lemma month_labels_only y0 ws :
  P ValueError \/ Forall (week_ok month_abbr) ws ->
  forall i cur,
    raises_only P (month_labels month_abbr y0 cur (enumerate_from i ws)).
Proof.
  induction ws as [|week ws IH]; intros Hv i cur; cbn [enumerate_from month_labels].
  - exact Logic.I.
  - assert (Hv' : P ValueError \/ Forall (week_ok month_abbr) ws).
    { destruct Hv as [Hv|Hv]; [now left | right; now inversion Hv]. }
    destruct (contributionDays week) as [|d ds] eqn:Ed; [now apply IH|].
    destruct (month_abbr (date d)) as [m|] eqn:Em; cbn [or_raise bind].
    + destruct (opt_str_eqb cur m); [now apply IH|].
      apply raises_only_bind; [now apply IH | intros ?; exact Logic.I].
    + destruct Hv as [Hv|Hv]; [exact Hv|]. exfalso.
      inversion Hv as [|? ? [_ Hd] _]; subst.
      destruct (Hd _ _ Ed) as [m Hm]. congruence.
Qed.

Lemma week_squares_only y0 w days :
  P ValueError
  \/ (forall day, In day days -> exists c, hex_to_rgb (color day) = Ok c) ->
  forall j, raises_only P (week_squares y0 w (enumerate_from j days)).
Proof.
  induction days as [|day days IH]; intros Hv j; cbn [enumerate_from week_squares].
  - exact Logic.I.
  - destruct (hex_to_rgb (color day)) as [c|e] eqn:Ec; cbn [bind].
    + apply raises_only_bind; [|intros ?; exact Logic.I].
      apply IH. destruct Hv as [Hv|Hv]; [now left|].
      right. intros d Hd. apply Hv. now right.
    + rewrite (hex_to_rgb_only_value_error _ _ Ec).
      destruct Hv as [Hv|Hv]; [exact Hv|]. exfalso.
      destruct (Hv day (or_introl eq_refl)) as [c Hc]. congruence.
Qed.

Lemma week_columns_only y0 ws :
  P ValueError \/ Forall (week_ok month_abbr) ws ->
  forall i, raises_only P (week_columns y0 (enumerate_from i ws)).
Proof.
  induction ws as [|week ws IH]; intros Hv i; cbn [enumerate_from week_columns].
  - exact Logic.I.
  - apply raises_only_bind.
    + apply week_squares_only. destruct Hv as [Hv|Hv]; [now left|].
      right. inversion Hv as [|? ? [Hd _] _]; subst. exact Hd.
    + intros col. apply raises_only_bind; [|intros ?; exact Logic.I].
      apply IH. destruct Hv as [Hv|Hv]; [now left | right; now inversion Hv].
Qed.

Lemma calendar_grid_only pdf ws :
  P ValueError \/ Forall (week_ok month_abbr) ws ->
  raises_only P (calendar_grid L month_abbr pdf ws).
Proof.
  intros Hv. unfold calendar_grid, enumerate.
  apply raises_only_bind; [now apply month_labels_only | intros ?].
  apply raises_only_bind; [now apply week_columns_only | intros ?].
  exact Logic.I.
Qed.

Lemma repo_section_only pdf r :
  raises_only P (repo_section L sympy net username pdf r).
Proof.
  unfold repo_section. apply raises_only_bind; [|intros ?; exact Logic.I].
  unfold fetch_readme.
  match goal with
  | |- context [net ?u ?h] => destruct (net u h) as [st body|] eqn:En
  end.
  - destruct (st =? 200)%Z; exact Logic.I.
  - destruct request_case as [Hr|Hr]; [exact Hr|]. exfalso. now apply (Hr _ _ En).
Qed.

Lemma content_repos_only rs :
  forall pdf rel,
    raises_only P (content_repos L sympy net username pdf rel rs).
Proof.
  induction rs as [|r rs IH]; intros pdf rel; cbn [content_repos].
  - exact Logic.I.
  - apply raises_only_bind; [apply repo_section_only | intros ?; apply IH].
Qed.

Lemma toc_row_only ab s i e lk :
  font s = toc_font -> (i < List.length ab)%nat ->
  raises_only P (toc_row L ab s i e lk).
Proof.
  intros Hf Hi. unfold toc_row, get_string_width.
  rewrite font_exec by reflexivity. rewrite Hf.
  destruct (Qeq_bool (string_width L toc_font ".") 0) eqn:Ez.
  - destruct zero_case as [Hz|Hz]; [exact Hz|]. exfalso.
    unfold dot_has_width in Hz. congruence.
  - destruct (nth_error ab i) as [n|] eqn:En; cbn [or_raise bind]; [exact Logic.I|].
    exfalso. apply nth_error_None in En. lia.
Qed.

Lemma toc_rows_only ab es :
  forall i s,
    font s = toc_font -> (i + List.length es <= List.length ab)%nat ->
    raises_only P (toc_rows L ab s (enumerate_from i es)).
Proof.
  induction es as [|e es IH]; intros i s Hf Hi; cbn [enumerate_from toc_rows].
  - exact Logic.I.
  - simpl in Hi.
    pose proof (toc_row_only ab s i e NoLink Hf ltac:(lia)) as Hr.
    destruct (toc_row L ab s i e NoLink) as [q|x] eqn:Eq; cbn [bind].
    + apply IH; [|lia]. now rewrite (font_toc_row _ _ _ _ _ _ _ Eq).
    + exact Hr.
Qed.

Lemma final_toc_rows_only ab es :
  forall i s lks0,
    font s = toc_font -> (i + List.length es <= List.length ab)%nat ->
    raises_only P (final_toc_rows L ab s lks0 (enumerate_from i es)).
Proof.
  induction es as [|e es IH]; intros i s lks0 Hf Hi;
    cbn [enumerate_from final_toc_rows add_link].
  - exact Logic.I.
  - simpl in Hi.
    match goal with
    | |- context [toc_row L ab ?s' i e ?lk] =>
        pose proof (toc_row_only ab s' i e lk Hf ltac:(lia)) as Hr;
        destruct (toc_row L ab s' i e lk) as [q|x] eqn:Eq; cbn [bind]
    end.
    + apply IH; [|lia]. rewrite (font_toc_row _ _ _ _ _ _ _ Eq). exact Hf.
    + exact Hr.
Qed.

Lemma toc_heading_font s : font (exec L s toc_heading) = toc_font.
Proof. reflexivity. Qed.

Lemma toc_trial_only entries ab :
  (List.length entries <= List.length ab)%nat ->
  raises_only P (toc_trial L entries ab).
Proof.
  intros Hlen. unfold toc_trial, enumerate.
  apply toc_rows_only; [apply toc_heading_font | simpl; lia].
Qed.

Lemma toc_loop_only entries rel :
  (List.length entries <= List.length rel)%nat ->
  forall fuel assumed seen e,
    toc_loop L fuel entries rel assumed seen = Some (Raise e) -> P e.
Proof.
  intros Hlen. induction fuel as [|fuel IH]; intros assumed seen e;
    cbn [toc_loop]; [discriminate|].
  pose proof (toc_trial_only entries (abs_pages_for rel assumed)) as Ht.
  unfold abs_pages_for in Ht at 1. rewrite length_map in Ht. specialize (Ht Hlen).
  destruct (toc_trial L entries (abs_pages_for rel assumed)) as [p|x].
  - destruct (page_no p =? assumed)%Z; [discriminate | apply IH].
  - intros H. injection H as <-. exact Ht.
Qed.

Lemma final_repos_only lks rs :
  forall pdf idx,
    (idx + List.length rs <= List.length lks)%nat ->
    raises_only P (final_repos L sympy net username pdf lks idx rs).
Proof.
  induction rs as [|r rs IH]; intros pdf idx Hi; cbn [final_repos].
  - exact Logic.I.
  - simpl in Hi. destruct (nth_error lks idx) as [link|] eqn:En.
    2:{ exfalso. apply nth_error_None in En. lia. }
    cbn [or_raise bind].
    apply raises_only_bind; [apply repo_section_only|].
    intros q. apply IH. lia.
Qed.

Lemma final_calendar_only pdf lks contrib :
  P ValueError \/ calendar_ok month_abbr contrib ->
  (List.length (match contrib with Some _ => [tt] | None => [] end)
   <= List.length lks)%nat ->
  raises_only P (final_calendar L month_abbr pdf lks 0 contrib).
Proof.
  intros Hv Hl. unfold final_calendar. destruct contrib as [c|]; [|exact Logic.I].
  destruct (nth_error lks 0) as [link|] eqn:En.
  2:{ exfalso. apply nth_error_None in En. simpl in Hl. lia. }
  cbn [or_raise bind].
  apply raises_only_bind; [|intros ?; exact Logic.I].
  apply calendar_grid_only.
  destruct Hv as [Hv|Hv]; [now left | right; exact Hv].
Qed.

(** Whatever exception leaves [generate_pdf] is an allowed one. *)
Lemma generate_pdf_only fuel repos contrib prioritize exclude e :
  P ValueError \/ calendar_ok month_abbr contrib ->
  generate_pdf L sympy month_abbr net username fuel repos contrib
               prioritize exclude = Some (Raise e) ->
  P e.
Proof.
  intros Hv. unfold generate_pdf.
  set (sorted := sorted_repos repos prioritize exclude).
  set (entries := entries_of contrib sorted).
  assert (Hcal : forall c, contrib = Some c ->
                           P ValueError \/ Forall (week_ok month_abbr) (skipn 1 (weeks c))).
  { intros c ->. destruct Hv as [Hv|Hv]; [now left | right; exact Hv]. }
  assert (Hc : raises_only P
                 (content_pass L sympy month_abbr net username contrib sorted)).
  { unfold content_pass. apply raises_only_bind.
    - unfold content_calendar. destruct contrib as [c|]; [|exact Logic.I].
      apply raises_only_bind; [|intros ?; exact Logic.I].
      apply calendar_grid_only. now apply Hcal.
    - intros [p rl]. apply content_repos_only. }
  destruct (content_pass _ _ _ _ _ _ _) as [[content rel]|x] eqn:Ec; cbn in Hc.
  2:{ intros H. injection H as <-. exact Hc. }
  pose proof (content_pass_length _ _ _ _ _ _ _ _ _ Ec) as Hlen.
  fold entries in Hlen.
  destruct (toc_loop L fuel entries rel 1 []) as [[[seen ab]|x]|] eqn:El.
  3:{ discriminate. }
  2:{ intros H. injection H as <-.
      apply (toc_loop_only entries rel ltac:(lia) _ _ _ _ El). }
  destruct (toc_loop_converged _ _ _ _ _ _ _ _ El) as (T & pt & Hab & _ & _).
  assert (Hlab : List.length ab = List.length entries).
  { rewrite Hab. unfold abs_pages_for. now rewrite length_map. }
  assert (Hf : raises_only P
                 (final_pass L sympy month_abbr net username entries ab
                             contrib sorted)).
  { unfold final_pass, enumerate.
    pose proof (final_toc_rows_only ab entries 0
                  (exec L (exec L (new L) (title_page username)) toc_heading) []
                  (toc_heading_font _) ltac:(simpl; lia)) as Hrows.
    destruct (final_toc_rows L ab _ [] (enumerate_from 0 entries))
      as [[ft lks]|x] eqn:Eft; cbn [bind]; [|exact Hrows].
    pose proof (final_toc_rows_handles _ _ _ _ _ _ _ Eft) as Hlks.
    rewrite length_enumerate_from in Hlks.
    assert (Hll : List.length lks = List.length entries).
    { rewrite Hlks. cbn [app]. apply length_seq. }
    assert (Hentries : List.length entries
                       = (List.length (match contrib with
                                       | Some _ => [tt] | None => [] end)
                          + List.length sorted)%nat).
    { unfold entries, entries_of. rewrite length_app, length_map.
      now destruct contrib. }
    assert (Hfc : raises_only P
                    (final_calendar L month_abbr (exec L ft [add_page]) lks 0
                                    contrib)).
    { apply final_calendar_only; [exact Hv | lia]. }
    destruct (final_calendar L month_abbr _ lks 0 contrib)
      as [[fc idx]|x] eqn:Efc; cbn [bind]; [|exact Hfc].
    apply raises_only_bind; [|intros ?; exact Logic.I].
    apply final_repos_only.
    rewrite (final_calendar_index _ _ _ _ _ _ _ Efc). lia. }
  destruct (final_pass _ _ _ _ _ _ _ _ _) as [[fp lks]|x]; cbn in Hf.
  - discriminate.
  - intros H. injection H as <-. exact Hf.
Qed.

End Outcome.

(** X13: whatever the input, no list index of [generate_pdf] is ever out of
    range: [abs_pages[i]] in the rows of the table and [links[idx]] at the
    start of a section never raise [IndexError]. *)
Theorem generate_pdf_never_index_error :
  forall L sympy month_abbr net username fuel repos contrib prioritize exclude,
    generate_pdf L sympy month_abbr net username fuel repos contrib
                 prioritize exclude
    <> Some (Raise IndexError).
Proof.
  intros L sympy month_abbr net username fuel repos contrib prioritize exclude H.
  apply (generate_pdf_only L sympy month_abbr net username
           (fun e => e <> IndexError)) in H.
  - now apply H.
  - left. discriminate.
  - left. discriminate.
  - left. discriminate.
Qed.

(** X14: [generate_pdf] returns a document, after at most two rounds of the
    loop, whenever every readme request gets a response, the colours and first
    dates of the weeks that are drawn can be read, and a dot has a width in
    the font of the table. *)
Theorem generate_pdf_returns :
  forall L sympy month_abbr net username fuel repos contrib prioritize exclude,
    (2 <= fuel)%nat ->
    responds net ->
    calendar_ok month_abbr contrib ->
    dot_has_width L ->
    exists d,
      generate_pdf L sympy month_abbr net username fuel repos contrib
                   prioritize exclude = Some (Ok d).
Proof.
  intros L sympy month_abbr net username fuel repos contrib prioritize exclude
         Hfuel Hnet Hcal Hdot.
  destruct (generate_pdf L sympy month_abbr net username fuel repos contrib
                         prioritize exclude) as [[d|e]|] eqn:E.
  - now exists d.
  - exfalso.
    apply (generate_pdf_only L sympy month_abbr net username (fun _ => False)
             (or_intror Hnet) (or_intror Hdot) fuel repos contrib prioritize
             exclude e (or_intror Hcal) E).
  - exfalso. unfold generate_pdf in E.
    destruct (content_pass _ _ _ _ _ _ _) as [[content rel]|x]; [|discriminate].
    pose proof (toc_loop_unrolled L
                  (entries_of contrib (sorted_repos repos prioritize exclude))
                  rel fuel Hfuel) as Hl.
    destruct (toc_trial L _ (abs_pages_for rel 1)) as [p|x].
    + destruct Hl as [_ Hl]. rewrite Hl in E.
      destruct (final_pass _ _ _ _ _ _ _ _ _) as [[fp lks]|y]; discriminate.
    + rewrite Hl in E. discriminate.
Qed.

Lemma generate_pdf_returns_witness :
  exists d,
    generate_pdf Sample.a4 Sample.no_sympy Sample.jan Sample.net_404 "u" 2
                 [Sample.repo "A" 5; Sample.repo "B" 10]
                 (Some (mkContrib 3 (Sample.n_weeks 3))) [] []
    = Some (Ok d).
Proof.
  apply (generate_pdf_returns Sample.a4 Sample.no_sympy Sample.jan
           Sample.net_404 "u" 2).
  - lia.
  - intros url headers. discriminate.
  - cbn [calendar_ok weeks Sample.n_weeks tl].
    repeat constructor; try (intros day [<-|[<-|[]]]; eexists; reflexivity);
      intros d ds H; injection H as <- _; eexists; reflexivity.
  - unfold dot_has_width. vm_compute. reflexivity.
Defined.

(** ** The footers of the final document *)

Lemma keeps_footers_refl L s : keeps_footers L s s.
Proof. intros H. exact H. Qed.

Lemma keeps_footers_trans L s1 s2 s3 :
  keeps_footers L s1 s2 -> keeps_footers L s2 s3 -> keeps_footers L s1 s3.
Proof. intros H12 H23 H. apply H23, H12, H. Qed.

Lemma keeps_footers_same L s s' :
  page s' = page s -> (forall d, In d (out s) -> In d (out s')) ->
  keeps_footers L s s'.
Proof.
  intros Hp Ho H k Hk. rewrite Hp in Hk. destruct (H k Hk) as [c Hc].
  exists c. now apply Ho.
Qed.

Lemma keeps_footers_draw L d s : keeps_footers L s (draw d s).
Proof.
  apply keeps_footers_same; [reflexivity|].
  intros d' Hd. cbn [draw out]. apply in_or_app. now left.
Qed.

Lemma keeps_footers_move L nx ny s : keeps_footers L s (move nx ny s).
Proof. apply keeps_footers_same; [reflexivity | intros d Hd; exact Hd]. Qed.

Lemma keeps_footers_add_page L s : keeps_footers L s (do_add_page L s).
Proof.
  intros H k Hk. unfold do_add_page in *.
  destruct (Z.ltb_spec 0 (page s)) as [Hpos|Hpos]; cbn [page out footer draw] in *.
  - destruct (Z.eq_dec k (page s)) as [->|Hne].
    + exists (text_color s). apply in_or_app. right. left. reflexivity.
    + destruct (H k ltac:(lia)) as [c Hc]. exists c. apply in_or_app. now left.
  - lia.
Qed.

Lemma keeps_footers_break L h s : keeps_footers L s (break_if_needed L h s).
Proof.
  unfold break_if_needed. destruct (Qle_bool _ _); [apply keeps_footers_refl|].
  eapply keeps_footers_trans; [apply keeps_footers_add_page|].
  apply keeps_footers_move.
Qed.

Lemma keeps_footers_line L w h s l : keeps_footers L s (do_line L w h s l).
Proof.
  unfold do_line.
  eapply keeps_footers_trans; [apply (keeps_footers_break L h)|].
  eapply keeps_footers_trans; [apply keeps_footers_draw|].
  apply keeps_footers_move.
Qed.

Lemma keeps_footers_lines L w h ls :
  forall s, keeps_footers L s (fold_left (do_line L w h) ls s).
Proof.
  induction ls as [|l ls IH]; intros s; cbn [fold_left].
  - apply keeps_footers_refl.
  - eapply keeps_footers_trans; [apply keeps_footers_line | apply IH].
Qed.

Lemma keeps_footers_exec1 L s c : keeps_footers L s (exec1 L s c).
Proof.
  destruct c; cbn [exec1];
    try (apply keeps_footers_same; [reflexivity | intros d Hd; exact Hd]).
  - unfold do_cell.
    eapply keeps_footers_trans; [apply (keeps_footers_break L h)|].
    eapply keeps_footers_trans; [apply keeps_footers_draw|].
    apply keeps_footers_move.
  - unfold do_multi_cell.
    eapply keeps_footers_trans; [apply keeps_footers_lines|].
    apply keeps_footers_move.
  - apply keeps_footers_draw.
  - apply keeps_footers_draw.
  - apply keeps_footers_add_page.
Qed.

Lemma keeps_footers_exec L cs : forall s, keeps_footers L s (exec L s cs).
Proof.
  induction cs as [|c cs IH]; intros s.
  - rewrite exec_nil. apply keeps_footers_refl.
  - rewrite exec_cons.
    eapply keeps_footers_trans; [apply keeps_footers_exec1 | apply IH].
Qed.

Lemma keeps_footers_toc_row L ab s i e lk p :
  toc_row L ab s i e lk = Ok p -> keeps_footers L s p.
Proof.
  unfold toc_row. destruct (Qeq_bool _ 0); [discriminate|].
  destruct (nth_error ab i) as [n|]; cbn [bind or_raise]; [|discriminate].
  intros H. apply Ok_inj in H. subst p.
  eapply keeps_footers_trans; [apply keeps_footers_exec|].
  eapply keeps_footers_trans; [apply keeps_footers_exec|].
  apply keeps_footers_exec.
Qed.

Lemma keeps_footers_final_toc_rows L ab :
  forall es s lks0 p lks,
    final_toc_rows L ab s lks0 es = Ok (p, lks) -> keeps_footers L s p.
Proof.
  induction es as [|[i e] es IH]; intros s lks0 p lks H;
    cbn [final_toc_rows add_link] in H.
  - apply Ok_inj in H. injection H as <- _. apply keeps_footers_refl.
  - apply bind_ok in H as (q & Hq & H).
    eapply keeps_footers_trans; [|apply (IH _ _ _ _ H)].
    eapply keeps_footers_trans; [|apply (keeps_footers_toc_row _ _ _ _ _ _ _ Hq)].
    apply keeps_footers_same; [reflexivity | intros d Hd; exact Hd].
Qed.

Lemma keeps_footers_calendar_grid L month_abbr s ws p :
  calendar_grid L month_abbr s ws = Ok p -> keeps_footers L s p.
Proof.
  unfold calendar_grid. intros H.
  apply bind_ok in H as (labels & _ & H).
  apply bind_ok in H as (cols & _ & H). apply Ok_inj in H. subst p.
  eapply keeps_footers_trans; [apply keeps_footers_exec|].
  eapply keeps_footers_trans; [apply keeps_footers_exec|].
  eapply keeps_footers_trans; [apply keeps_footers_exec|].
  apply keeps_footers_exec.
Qed.

Lemma keeps_footers_repo_section L sympy net username s r p :
  repo_section L sympy net username s r = Ok p -> keeps_footers L s p.
Proof.
  unfold repo_section. intros H. apply bind_ok in H as (readme & _ & H).
  apply Ok_inj in H. subst p.
  eapply keeps_footers_trans; [apply keeps_footers_exec|].
  eapply keeps_footers_trans; [apply keeps_footers_exec|].
  apply keeps_footers_exec.
Qed.

Lemma keeps_footers_final_calendar L month_abbr s lks idx contrib p idx' :
  final_calendar L month_abbr s lks idx contrib = Ok (p, idx') ->
  keeps_footers L s p.
Proof.
  destruct contrib as [c|]; cbn [final_calendar]; intros H.
  - apply bind_ok in H as (link & _ & H). apply bind_ok in H as (q & Hq & H).
    apply Ok_inj in H. injection H as <- _.
    eapply keeps_footers_trans;
      [|apply (keeps_footers_calendar_grid _ _ _ _ _ Hq)].
    eapply keeps_footers_trans; [apply keeps_footers_exec|].
    apply keeps_footers_exec.
  - apply Ok_inj in H. injection H as <- _. apply keeps_footers_refl.
Qed.

Lemma keeps_footers_final_repos L sympy net username lks :
  forall rs s idx p,
    final_repos L sympy net username s lks idx rs = Ok p -> keeps_footers L s p.
Proof.
  induction rs as [|r rs IH]; intros s idx p H; cbn [final_repos] in H.
  - apply Ok_inj in H. subst p. apply keeps_footers_refl.
  - apply bind_ok in H as (link & _ & H). apply bind_ok in H as (q & Hq & H).
    eapply keeps_footers_trans; [|apply (IH _ _ _ H)].
    eapply keeps_footers_trans;
      [|apply (keeps_footers_repo_section _ _ _ _ _ _ _ Hq)].
    apply keeps_footers_exec.
Qed.

(** X15: every page of the document [generate_pdf] writes, from the title
    page to the last one, carries the footer cell of the [PDF] class with its
    own number: pages closed by [add_page] or by an automatic page break get
    it then, the last page gets it from [output]. *)
Theorem every_page_has_its_footer :
  forall L sympy month_abbr net username fuel repos contrib prioritize exclude
         d k,
    generate_pdf L sympy month_abbr net username fuel repos contrib
                 prioritize exclude = Some (Ok d) ->
    (1 <= k <= page (final_pdf d))%Z ->
    exists c, In (footer_cell L k c) (out (final_pdf d)).
Proof.
  intros L sympy month_abbr net username fuel repos contrib prioritize exclude
         d k H Hk.
  destruct (generate_pdf_stages _ _ _ _ _ _ _ _ _ _ _ H)
    as (pc & relc & T & pt & ft & fc & idx & fr
        & _ & _ & _ & _ & _ & _ & _ & Hft & Hfc & Hfr & Hfinal).
  rewrite Hfinal in *. clear Hfinal H.
  assert (Hfooted : closed_pages_footed L fr).
  { apply (keeps_footers_final_repos _ _ _ _ _ _ _ _ _ Hfr).
    apply (keeps_footers_final_calendar _ _ _ _ _ _ _ _ Hfc).
    apply keeps_footers_exec.
    apply (keeps_footers_final_toc_rows _ _ _ _ _ _ _ Hft).
    apply keeps_footers_exec. apply keeps_footers_exec.
    intros j Hj. cbn [new page] in Hj. lia. }
  unfold output, footer, draw in *. cbn [page out] in *.
  destruct (Z.eq_dec k (page fr)) as [->|Hne].
  - exists (text_color fr). apply in_or_app. right. left. reflexivity.
  - destruct (Hfooted k ltac:(lia)) as [c Hc]. exists c.
    apply in_or_app. now left.
Qed.

Lemma every_page_has_its_footer_witness :
  exists d,
    generate_pdf Sample.a4 Sample.no_sympy Sample.jan Sample.net_B "u" 5
                 [Sample.repo "A" 5; Sample.repo "B" 3; Sample.repo "C" 1]
                 None [] []
    = Some (Ok d)
    /\ (1 <= 4 <= page (final_pdf d))%Z
    /\ exists c, In (footer_cell Sample.a4 4 c) (out (final_pdf d)).
Proof.
  destruct (generate_pdf Sample.a4 Sample.no_sympy Sample.jan Sample.net_B "u" 5
              [Sample.repo "A" 5; Sample.repo "B" 3; Sample.repo "C" 1]
              None [] []) as [[d|e]|] eqn:E.
  - assert (Hk : (1 <= 4 <= page (final_pdf d))%Z).
    { vm_compute in E. injection E as <-. vm_compute. split; discriminate. }
    exists d. split; [reflexivity|]. split; [exact Hk|].
    exact (every_page_has_its_footer _ _ _ _ _ _ _ _ _ _ d 4%Z E Hk).
  - exfalso. vm_compute in E. discriminate E.
  - exfalso. vm_compute in E. discriminate E.
Defined.

(** ** [fetch_repos] *)

Lemma fetch_loop_pages net headers url ps :
  pages_from net headers url ps ->
  forall fuel acc,
    (List.length ps <= fuel)%nat ->
    Api.fetch_loop net headers fuel url acc
    = Some (Api.Returned (acc ++ List.concat ps)%list).
Proof.
  induction 1 as [|u Hu|u resp pg ps Hu Hnet Hst Hjs Hrest IH];
    intros fuel acc Hfuel.
  - destruct fuel; cbn [Api.fetch_loop List.concat]; now rewrite app_nil_r.
  - destruct fuel; cbn [Api.fetch_loop List.concat]; rewrite Hu;
      now rewrite app_nil_r.
  - destruct fuel as [|fuel]; [simpl in Hfuel; lia|].
    cbn [Api.fetch_loop]. rewrite Hu, Hnet, Hst, Hjs.
    rewrite IH by (simpl in Hfuel; lia).
    cbn [List.concat]. now rewrite app_assoc.
Qed.

Lemma fetch_loop_returned net headers :
  forall fuel url acc rs,
    Api.fetch_loop net headers fuel url acc = Some (Api.Returned rs) ->
    exists ps,
      pages_from net headers url ps /\ rs = (acc ++ List.concat ps)%list
      /\ (List.length ps <= fuel)%nat.
Proof.
  induction fuel as [|fuel IH]; intros url acc rs H.
  - destruct url as [u|]; cbn [Api.fetch_loop] in H.
    + destruct (nonempty u) eqn:Hu; [discriminate|].
      injection H as <-. exists []. cbn [List.concat List.length].
      rewrite app_nil_r. repeat split; [now constructor | lia].
    + injection H as <-. exists []. cbn [List.concat List.length].
      rewrite app_nil_r. repeat split; [constructor | lia].
  - destruct url as [u|]; cbn [Api.fetch_loop] in H.
    + destruct (nonempty u) eqn:Hu.
      * destruct (net u headers) as [resp|] eqn:Hnet; [|discriminate].
        destruct (Api.is_error_status (Api.resp_status resp)) eqn:Hst;
          [discriminate|].
        destruct (Api.resp_json resp) as [pg|] eqn:Hjs; [|discriminate].
        destruct (IH _ _ _ H) as (ps & Hps & -> & Hlen).
        exists (pg :: ps). cbn [List.concat List.length].
        rewrite app_assoc. repeat split; [|lia].
        now apply pages_next with (resp := resp).
      * injection H as <-. exists []. cbn [List.concat List.length].
        rewrite app_nil_r. repeat split; [now constructor | lia].
    + injection H as <-. exists []. cbn [List.concat List.length].
      rewrite app_nil_r. repeat split; [constructor | lia].
Qed.

(** X16: when the listing of the repositories comes in pages chained by
    their next links, every request being answered without an error status
    and with a body that decodes, [fetch_repos] returns the repositories of
    all the pages, in the order of the pages. *)
Theorem fetch_repos_returns_all_pages :
  forall net fuel username token ps,
    pages_from net (Api.auth_headers token) (Some (Api.repos_url username)) ps ->
    (List.length ps <= fuel)%nat ->
    Api.fetch_repos net fuel username token
    = Some (Api.Returned (List.concat ps)).
Proof.
  intros net fuel username token ps Hps Hfuel. unfold Api.fetch_repos.
  now rewrite (fetch_loop_pages _ _ _ _ Hps fuel [] Hfuel).
Qed.

Lemma fetch_repos_returns_all_pages_witness :
  Api.fetch_repos Sample.api_two_pages 2 "u" None
  = Some (Api.Returned [Sample.repo "A" 5; Sample.repo "B" 3; Sample.repo "C" 1]).
Proof.
  apply (fetch_repos_returns_all_pages Sample.api_two_pages 2 "u" None
           [[Sample.repo "A" 5; Sample.repo "B" 3]; [Sample.repo "C" 1]]).
  - eapply pages_next; [reflexivity | reflexivity | reflexivity | reflexivity |].
    eapply pages_next; [reflexivity | reflexivity | reflexivity | reflexivity |].
    apply pages_none.
  - simpl. lia.
Defined.

(** X17: [fetch_repos] never returns a partial listing: a list it returns is
    made of all the pages of a chain that was followed to its end, so a
    request that gets no answer, an error status or a body that does not
    decode on any page loses the pages read before it. *)
Theorem fetch_repos_never_partial :
  forall net fuel username token rs,
    Api.fetch_repos net fuel username token = Some (Api.Returned rs) ->
    exists ps,
      pages_from net (Api.auth_headers token) (Some (Api.repos_url username)) ps
      /\ rs = List.concat ps.
Proof.
  intros net fuel username token rs H. unfold Api.fetch_repos in H.
  destruct (fetch_loop_returned _ _ _ _ _ _ H) as (ps & Hps & Hrs & _).
  exists ps. split; [exact Hps | exact Hrs].
Qed.

Lemma fetch_repos_never_partial_witness :
  exists ps,
    pages_from Sample.api_two_pages (Api.auth_headers None)
               (Some (Api.repos_url "u")) ps
    /\ [Sample.repo "A" 5; Sample.repo "B" 3; Sample.repo "C" 1]
       = List.concat ps.
Proof.
  apply (fetch_repos_never_partial Sample.api_two_pages 2 "u" None).
  reflexivity.
Defined.

(** ** The name of the file that is written *)

Lemma rev_append a b : rev (a ++ b) = (rev b ++ rev a)%string.
Proof.
  induction a as [|c a IH].
  - cbn [append]. change (rev EmptyString) with EmptyString.
    now rewrite append_empty_r.
  - cbn [append]. now rewrite !rev_cons, IH, append_assoc.
Qed.

Lemma prefix_append a b : prefix a (a ++ b) = true.
Proof.
  induction a as [|c a IH]; [now destruct b|].
  simpl. destruct (ascii_dec c c) as [_|Hne]; [exact IH | now destruct Hne].
Qed.

Lemma endswith_append s suffix : Main.endswith (s ++ suffix) suffix = true.
Proof. unfold Main.endswith. rewrite rev_append. apply prefix_append. Qed.

(** X18: whatever name is given with [--output], the name the script writes
    to ends with the extension of the chosen format, and a name that the
    script has completed is not completed again. *)
Theorem output_path_has_extension :
  forall f output,
    Main.endswith (Main.output_path f output) (Main.extension f) = true
    /\ Main.output_path f (Main.output_path f output)
       = Main.output_path f output.
Proof.
  intros f output.
  assert (H : Main.endswith (Main.output_path f output) (Main.extension f)
              = true).
  { unfold Main.output_path.
    destruct (Main.endswith output (Main.extension f)) eqn:E;
      [exact E | apply endswith_append]. }
  split; [exact H|].
  unfold Main.output_path at 1. now rewrite H.
Qed.

(** X19: a name that ends with the extension of another format is not
    recognised: it is kept whole and the extension of the chosen format is
    appended, so [--format html] with the default name [portfolio.pdf]
    writes [portfolio.pdf.html]. *)
Theorem output_path_other_extension :
  forall f g stem,
    f <> g ->
    Main.output_path f (stem ++ Main.extension g)
    = ((stem ++ Main.extension g) ++ Main.extension f)%string.
Proof.
  intros f g stem Hfg. unfold Main.output_path, Main.endswith.
  rewrite rev_append.
  destruct f, g; try (now destruct Hfg); reflexivity.
Qed.

Lemma output_path_other_extension_witness :
  Main.output_path Main.fmt_html "portfolio.pdf" = "portfolio.pdf.html".
Proof.
  apply (output_path_other_extension Main.fmt_html Main.fmt_pdf "portfolio").
  discriminate.
Defined.

(** ** The HTML page *)

Lemma is_h2_heading e rest : is_h2 ("<h2>" ++ e ++ rest) = true.
Proof. unfold is_h2, startswith. apply prefix_append. Qed.

Lemma html_days_no_h2 ws :
  filter is_h2
         (flat_map (fun week => map Pages.html_day (contributionDays week)) ws)
  = [].
Proof.
  induction ws as [|w ws IH]; [reflexivity|].
  cbn [flat_map]. rewrite filter_app, IH, app_nil_r.
  induction (contributionDays w) as [|day ds IHd]; [reflexivity|].
  cbn [map filter]. exact IHd.
Qed.

Lemma html_calendar_h2 contrib :
  filter is_h2 (Pages.html_calendar contrib)
  = map (fun e => "<h2>" ++ e ++ "</h2>" ++ Pages.nl)
        (match contrib with
         | Some _ => ["Contribution Calendar"]
         | None => []
         end).
Proof.
  destruct contrib as [c|]; [|reflexivity].
  unfold Pages.html_calendar, app.
  cbn [filter]. fold (@app string).
  change (is_h2 ("<h2>Contribution Calendar</h2>" ++ Pages.nl)) with true.
  cbv iota. f_equal.
  match goal with
  | |- context [is_h2 ?p] =>
      replace (is_h2 p) with false by reflexivity
  end.
  rewrite filter_app, html_days_no_h2. reflexivity.
Qed.

Lemma html_repo_head_h2 r :
  filter is_h2 (Pages.html_repo_head r)
  = ["<h2>" ++ name r ++ "</h2>" ++ Pages.nl].
Proof.
  unfold Pages.html_repo_head. cbn [filter].
  rewrite is_h2_heading.
  replace (is_h2 ("<p>" ++ desc_of r ++ "</p>" ++ Pages.nl)) with false
    by reflexivity.
  replace (is_h2 ("<a href=" ++ Pages.dq ++ html_url r ++ Pages.dq
                  ++ ">Link</a>" ++ Pages.nl)) with false by reflexivity.
  reflexivity.
Qed.

Lemma html_readme_h2 readme : filter is_h2 (Pages.html_readme readme) = [].
Proof.
  destruct readme as [r|]; [|reflexivity].
  unfold Pages.html_readme. destruct (nonempty r); reflexivity.
Qed.

Lemma html_repos_h2 net username :
  forall rs,
    snd (Pages.html_repos net username rs) = None ->
    filter is_h2 (fst (Pages.html_repos net username rs))
    = map (fun e => "<h2>" ++ e ++ "</h2>" ++ Pages.nl) (map name rs).
Proof.
  induction rs as [|r rs IH]; [reflexivity|].
  cbn [Pages.html_repos].
  destruct (fetch_readme net username (name r) None) as [readme|e];
    [|discriminate].
  destruct (Pages.html_repos net username rs) as [ws e]. cbn [fst snd] in *.
  intros He. rewrite !filter_app, html_repo_head_h2, html_readme_h2, (IH He).
  reflexivity.
Qed.

Lemma content_repos_html_complete L sympy net username :
  forall rs s rel p rel',
    content_repos L sympy net username s rel rs = Ok (p, rel') ->
    snd (Pages.html_repos net username rs) = None.
Proof.
  induction rs as [|r rs IH]; intros s rel p rel' H; [reflexivity|].
  cbn [content_repos] in H. apply bind_ok in H as (q & Hq & H).
  unfold repo_section in Hq. apply bind_ok in Hq as (readme & Hr & _).
  cbn [Pages.html_repos]. rewrite Hr.
  specialize (IH _ _ _ _ H).
  destruct (Pages.html_repos net username rs) as [ws e]. exact IH.
Qed.

(** X20: on an input for which [generate_pdf] returns, [generate_html]
    writes the whole page, and the second-level headings it writes are the
    entries of the table of contents of the PDF, in the same order. *)
Theorem html_headings_are_toc_entries :
  forall L sympy month_abbr net username fuel repos contrib prioritize exclude d,
    generate_pdf L sympy month_abbr net username fuel repos contrib
                 prioritize exclude = Some (Ok d) ->
    let file :=
      Pages.generate_html net username repos contrib prioritize exclude in
    snd file = None
    /\ last (fst file) EmptyString = "</body></html>"
    /\ filter is_h2 (fst file)
       = map (fun e => "<h2>" ++ e ++ "</h2>" ++ Pages.nl) (toc_entries d).
Proof.
  intros L sympy month_abbr net username fuel repos contrib prioritize exclude
         d H.
  destruct (generate_pdf_stages _ _ _ _ _ _ _ _ _ _ _ H)
    as (pc & relc & T & pt & ft & fc & idx & fr
        & Hentries & _ & Hcr & _).
  pose proof (content_repos_html_complete _ _ _ _ _ _ _ _ _ Hcr) as Hdone.
  pose proof (html_repos_h2 net username _ Hdone) as Hh2.
  rewrite Hentries. unfold Pages.generate_html, entries_of.
  destruct (Pages.html_repos net username
              (sorted_repos repos prioritize exclude)) as [ws e].
  cbn [fst snd] in Hdone, Hh2. subst e. cbn [fst snd].
  split; [reflexivity|]. split.
  - rewrite !app_assoc. apply last_last.
  - rewrite !filter_app, Hh2, map_app.
    replace (filter is_h2 ["</body></html>"]) with (@nil string)
      by reflexivity.
    rewrite app_nil_r. f_equal.
    cbn [app filter].
    replace (is_h2 ("<html><head><title>" ++ username
                    ++ "'s GitHub Portfolio</title></head><body>" ++ Pages.nl))
      with false by reflexivity.
    replace (is_h2 ("<h1>" ++ username ++ "'s GitHub Portfolio</h1>"
                    ++ Pages.nl)) with false by reflexivity.
    apply html_calendar_h2.
Qed.

Lemma html_headings_are_toc_entries_witness :
  exists d,
    generate_pdf Sample.a4 Sample.no_sympy Sample.jan Sample.net_B "u" 5
                 [Sample.repo "A" 5; Sample.repo "B" 3] None [] []
    = Some (Ok d)
    /\ filter is_h2
              (fst (Pages.generate_html Sample.net_B "u"
                      [Sample.repo "A" 5; Sample.repo "B" 3] None [] []))
       = map (fun e => "<h2>" ++ e ++ "</h2>" ++ Pages.nl) (toc_entries d).
Proof.
  destruct (generate_pdf Sample.a4 Sample.no_sympy Sample.jan Sample.net_B "u" 5
              [Sample.repo "A" 5; Sample.repo "B" 3] None [] [])
    as [[d|e]|] eqn:E.
  - exists d. split; [reflexivity|].
    apply (html_headings_are_toc_entries _ _ _ _ _ _ _ _ _ _ d E).
  - exfalso. vm_compute in E. discriminate E.
  - exfalso. vm_compute in E. discriminate E.
Defined.

Lemma toc_numbers_always_one_short_witness :
  exists d T,
    generate_pdf Sample.a4 Sample.no_sympy Sample.jan Sample.net_B "u" 5
                 [Sample.repo "A" 5; Sample.repo "B" 3; Sample.repo "C" 1]
                 None [] []
    = Some (Ok d)
    /\ abs_pages d = map (fun r => (r + T)%Z) (rel_pages d)
    /\ links (final_pdf d) = map (fun a => (a + 1)%Z) (abs_pages d)
    /\ links (final_pdf d) = map (fun r => (r + (1 + T))%Z) (rel_pages d).
Proof.
  destruct (generate_pdf Sample.a4 Sample.no_sympy Sample.jan Sample.net_B "u" 5
              [Sample.repo "A" 5; Sample.repo "B" 3; Sample.repo "C" 1]
              None [] []) as [[d|e]|] eqn:E.
  - assert (Hfit : title_fits Sample.a4).
    { unfold title_fits. vm_compute. discriminate. }
    destruct (toc_numbers_always_one_short
                Sample.a4 Sample.no_sympy Sample.jan Sample.net_B "u" 5
                [Sample.repo "A" 5; Sample.repo "B" 3; Sample.repo "C" 1]
                None [] [] d Hfit E) as [T HT].
    exists d, T. split; [reflexivity | exact HT].
  - exfalso. vm_compute in E. discriminate E.
  - exfalso. vm_compute in E. discriminate E.
Defined.

(** ** No empty cell in inline text *)

Lemma nonempty_true s : s <> EmptyString -> nonempty s = true.
Proof. destruct s; [intros H; now destruct H | reflexivity]. Qed.

Lemma append_nonempty a b : a <> EmptyString -> (a ++ b)%string <> EmptyString.
Proof. destruct a; [intros H; now destruct H | discriminate]. Qed.

Lemma sub_nonempty m s :
  productive m -> s <> EmptyString -> Re.sub m s <> EmptyString.
Proof.
  intros Hm Hs. destruct s as [|c s]; [now destruct Hs|].
  unfold Re.sub. cbn [Re.sub_from].
  destruct (m (String c s)) as [[r len]|] eqn:E; [|discriminate].
  apply append_nonempty. exact (Hm _ _ _ E).
Qed.

Lemma literal_productive k v : v <> EmptyString -> productive (literal k v).
Proof.
  intros Hv s r len. unfold literal. destruct (prefix k s); [|discriminate].
  intros H. injection H as <- _. exact Hv.
Qed.

Lemma script_braced_productive mark : productive (Re.script_braced mark).
Proof.
  intros s r len. unfold Re.script_braced. destruct s as [|c s]; [discriminate|].
  destruct (Ascii.eqb c mark); [|discriminate].
  destruct (Re.braced s) as [[g rest]|]; [|discriminate].
  intros H. injection H as <- _. discriminate.
Qed.

Lemma script_char_productive mark : productive (Re.script_char mark).
Proof.
  intros s r len. unfold Re.script_char.
  destruct s as [|c [|a s]]; try discriminate.
  destruct (Ascii.eqb c mark && is_alnum a); [|discriminate].
  intros H. injection H as <- _. discriminate.
Qed.

Lemma frac_productive : productive Re.frac.
Proof.
  intros s r len. unfold Re.frac. destruct (startswith s "\frac"); [|discriminate].
  destruct (Re.braced (drop 5 s)) as [[a r1]|]; [|discriminate].
  destruct (Re.braced r1) as [[b r2]|]; [|discriminate].
  intros H. injection H as <- _. destruct a; discriminate.
Qed.

Lemma math_span_productive : productive Re.math_span.
Proof.
  intros s r len. unfold Re.math_span. destruct s as [|c s]; [discriminate|].
  destruct (Ascii.eqb c "$") eqn:Ec;
    [apply Ascii.eqb_eq in Ec; subst c
    |destruct c as [[] [] [] [] [] [] [] []]; try discriminate Ec; discriminate].
  destruct (span (Re.not_char "$") s) as [g rest].
  destruct g as [|a g]; [discriminate|]. destruct rest; [discriminate|].
  intros H. injection H as <- _. discriminate.
Qed.

Lemma code_span_productive : productive Re.code_span.
Proof.
  intros s r len. unfold Re.code_span. destruct s as [|c s]; [discriminate|].
  destruct (Ascii.eqb c "`") eqn:Ec;
    [apply Ascii.eqb_eq in Ec; subst c
    |destruct c as [[] [] [] [] [] [] [] []]; try discriminate Ec; discriminate].
  destruct (startswith s "`"); [discriminate|].
  destruct (span (Re.not_char "`") s) as [g rest].
  destruct g as [|a g]; [discriminate|]. destruct rest; [discriminate|].
  intros H. injection H as <- _. discriminate.
Qed.

Lemma symbols_values_nonempty :
  forallb (fun kv => nonempty (snd kv)) Latex.symbols = true.
Proof. vm_compute. reflexivity. Qed.

Lemma replace_all_nonempty l :
  forallb (fun kv => nonempty (snd kv)) l = true ->
  forall tex,
    tex <> EmptyString ->
    fold_left (fun t kv => replace (fst kv) (snd kv) t) l tex <> EmptyString.
Proof.
  induction l as [|[k v] l IH]; intros Hl tex Htex; cbn [fold_left]; [exact Htex|].
  simpl in Hl. apply andb_true_iff in Hl as [Hv Hl].
  apply (IH Hl). unfold replace. rewrite replace_from_literal.
  apply (sub_nonempty (literal k v)); [|exact Htex].
  apply literal_productive. intros ->. discriminate Hv.
Qed.

Lemma fallback_nonempty tex :
  tex <> EmptyString -> Latex.fallback tex <> EmptyString.
Proof.
  intros H. unfold Latex.fallback, Latex.fractions, Latex.subscripts,
              Latex.superscripts, Latex.replace_symbols.
  apply sub_nonempty; [apply frac_productive|].
  apply sub_nonempty; [apply script_char_productive|].
  apply sub_nonempty; [apply script_braced_productive|].
  apply sub_nonempty; [apply script_char_productive|].
  apply sub_nonempty; [apply script_braced_productive|].
  apply replace_all_nonempty; [apply symbols_values_nonempty | exact H].
Qed.

Lemma split_from_calls (Q : Call -> bool) m (A B : string -> list Call) :
  productive m ->
  (forall g, g <> EmptyString -> forallb Q (A g) = true) ->
  (forall p, forallb Q (B p) = true) ->
  forall s skip cur i,
    Nat.odd i = false ->
    forallb Q (flat_map (fun '(j, p) => if Nat.odd j then A p else B p)
                        (enumerate_from i (Re.split_from m skip cur s)))
    = true.
Proof.
  intros Hm HA HB. induction s as [|c s IH]; intros skip cur i Hi.
  - cbn [Re.split_from enumerate_from flat_map]. rewrite Hi, app_nil_r. apply HB.
  - destruct skip as [|n]; cbn [Re.split_from]; [|now apply IH].
    destruct (m (String c s)) as [[g len]|] eqn:E; [|now apply IH].
    cbn [enumerate_from flat_map]. rewrite Hi.
    assert (Hodd : Nat.odd (S i) = true).
    { rewrite Nat.odd_succ, <- Nat.negb_odd, Hi. reflexivity. }
    rewrite Hodd, !forallb_app, HB, (HA g (Hm _ _ _ E)). cbn [andb].
    apply IH. rewrite Nat.odd_succ, <- Nat.negb_odd, Hodd. reflexivity.
Qed.

Lemma bold_level_writes_text cpart :
  forallb writes_text (bold_level cpart) = true.
Proof.
  unfold bold_level. apply forallb_flat_map. intros [b bpart].
  destruct (Nat.odd b); cbn [forallb writes_text];
    destruct (nonempty bpart) eqn:E; cbn [forallb writes_text]; rewrite ?E;
    reflexivity.
Qed.

Lemma code_level_writes_text mpart :
  forallb writes_text (code_level mpart) = true.
Proof.
  unfold code_level, enumerate, Re.split.
  apply (split_from_calls writes_text Re.code_span
           (fun cpart => [set_font courier Regular 9; multi_cell 0 5 cpart])
           bold_level code_span_productive).
  - intros g Hg. cbn [forallb writes_text]. now rewrite (nonempty_true _ Hg).
  - apply bold_level_writes_text.
  - reflexivity.
Qed.

(** X23: provided the rendering SymPy gives of a snippet is never empty,
    [process_inline] only selects fonts and writes cells
    [multi_cell(0, 5, t)] whose text [t] is not empty: an empty piece between
    two spans, an empty bold span or the empty line never costs a blank
    line. *)
Theorem process_inline_never_writes_empty_cell :
  forall (sympy : string -> option string) (text : string),
    (forall tex, sympy tex <> Some EmptyString) ->
    forallb writes_text (process_inline sympy text) = true.
Proof.
  intros sympy text Hsympy. unfold process_inline, enumerate, Re.split.
  apply (split_from_calls writes_text Re.math_span
           (fun mpart => [set_font helvetica Italic 10;
                          multi_cell 0 5 (Latex.latex_to_unicode sympy mpart)])
           code_level math_span_productive).
  - intros g Hg. cbn [forallb writes_text].
    rewrite nonempty_true; [reflexivity|].
    unfold Latex.latex_to_unicode. destruct (sympy g) as [p|] eqn:E.
    + intros ->. now apply (Hsympy g).
    + now apply fallback_nonempty.
  - apply code_level_writes_text.
  - reflexivity.
Qed.

Lemma process_inline_never_writes_empty_cell_witness :
  forallb writes_text
          (process_inline Sample.no_sympy "see $x^2$, `f(x)` and ****bold**")
  = true.
Proof.
  apply (process_inline_never_writes_empty_cell Sample.no_sympy).
  intros tex. discriminate.
Defined.

(** ** The text formats and unanswered requests *)




